(** * csv-discrepancy-finder: a shallow embedding of [main.py]

    The program reads two CSV sources, renames their columns through a
    mapping table, translates and normalizes the values, filters rows,
    indexes the rows by a composite primary key and reports the rows that
    miss a key, the duplicated keys, the rows present in one source only and
    the field differences of the rows present in both.

    Files are modelled by what [csv.reader] yields for them: a list of rows,
    each a list of strings, the header row first.  Exceptions are modelled by
    an error monad; [write_to_log] is an effect on the file system that no
    function below reads back, and is left out; a result file is modelled by
    the lines [csv.DictWriter] writes to it.  Characters are the code points
    below 256, on which [str.lower], [str.strip] and [str.isspace] are as
    Python defines them; module [Unicode] has [normalize], the filter and
    [read_source_csv] on strings of any characters. *)

From Stdlib Require Import List String Ascii Bool Arith NArith Lia
  Permutation.
Import ListNotations.
Open Scope string_scope.
Open Scope list_scope.
Open Scope nat_scope.

(** ** Exceptions *)

Module Py.

Inductive exn : Type :=
| StopIteration
| IndexError (msg : string)
| KeyError (key : string)
| ValueError (msg : string)
| IOError (msg : string).

Inductive result (A : Type) : Type :=
| Ok (a : A)
| Raise (e : exn).

Arguments Ok {A} a.
Arguments Raise {A} e.

Definition bind {A B : Type} (m : result A) (k : A -> result B) : result B :=
  match m with
  | Ok a => k a
  | Raise e => Raise e
  end.

Definition is_ok {A : Type} (m : result A) : bool :=
  match m with Ok _ => true | Raise _ => false end.

End Py.

Import Py.

Notation "x <- m ;; k" := (bind m (fun x => k))
  (at level 61, m at next level, right associativity).

(** ** Python strings *)

Module Str.

Definition chars (s : string) : list ascii := list_ascii_of_string s.
Definition str (l : list ascii) : string := string_of_list_ascii l.

Definition code (c : ascii) : nat := nat_of_ascii c.

(** The upper-case letters below 256: A-Z, and the Latin-1 letters
    U+00C0..U+00D6 and U+00D8..U+00DE. *)
Definition is_upper (c : ascii) : bool :=
  let n := code c in
  ((65 <=? n) && (n <=? 90)) || ((192 <=? n) && (n <=? 214))
  || ((216 <=? n) && (n <=? 222)).

Definition lower_char (c : ascii) : ascii :=
  if is_upper c then ascii_of_nat (code c + 32) else c.

(** [str.lower] *)
Definition lower (s : string) : string := str (map lower_char (chars s)).

(** The white space of [str.isspace] and [str.strip] below 256. *)
Definition is_space (c : ascii) : bool :=
  let n := code c in
  ((9 <=? n) && (n <=? 13)) || ((28 <=? n) && (n <=? 32))
  || (n =? 133) || (n =? 160).

Fixpoint dropwhile (p : ascii -> bool) (l : list ascii) : list ascii :=
  match l with
  | [] => []
  | c :: l' => if p c then dropwhile p l' else l
  end.

(** [str.strip] *)
Definition strip (s : string) : string :=
  str (rev (dropwhile is_space (rev (dropwhile is_space (chars s))))).

(** [str.isspace]: every character is white space and there is at least one *)
Definition isspace (s : string) : bool :=
  match chars s with
  | [] => false
  | l => forallb is_space l
  end.

End Str.

(** ** Python dictionaries with string keys and values

    A dictionary keeps its keys in insertion order; an assignment to a key it
    already holds replaces the value in place.  Equality ignores the order. *)

Module Dict.

Definition t : Type := list (string * string).

Fixpoint get (d : t) (k : string) : option string :=
  match d with
  | [] => None
  | (k', v) :: d' => if String.eqb k' k then Some v else get d' k
  end.

(** [k in d] *)
Definition mem (k : string) (d : t) : bool :=
  match get d k with Some _ => true | None => false end.

(** [d[k]] *)
Definition getitem (d : t) (k : string) : result string :=
  match get d k with
  | Some v => Ok v
  | None => Raise (KeyError k)
  end.

(** [d[k] = v] *)
Fixpoint set (d : t) (k v : string) : t :=
  match d with
  | [] => [(k, v)]
  | (k', v') :: d' =>
      if String.eqb k' k then (k', v) :: d' else (k', v') :: set d' k v
  end.

Definition keys (d : t) : list string := map fst d.
Definition values (d : t) : list string := map snd d.

Definition option_eqb (a b : option string) : bool :=
  match a, b with
  | Some x, Some y => String.eqb x y
  | None, None => true
  | _, _ => false
  end.

Definition subdict (d1 d2 : t) : bool :=
  forallb (fun k => option_eqb (get d1 k) (get d2 k)) (keys d1).

(** [d1 == d2] *)
Definition eqb (d1 d2 : t) : bool := subdict d1 d2 && subdict d2 d1.

End Dict.

(** [x in l] for a list of strings *)
Definition str_in (x : string) (l : list string) : bool :=
  existsb (String.eqb x) l.

(** [l[i]] *)
Definition index {A : Type} (l : list A) (i : nat) : result A :=
  match nth_error l i with
  | Some a => Ok a
  | None => Raise (IndexError "list index out of range")
  end.

(** [l.remove(x)] on a list of dictionaries: the first element equal to [x]
    goes; [ValueError] when there is none. *)
Fixpoint list_remove (x : Dict.t) (l : list Dict.t) : result (list Dict.t) :=
  match l with
  | [] => Raise (ValueError "list.remove(x): x not in list")
  | y :: l' =>
      if Dict.eqb y x then Ok l'
      else l'' <- list_remove x l' ;; Ok (y :: l'')
  end.

(** ** [normalize] *)

Definition normalize (x : string) : string := Str.strip (Str.lower x).

(** ** [make_difference_entry] *)

(** The column [f"{key}-[{source_name}]"] *)
Definition label (key source_name : string) : string :=
  (key ++ "-[" ++ source_name ++ "]")%string.

(** The two errors of [make_difference_entry], both a [ValueError], under
    the names the specification gives them *)
Definition KeyMismatchError : exn :=
  ValueError
    "ERROR: Something went wrong when finding entries to take the difference of".

Definition SchemaMismatchError : exn :=
  ValueError "ERROR: One of the sources is incorrectly formatted".

(** The loop over [dict_1.keys()] *)
Fixpoint difference_fields (ks : list string) (dict_1 dict_2 : Dict.t)
    (source_1_name source_2_name : string) (difference : Dict.t)
  : result Dict.t :=
  match ks with
  | [] => Ok difference
  | key :: ks' =>
      if String.eqb key "primary_key" then
        difference_fields ks' dict_1 dict_2 source_1_name source_2_name
          difference
      else
        v1 <- Dict.getitem dict_1 key ;;
        let difference := Dict.set difference (label key source_1_name) v1 in
        match Dict.get dict_2 key with
        | None => Raise SchemaMismatchError
        | Some v2 =>
            difference_fields ks' dict_1 dict_2 source_1_name source_2_name
              (Dict.set difference (label key source_2_name)
                 (if String.eqb v1 v2 then "*same*" else v2))
        end
  end.

Definition make_difference_entry (dict_1 dict_2 : Dict.t)
    (source_1_name source_2_name : string) : result Dict.t :=
  pk_1 <- Dict.getitem dict_1 "primary_key" ;;
  pk_2 <- Dict.getitem dict_2 "primary_key" ;;
  if negb (String.eqb pk_1 pk_2) then Raise KeyMismatchError
  else
    difference_fields (Dict.keys dict_1) dict_1 dict_2
      source_1_name source_2_name [("primary_key", pk_1)].

(** ** The files, as [csv.reader] yields them *)

Definition row : Type := list string.
Definition csv : Type := list row.

(** ** [make_filtering_list] *)

(** The [IndexError] of a row with fewer than two cells *)
Definition FilterFormatError : exn :=
  IndexError "ERROR: filtering csv not formatted properly".

(** The loop over the rows of the filtering file *)
Fixpoint filtering_lines (lines : list row)
    (filtering_list : list (string * string))
  : result (list (string * string)) :=
  match lines with
  | [] => Ok filtering_list
  | line :: rest =>
      match nth_error line 0, nth_error line 1 with
      | Some fieldname, Some value =>
          filtering_lines rest (filtering_list ++ [(fieldname, value)])
      | _, _ => Raise FilterFormatError
      end
  end.

Definition make_filtering_list (filtering_csv : csv)
  : result (list (string * string)) :=
  match filtering_csv with
  | [] => Raise StopIteration
  | _headers :: lines => filtering_lines lines []
  end.

(** ** Rows of a source: the records and the bookkeeping of
    [read_source_csv] *)

(** [[x['primary_key'] for x in l]] *)
Fixpoint primary_keys_of (l : list Dict.t) : result (list string) :=
  match l with
  | [] => Ok []
  | x :: l' =>
      k <- Dict.getitem x "primary_key" ;;
      ks <- primary_keys_of l' ;;
      Ok (k :: ks)
  end.

(** [[x for x in l if x['primary_key'] == pk]] *)
Fixpoint select_pk (pk : string) (l : list Dict.t) : result (list Dict.t) :=
  match l with
  | [] => Ok []
  | x :: l' =>
      k <- Dict.getitem x "primary_key" ;;
      xs <- select_pk pk l' ;;
      Ok (if String.eqb k pk then x :: xs else xs)
  end.

(** [l.sort(key=lambda x: x['primary_key'])]: the keys are computed first,
    then the list is sorted by them; the sort is stable. *)
Fixpoint insert_by_key (k : string) (x : Dict.t)
    (l : list (string * Dict.t)) : list (string * Dict.t) :=
  match l with
  | [] => [(k, x)]
  | (k', y) :: l' =>
      if String.ltb k k' then (k, x) :: l
      else (k', y) :: insert_by_key k x l'
  end.

Definition sort_keyed (l : list (string * Dict.t)) : list (string * Dict.t) :=
  fold_left (fun acc kx => insert_by_key (fst kx) (snd kx) acc) l [].

Definition sort_by_primary_key (l : list Dict.t) : result (list Dict.t) :=
  ks <- primary_keys_of l ;;
  Ok (map snd (sort_keyed (combine ks l))).

Record source_state : Type := mk_source_state {
  entries : list Dict.t;
  missing_pks : list Dict.t;
  duplicates : list Dict.t;
  seen_pks : list string  (* a set: only [in] and [add] are used *)
}.

(** The error of the guard against two records of the index with one key *)
Definition SourceFormatError : exn :=
  IndexError "Something went wrong with the formatting of this source".

(** The errors of [make_mapping_dict], under the names the specification
    gives them: the [IndexError] of a short row, the [IOError] of a source
    name met twice and the [IOError] of a primary key that is not mapped *)
Definition MappingFormatError (mode : string) : exn :=
  IndexError ("ERROR: " ++ mode ++ " csv not formatted properly")%string.

Definition DuplicateKeyError : exn :=
  IOError "ERROR: Duplicate source values found in mapping csv".

Definition ConfigError : exn :=
  IOError
    "ERROR: Missing a primary key as a standard mapping value in mapping csv".

(** The loop over the rows of a mapping or translations file *)
Fixpoint mapping_lines (mode : string) (lines : list row)
    (mapping_dict : Dict.t) : result Dict.t :=
  match lines with
  | [] => Ok mapping_dict
  | line :: rest =>
      match nth_error line 1, nth_error line 0 with
      | Some source_name, Some standard_name =>
          if negb (Dict.mem source_name mapping_dict) then
            mapping_lines mode rest
              (Dict.set mapping_dict source_name standard_name)
          else Raise DuplicateKeyError
      | _, _ => Raise (MappingFormatError mode)
      end
  end.

Section Program.

(** [config/sources.py] *)
Variable primary_keys : list string.
Variable source_1_name source_2_name : string.

(** ** [make_mapping_dict] *)

(** [for key in primary_keys: if key not in mapping_dict.values(): raise] *)
Fixpoint check_primary_keys (keys : list string) (mapping_dict : Dict.t)
  : result unit :=
  match keys with
  | [] => Ok tt
  | key :: rest =>
      if negb (str_in key (Dict.values mapping_dict)) then Raise ConfigError
      else check_primary_keys rest mapping_dict
  end.

Definition make_mapping_dict (mapping_csv : csv) (mode : string)
  : result Dict.t :=
  if negb (str_in mode ["mapping"; "translations"]) then
    Raise (ValueError "ERROR: incorrect mode for make_mapping_dict")
  else
    match mapping_csv with
    | [] => Raise StopIteration
    | _headers :: lines =>
        mapping_dict <- mapping_lines mode lines [] ;;
        if String.eqb mode "mapping" then
          _ <- check_primary_keys primary_keys mapping_dict ;;
          Ok mapping_dict
        else Ok mapping_dict
    end.

(** ** [read_source_csv] *)

(** The loop over [enumerate(headers)]: the renamed headers, [pk_indices] and
    [headers_to_compare]. *)
Fixpoint scan_headers (mapping_dict : Dict.t) (idx : nat)
    (headers : list string)
  : list string * list nat * list (string * nat) :=
  match headers with
  | [] => ([], [], [])
  | header :: rest =>
      let '(headers', pk_indices, headers_to_compare) :=
        scan_headers mapping_dict (S idx) rest in
      match Dict.get mapping_dict header with
      | Some standard_name =>
          if str_in standard_name primary_keys then
            (header :: headers', idx :: pk_indices, headers_to_compare)
          else
            (standard_name :: headers', pk_indices,
             (header, idx) :: headers_to_compare)
      | None => (header :: headers', pk_indices, headers_to_compare)
      end
  end.

(** [for pk_idx in pk_indices: pk = pk + entry[pk_idx] + " "] *)
Fixpoint build_pk (pk_indices : list nat) (entry : row) (pk : string)
  : result string :=
  match pk_indices with
  | [] => Ok pk
  | pk_idx :: rest =>
      v <- index entry pk_idx ;;
      build_pk rest entry ((pk ++ v) ++ " ")%string
  end.

(** The loop over [headers_to_compare] *)
Fixpoint build_fields (translations_dict : Dict.t) (headers : list string)
    (headers_to_compare : list (string * nat)) (entry : row)
    (entry_dict : Dict.t) : result Dict.t :=
  match headers_to_compare with
  | [] => Ok entry_dict
  | (_header, header_idx) :: rest =>
      value <- index entry header_idx ;;
      let v :=
        match Dict.get translations_dict value with
        | Some translated => normalize translated
        | None => normalize value
        end in
      name <- index headers header_idx ;;
      build_fields translations_dict headers rest entry
        (Dict.set entry_dict name v)
  end.

(** The raw key and the record of one row *)
Definition build_entry (translations_dict : Dict.t) (headers : list string)
    (pk_indices : list nat) (headers_to_compare : list (string * nat))
    (entry : row) : result (string * Dict.t) :=
  pk <- build_pk pk_indices entry "" ;;
  entry_dict <-
    build_fields translations_dict headers headers_to_compare entry
      [("primary_key", normalize pk)] ;;
  Ok (pk, entry_dict).

(** The loop over [filtering_list]; it does not stop at the first match. *)
Fixpoint filter_ignore (filtering_list : list (string * string))
    (entry_dict : Dict.t) (ignore : bool) : result bool :=
  match filtering_list with
  | [] => Ok ignore
  | (fieldname, value) :: rest =>
      v <- Dict.getitem entry_dict fieldname ;;
      filter_ignore rest entry_dict
        (if String.eqb v value then true else ignore)
  end.

(** "populate the entry list" *)
Definition populate (st : source_state) (pk : string) (entry_dict : Dict.t)
  : result source_state :=
  if String.eqb pk "" || Str.isspace pk then
    Ok (mk_source_state (entries st) (missing_pks st ++ [entry_dict])
          (duplicates st) (seen_pks st))
  else
    let pk := normalize pk in
    if str_in pk (seen_pks st) then
      let duplicates := duplicates st ++ [entry_dict] in
      pks <- primary_keys_of (entries st) ;;
      if str_in pk pks then
        to_delete <- select_pk pk (entries st) ;;
        match to_delete with
        | [item_to_delete] =>
            entries <- list_remove item_to_delete (entries st) ;;
            Ok (mk_source_state entries (missing_pks st)
                  (duplicates ++ [item_to_delete]) (seen_pks st))
        | _ => Raise SourceFormatError
        end
      else
        Ok (mk_source_state (entries st) (missing_pks st) duplicates
              (seen_pks st))
    else
      Ok (mk_source_state (entries st ++ [entry_dict]) (missing_pks st)
            (duplicates st) (seen_pks st ++ [pk])).

(** One turn of [for entry in reader] *)
Definition process_entry (translations_dict : Dict.t)
    (filtering_list : list (string * string)) (headers : list string)
    (pk_indices : list nat) (headers_to_compare : list (string * nat))
    (st : source_state) (entry : row) : result source_state :=
  built <-
    build_entry translations_dict headers pk_indices headers_to_compare
      entry ;;
  let '(pk, entry_dict) := built in
  ignore <- filter_ignore filtering_list entry_dict false ;;
  if ignore then Ok st else populate st pk entry_dict.

Fixpoint process_entries (translations_dict : Dict.t)
    (filtering_list : list (string * string)) (headers : list string)
    (pk_indices : list nat) (headers_to_compare : list (string * nat))
    (rows : list row) (st : source_state) : result source_state :=
  match rows with
  | [] => Ok st
  | entry :: rest =>
      st' <-
        process_entry translations_dict filtering_list headers pk_indices
          headers_to_compare st entry ;;
      process_entries translations_dict filtering_list headers pk_indices
        headers_to_compare rest st'
  end.

Definition read_source_csv (source_csv : csv)
    (mapping_dict translations_dict : Dict.t)
    (filtering_list : list (string * string))
  : result (list Dict.t * list Dict.t * list Dict.t) :=
  match source_csv with
  | [] => Raise StopIteration
  | headers :: rows =>
      let '(headers, pk_indices, headers_to_compare) :=
        scan_headers mapping_dict 0 headers in
      st <-
        process_entries translations_dict filtering_list headers pk_indices
          headers_to_compare rows (mk_source_state [] [] [] []) ;;
      entries <- sort_by_primary_key (entries st) ;;
      duplicates <- sort_by_primary_key (duplicates st) ;;
      Ok (entries, missing_pks st, duplicates)
  end.

(** ** [compare_sources] *)

(** The lists the comparison works on.  [source_1_entries] and
    [source_2_entries] are the lists [read_source_csv] returned; the copies
    are made from them before the loop. *)
Record compare_state : Type := mk_compare_state {
  source_1_entries : list Dict.t;
  source_2_entries : list Dict.t;
  source_1_entries_copy : list Dict.t;
  source_2_entries_copy : list Dict.t;
  source_1_extra : list Dict.t;
  source_2_extra : list Dict.t;
  differences : list Dict.t
}.

(** One turn of [for entry in source_1_entries_copy].
    [make_difference_entry] is called with its default source names, the ones
    of [config/sources.py]. *)
Definition compare_entry (st : compare_state) (entry : Dict.t)
  : result compare_state :=
  entry_pk <- Dict.getitem entry "primary_key" ;;
  matches <- select_pk entry_pk (source_2_entries_copy st) ;;
  match matches with
  | _ :: _ :: _ => Ok st
  | [] =>
      Ok (mk_compare_state (source_1_entries st) (source_2_entries st)
            (source_1_entries_copy st) (source_2_entries_copy st)
            (source_1_extra st ++ [entry]) (source_2_extra st)
            (differences st))
  | [match_] =>
      differences' <-
        (if negb (Dict.eqb entry match_) then
           d <- make_difference_entry entry match_
                  source_1_name source_2_name ;;
           Ok (differences st ++ [d])
         else Ok (differences st)) ;;
      entries_1 <- list_remove entry (source_1_entries st) ;;
      entries_2 <- list_remove match_ (source_2_entries st) ;;
      Ok (mk_compare_state entries_1 entries_2
            (source_1_entries_copy st) (source_2_entries_copy st)
            (source_1_extra st) (source_2_extra st) differences')
  end.

Fixpoint compare_loop (todo : list Dict.t) (st : compare_state)
  : result compare_state :=
  match todo with
  | [] => Ok st
  | entry :: rest =>
      st' <- compare_entry st entry ;;
      compare_loop rest st'
  end.

(** Lines 298 to 322: the copies, the loop and [source_2_extra.extend] *)
Definition compare_entries (entries_1 entries_2 : list Dict.t)
  : result compare_state :=
  let st :=
    mk_compare_state entries_1 entries_2 entries_1 entries_2 [] [] [] in
  st <- compare_loop (source_1_entries_copy st) st ;;
  Ok (mk_compare_state (source_1_entries st) (source_2_entries st)
        (source_1_entries_copy st) (source_2_entries_copy st)
        (source_1_extra st) (source_2_extra st ++ source_2_entries st)
        (differences st)).

(** A result file: the name it is written under, its kind and its lines,
    the header first *)
Definition report : Type := string * string * csv.

(** The [ValueError] of [csv.DictWriter] for a row that holds a field which
    is no column of the file.  The message of Python goes on with the names
    of these fields, in the order of a set. *)
Definition FieldnamesError : exn :=
  ValueError "dict contains fields not in fieldnames".

(** [DictWriter.writerow]: the values of the row under the columns of the
    file, the empty string where the row has no such field; it raises when
    the row has a field that is no column. *)
Definition writerow (fieldnames : list string) (entry : Dict.t)
  : result row :=
  if forallb (fun k => str_in k fieldnames) (Dict.keys entry) then
    Ok (map (fun k =>
               match Dict.get entry k with Some v => v | None => "" end)
          fieldnames)
  else Raise FieldnamesError.

(** [for entry in source_data: writer.writerow(entry)] *)
Fixpoint writerows (fieldnames : list string) (source_data : list Dict.t)
  : result (list row) :=
  match source_data with
  | [] => Ok []
  | entry :: rest =>
      line <- writerow fieldnames entry ;;
      lines <- writerows fieldnames rest ;;
      Ok (line :: lines)
  end.

(** What [make_result_csv] writes; the columns of the file are the fields of
    [source_data[0]]. *)
Definition make_result_csv (source_name : string) (source_data : list Dict.t)
    (csv_type : string) : result report :=
  first <- index source_data 0 ;;
  let fieldnames := Dict.keys first in
  lines <- writerows fieldnames source_data ;;
  Ok (source_name, csv_type, fieldnames :: lines).

(** [if len(source_data) > 0: make_result_csv(...)] *)
Definition write_if_populated (source_name : string)
    (source_data : list Dict.t) (csv_type : string) (written : list report)
  : result (list report) :=
  if 0 <? List.length source_data then
    r <- make_result_csv source_name source_data csv_type ;;
    Ok (written ++ [r])
  else Ok written.

(** The whole run; the result files are returned in the order they are
    written.  The names given as arguments only name the files. *)
Definition compare_sources (name_1 name_2 : string)
    (source_1 source_2 mapping_csv translations_csv filtering_csv : csv)
  : result (list report) :=
  mapping_dict <- make_mapping_dict mapping_csv "mapping" ;;
  translations_dict <- make_mapping_dict translations_csv "translations" ;;
  filtering_list <- make_filtering_list filtering_csv ;;
  r1 <- read_source_csv source_1 mapping_dict translations_dict
          filtering_list ;;
  let '(entries_1, source_1_missingPK, source_1_duplicates) := r1 in
  r2 <- read_source_csv source_2 mapping_dict translations_dict
          filtering_list ;;
  let '(entries_2, source_2_missingPK, source_2_duplicates) := r2 in
  st <- compare_entries entries_1 entries_2 ;;
  w <- write_if_populated name_1 source_1_missingPK "missingPK" [] ;;
  w <- write_if_populated name_2 source_2_missingPK "missingPK" w ;;
  w <- write_if_populated name_1 source_1_duplicates "duplicates" w ;;
  w <- write_if_populated name_2 source_2_duplicates "duplicates" w ;;
  w <- write_if_populated name_1 (source_1_extra st) "extra" w ;;
  w <- write_if_populated name_2 (source_2_extra st) "extra" w ;;
  write_if_populated (name_1 ++ " " ++ name_2)%string (differences st)
    "differences" w.

End Program.

(** The values of [config/sources.py] *)
Module Config.
Definition primary_keys : list string := ["id"].
Definition source_1_name : string := "Test 1".
Definition source_2_name : string := "Test 2".
End Config.

(** * Strings of any characters

    The functions the filter depends on, once more, with a string as the
    list of its code points, as Python has it: [normalize],
    [make_filtering_list] and [read_source_csv].  The tables are those of
    Python 3.11 (Unicode 14.0). *)

Module Unicode.

(** A [str]: its code points *)
Definition text : Type := list N.

(** The text of a literal of the program *)
Definition of_string (s : string) : text :=
  map N_of_ascii (list_ascii_of_string s).

(** [a == b] *)
Fixpoint eqb (a b : text) : bool :=
  match a, b with
  | [], [] => true
  | c :: a', d :: b' => N.eqb c d && eqb a' b'
  | _, _ => false
  end.

(** [a < b]: the order of the code points, a proper prefix first *)
Fixpoint ltb (a b : text) : bool :=
  match a, b with
  | _, [] => false
  | [], _ :: _ => true
  | c :: a', d :: b' => N.ltb c d || (N.eqb c d && ltb a' b')
  end.

(** ** Exceptions *)

Inductive exn : Type :=
| StopIteration
| IndexError (msg : string)
| KeyError (key : text)
| ValueError (msg : string).

Inductive result (A : Type) : Type :=
| Ok (a : A)
| Raise (e : exn).

Arguments Ok {A} a.
Arguments Raise {A} e.

Definition bind {A B : Type} (m : result A) (k : A -> result B) : result B :=
  match m with
  | Ok a => k a
  | Raise e => Raise e
  end.

Declare Scope text_scope.
Notation "x <- m ;; k" := (bind m (fun x => k))
  (at level 61, m at next level, right associativity) : text_scope.
Local Open Scope text_scope.

(** ** The characters *)

(** The white space of [str.isspace] and [str.strip], as ranges of code
    points *)
Definition whitespace : list (N * N) :=
  [(0x9, 0xd); (0x1c, 0x20); (0x85, 0x85); (0xa0, 0xa0); (0x1680, 0x1680);
   (0x2000, 0x200a); (0x2028, 0x2029); (0x202f, 0x202f); (0x205f, 0x205f);
   (0x3000, 0x3000)]%N.

(** The characters [c] with [c.isupper()] *)
Definition uppercase : list (N * N) :=
  [(0x41, 0x5a); (0xc0, 0xd6); (0xd8, 0xde); (0x100, 0x100); (0x102, 0x102);
   (0x104, 0x104); (0x106, 0x106); (0x108, 0x108); (0x10a, 0x10a);
   (0x10c, 0x10c); (0x10e, 0x10e); (0x110, 0x110); (0x112, 0x112);
   (0x114, 0x114); (0x116, 0x116); (0x118, 0x118); (0x11a, 0x11a);
   (0x11c, 0x11c); (0x11e, 0x11e); (0x120, 0x120); (0x122, 0x122);
   (0x124, 0x124); (0x126, 0x126); (0x128, 0x128); (0x12a, 0x12a);
   (0x12c, 0x12c); (0x12e, 0x12e); (0x130, 0x130); (0x132, 0x132);
   (0x134, 0x134); (0x136, 0x136); (0x139, 0x139); (0x13b, 0x13b);
   (0x13d, 0x13d); (0x13f, 0x13f); (0x141, 0x141); (0x143, 0x143);
   (0x145, 0x145); (0x147, 0x147); (0x14a, 0x14a); (0x14c, 0x14c);
   (0x14e, 0x14e); (0x150, 0x150); (0x152, 0x152); (0x154, 0x154);
   (0x156, 0x156); (0x158, 0x158); (0x15a, 0x15a); (0x15c, 0x15c);
   (0x15e, 0x15e); (0x160, 0x160); (0x162, 0x162); (0x164, 0x164);
   (0x166, 0x166); (0x168, 0x168); (0x16a, 0x16a); (0x16c, 0x16c);
   (0x16e, 0x16e); (0x170, 0x170); (0x172, 0x172); (0x174, 0x174);
   (0x176, 0x176); (0x178, 0x179); (0x17b, 0x17b); (0x17d, 0x17d);
   (0x181, 0x182); (0x184, 0x184); (0x186, 0x187); (0x189, 0x18b);
   (0x18e, 0x191); (0x193, 0x194); (0x196, 0x198); (0x19c, 0x19d);
   (0x19f, 0x1a0); (0x1a2, 0x1a2); (0x1a4, 0x1a4); (0x1a6, 0x1a7);
   (0x1a9, 0x1a9); (0x1ac, 0x1ac); (0x1ae, 0x1af); (0x1b1, 0x1b3);
   (0x1b5, 0x1b5); (0x1b7, 0x1b8); (0x1bc, 0x1bc); (0x1c4, 0x1c4);
   (0x1c7, 0x1c7); (0x1ca, 0x1ca); (0x1cd, 0x1cd); (0x1cf, 0x1cf);
   (0x1d1, 0x1d1); (0x1d3, 0x1d3); (0x1d5, 0x1d5); (0x1d7, 0x1d7);
   (0x1d9, 0x1d9); (0x1db, 0x1db); (0x1de, 0x1de); (0x1e0, 0x1e0);
   (0x1e2, 0x1e2); (0x1e4, 0x1e4); (0x1e6, 0x1e6); (0x1e8, 0x1e8);
   (0x1ea, 0x1ea); (0x1ec, 0x1ec); (0x1ee, 0x1ee); (0x1f1, 0x1f1);
   (0x1f4, 0x1f4); (0x1f6, 0x1f8); (0x1fa, 0x1fa); (0x1fc, 0x1fc);
   (0x1fe, 0x1fe); (0x200, 0x200); (0x202, 0x202); (0x204, 0x204);
   (0x206, 0x206); (0x208, 0x208); (0x20a, 0x20a); (0x20c, 0x20c);
   (0x20e, 0x20e); (0x210, 0x210); (0x212, 0x212); (0x214, 0x214);
   (0x216, 0x216); (0x218, 0x218); (0x21a, 0x21a); (0x21c, 0x21c);
   (0x21e, 0x21e); (0x220, 0x220); (0x222, 0x222); (0x224, 0x224);
   (0x226, 0x226); (0x228, 0x228); (0x22a, 0x22a); (0x22c, 0x22c);
   (0x22e, 0x22e); (0x230, 0x230); (0x232, 0x232); (0x23a, 0x23b);
   (0x23d, 0x23e); (0x241, 0x241); (0x243, 0x246); (0x248, 0x248);
   (0x24a, 0x24a); (0x24c, 0x24c); (0x24e, 0x24e); (0x370, 0x370);
   (0x372, 0x372); (0x376, 0x376); (0x37f, 0x37f); (0x386, 0x386);
   (0x388, 0x38a); (0x38c, 0x38c); (0x38e, 0x38f); (0x391, 0x3a1);
   (0x3a3, 0x3ab); (0x3cf, 0x3cf); (0x3d2, 0x3d4); (0x3d8, 0x3d8);
   (0x3da, 0x3da); (0x3dc, 0x3dc); (0x3de, 0x3de); (0x3e0, 0x3e0);
   (0x3e2, 0x3e2); (0x3e4, 0x3e4); (0x3e6, 0x3e6); (0x3e8, 0x3e8);
   (0x3ea, 0x3ea); (0x3ec, 0x3ec); (0x3ee, 0x3ee); (0x3f4, 0x3f4);
   (0x3f7, 0x3f7); (0x3f9, 0x3fa); (0x3fd, 0x42f); (0x460, 0x460);
   (0x462, 0x462); (0x464, 0x464); (0x466, 0x466); (0x468, 0x468);
   (0x46a, 0x46a); (0x46c, 0x46c); (0x46e, 0x46e); (0x470, 0x470);
   (0x472, 0x472); (0x474, 0x474); (0x476, 0x476); (0x478, 0x478);
   (0x47a, 0x47a); (0x47c, 0x47c); (0x47e, 0x47e); (0x480, 0x480);
   (0x48a, 0x48a); (0x48c, 0x48c); (0x48e, 0x48e); (0x490, 0x490);
   (0x492, 0x492); (0x494, 0x494); (0x496, 0x496); (0x498, 0x498);
   (0x49a, 0x49a); (0x49c, 0x49c); (0x49e, 0x49e); (0x4a0, 0x4a0);
   (0x4a2, 0x4a2); (0x4a4, 0x4a4); (0x4a6, 0x4a6); (0x4a8, 0x4a8);
   (0x4aa, 0x4aa); (0x4ac, 0x4ac); (0x4ae, 0x4ae); (0x4b0, 0x4b0);
   (0x4b2, 0x4b2); (0x4b4, 0x4b4); (0x4b6, 0x4b6); (0x4b8, 0x4b8);
   (0x4ba, 0x4ba); (0x4bc, 0x4bc); (0x4be, 0x4be); (0x4c0, 0x4c1);
   (0x4c3, 0x4c3); (0x4c5, 0x4c5); (0x4c7, 0x4c7); (0x4c9, 0x4c9);
   (0x4cb, 0x4cb); (0x4cd, 0x4cd); (0x4d0, 0x4d0); (0x4d2, 0x4d2);
   (0x4d4, 0x4d4); (0x4d6, 0x4d6); (0x4d8, 0x4d8); (0x4da, 0x4da);
   (0x4dc, 0x4dc); (0x4de, 0x4de); (0x4e0, 0x4e0); (0x4e2, 0x4e2);
   (0x4e4, 0x4e4); (0x4e6, 0x4e6); (0x4e8, 0x4e8); (0x4ea, 0x4ea);
   (0x4ec, 0x4ec); (0x4ee, 0x4ee); (0x4f0, 0x4f0); (0x4f2, 0x4f2);
   (0x4f4, 0x4f4); (0x4f6, 0x4f6); (0x4f8, 0x4f8); (0x4fa, 0x4fa);
   (0x4fc, 0x4fc); (0x4fe, 0x4fe); (0x500, 0x500); (0x502, 0x502);
   (0x504, 0x504); (0x506, 0x506); (0x508, 0x508); (0x50a, 0x50a);
   (0x50c, 0x50c); (0x50e, 0x50e); (0x510, 0x510); (0x512, 0x512);
   (0x514, 0x514); (0x516, 0x516); (0x518, 0x518); (0x51a, 0x51a);
   (0x51c, 0x51c); (0x51e, 0x51e); (0x520, 0x520); (0x522, 0x522);
   (0x524, 0x524); (0x526, 0x526); (0x528, 0x528); (0x52a, 0x52a);
   (0x52c, 0x52c); (0x52e, 0x52e); (0x531, 0x556); (0x10a0, 0x10c5);
   (0x10c7, 0x10c7); (0x10cd, 0x10cd); (0x13a0, 0x13f5); (0x1c90, 0x1cba);
   (0x1cbd, 0x1cbf); (0x1e00, 0x1e00); (0x1e02, 0x1e02); (0x1e04, 0x1e04);
   (0x1e06, 0x1e06); (0x1e08, 0x1e08); (0x1e0a, 0x1e0a); (0x1e0c, 0x1e0c);
   (0x1e0e, 0x1e0e); (0x1e10, 0x1e10); (0x1e12, 0x1e12); (0x1e14, 0x1e14);
   (0x1e16, 0x1e16); (0x1e18, 0x1e18); (0x1e1a, 0x1e1a); (0x1e1c, 0x1e1c);
   (0x1e1e, 0x1e1e); (0x1e20, 0x1e20); (0x1e22, 0x1e22); (0x1e24, 0x1e24);
   (0x1e26, 0x1e26); (0x1e28, 0x1e28); (0x1e2a, 0x1e2a); (0x1e2c, 0x1e2c);
   (0x1e2e, 0x1e2e); (0x1e30, 0x1e30); (0x1e32, 0x1e32); (0x1e34, 0x1e34);
   (0x1e36, 0x1e36); (0x1e38, 0x1e38); (0x1e3a, 0x1e3a); (0x1e3c, 0x1e3c);
   (0x1e3e, 0x1e3e); (0x1e40, 0x1e40); (0x1e42, 0x1e42); (0x1e44, 0x1e44);
   (0x1e46, 0x1e46); (0x1e48, 0x1e48); (0x1e4a, 0x1e4a); (0x1e4c, 0x1e4c);
   (0x1e4e, 0x1e4e); (0x1e50, 0x1e50); (0x1e52, 0x1e52); (0x1e54, 0x1e54);
   (0x1e56, 0x1e56); (0x1e58, 0x1e58); (0x1e5a, 0x1e5a); (0x1e5c, 0x1e5c);
   (0x1e5e, 0x1e5e); (0x1e60, 0x1e60); (0x1e62, 0x1e62); (0x1e64, 0x1e64);
   (0x1e66, 0x1e66); (0x1e68, 0x1e68); (0x1e6a, 0x1e6a); (0x1e6c, 0x1e6c);
   (0x1e6e, 0x1e6e); (0x1e70, 0x1e70); (0x1e72, 0x1e72); (0x1e74, 0x1e74);
   (0x1e76, 0x1e76); (0x1e78, 0x1e78); (0x1e7a, 0x1e7a); (0x1e7c, 0x1e7c);
   (0x1e7e, 0x1e7e); (0x1e80, 0x1e80); (0x1e82, 0x1e82); (0x1e84, 0x1e84);
   (0x1e86, 0x1e86); (0x1e88, 0x1e88); (0x1e8a, 0x1e8a); (0x1e8c, 0x1e8c);
   (0x1e8e, 0x1e8e); (0x1e90, 0x1e90); (0x1e92, 0x1e92); (0x1e94, 0x1e94);
   (0x1e9e, 0x1e9e); (0x1ea0, 0x1ea0); (0x1ea2, 0x1ea2); (0x1ea4, 0x1ea4);
   (0x1ea6, 0x1ea6); (0x1ea8, 0x1ea8); (0x1eaa, 0x1eaa); (0x1eac, 0x1eac);
   (0x1eae, 0x1eae); (0x1eb0, 0x1eb0); (0x1eb2, 0x1eb2); (0x1eb4, 0x1eb4);
   (0x1eb6, 0x1eb6); (0x1eb8, 0x1eb8); (0x1eba, 0x1eba); (0x1ebc, 0x1ebc);
   (0x1ebe, 0x1ebe); (0x1ec0, 0x1ec0); (0x1ec2, 0x1ec2); (0x1ec4, 0x1ec4);
   (0x1ec6, 0x1ec6); (0x1ec8, 0x1ec8); (0x1eca, 0x1eca); (0x1ecc, 0x1ecc);
   (0x1ece, 0x1ece); (0x1ed0, 0x1ed0); (0x1ed2, 0x1ed2); (0x1ed4, 0x1ed4);
   (0x1ed6, 0x1ed6); (0x1ed8, 0x1ed8); (0x1eda, 0x1eda); (0x1edc, 0x1edc);
   (0x1ede, 0x1ede); (0x1ee0, 0x1ee0); (0x1ee2, 0x1ee2); (0x1ee4, 0x1ee4);
   (0x1ee6, 0x1ee6); (0x1ee8, 0x1ee8); (0x1eea, 0x1eea); (0x1eec, 0x1eec);
   (0x1eee, 0x1eee); (0x1ef0, 0x1ef0); (0x1ef2, 0x1ef2); (0x1ef4, 0x1ef4);
   (0x1ef6, 0x1ef6); (0x1ef8, 0x1ef8); (0x1efa, 0x1efa); (0x1efc, 0x1efc);
   (0x1efe, 0x1efe); (0x1f08, 0x1f0f); (0x1f18, 0x1f1d); (0x1f28, 0x1f2f);
   (0x1f38, 0x1f3f); (0x1f48, 0x1f4d); (0x1f59, 0x1f59); (0x1f5b, 0x1f5b);
   (0x1f5d, 0x1f5d); (0x1f5f, 0x1f5f); (0x1f68, 0x1f6f); (0x1fb8, 0x1fbb);
   (0x1fc8, 0x1fcb); (0x1fd8, 0x1fdb); (0x1fe8, 0x1fec); (0x1ff8, 0x1ffb);
   (0x2102, 0x2102); (0x2107, 0x2107); (0x210b, 0x210d); (0x2110, 0x2112);
   (0x2115, 0x2115); (0x2119, 0x211d); (0x2124, 0x2124); (0x2126, 0x2126);
   (0x2128, 0x2128); (0x212a, 0x212d); (0x2130, 0x2133); (0x213e, 0x213f);
   (0x2145, 0x2145); (0x2160, 0x216f); (0x2183, 0x2183); (0x24b6, 0x24cf);
   (0x2c00, 0x2c2f); (0x2c60, 0x2c60); (0x2c62, 0x2c64); (0x2c67, 0x2c67);
   (0x2c69, 0x2c69); (0x2c6b, 0x2c6b); (0x2c6d, 0x2c70); (0x2c72, 0x2c72);
   (0x2c75, 0x2c75); (0x2c7e, 0x2c80); (0x2c82, 0x2c82); (0x2c84, 0x2c84);
   (0x2c86, 0x2c86); (0x2c88, 0x2c88); (0x2c8a, 0x2c8a); (0x2c8c, 0x2c8c);
   (0x2c8e, 0x2c8e); (0x2c90, 0x2c90); (0x2c92, 0x2c92); (0x2c94, 0x2c94);
   (0x2c96, 0x2c96); (0x2c98, 0x2c98); (0x2c9a, 0x2c9a); (0x2c9c, 0x2c9c);
   (0x2c9e, 0x2c9e); (0x2ca0, 0x2ca0); (0x2ca2, 0x2ca2); (0x2ca4, 0x2ca4);
   (0x2ca6, 0x2ca6); (0x2ca8, 0x2ca8); (0x2caa, 0x2caa); (0x2cac, 0x2cac);
   (0x2cae, 0x2cae); (0x2cb0, 0x2cb0); (0x2cb2, 0x2cb2); (0x2cb4, 0x2cb4);
   (0x2cb6, 0x2cb6); (0x2cb8, 0x2cb8); (0x2cba, 0x2cba); (0x2cbc, 0x2cbc);
   (0x2cbe, 0x2cbe); (0x2cc0, 0x2cc0); (0x2cc2, 0x2cc2); (0x2cc4, 0x2cc4);
   (0x2cc6, 0x2cc6); (0x2cc8, 0x2cc8); (0x2cca, 0x2cca); (0x2ccc, 0x2ccc);
   (0x2cce, 0x2cce); (0x2cd0, 0x2cd0); (0x2cd2, 0x2cd2); (0x2cd4, 0x2cd4);
   (0x2cd6, 0x2cd6); (0x2cd8, 0x2cd8); (0x2cda, 0x2cda); (0x2cdc, 0x2cdc);
   (0x2cde, 0x2cde); (0x2ce0, 0x2ce0); (0x2ce2, 0x2ce2); (0x2ceb, 0x2ceb);
   (0x2ced, 0x2ced); (0x2cf2, 0x2cf2); (0xa640, 0xa640); (0xa642, 0xa642);
   (0xa644, 0xa644); (0xa646, 0xa646); (0xa648, 0xa648); (0xa64a, 0xa64a);
   (0xa64c, 0xa64c); (0xa64e, 0xa64e); (0xa650, 0xa650); (0xa652, 0xa652);
   (0xa654, 0xa654); (0xa656, 0xa656); (0xa658, 0xa658); (0xa65a, 0xa65a);
   (0xa65c, 0xa65c); (0xa65e, 0xa65e); (0xa660, 0xa660); (0xa662, 0xa662);
   (0xa664, 0xa664); (0xa666, 0xa666); (0xa668, 0xa668); (0xa66a, 0xa66a);
   (0xa66c, 0xa66c); (0xa680, 0xa680); (0xa682, 0xa682); (0xa684, 0xa684);
   (0xa686, 0xa686); (0xa688, 0xa688); (0xa68a, 0xa68a); (0xa68c, 0xa68c);
   (0xa68e, 0xa68e); (0xa690, 0xa690); (0xa692, 0xa692); (0xa694, 0xa694);
   (0xa696, 0xa696); (0xa698, 0xa698); (0xa69a, 0xa69a); (0xa722, 0xa722);
   (0xa724, 0xa724); (0xa726, 0xa726); (0xa728, 0xa728); (0xa72a, 0xa72a);
   (0xa72c, 0xa72c); (0xa72e, 0xa72e); (0xa732, 0xa732); (0xa734, 0xa734);
   (0xa736, 0xa736); (0xa738, 0xa738); (0xa73a, 0xa73a); (0xa73c, 0xa73c);
   (0xa73e, 0xa73e); (0xa740, 0xa740); (0xa742, 0xa742); (0xa744, 0xa744);
   (0xa746, 0xa746); (0xa748, 0xa748); (0xa74a, 0xa74a); (0xa74c, 0xa74c);
   (0xa74e, 0xa74e); (0xa750, 0xa750); (0xa752, 0xa752); (0xa754, 0xa754);
   (0xa756, 0xa756); (0xa758, 0xa758); (0xa75a, 0xa75a); (0xa75c, 0xa75c);
   (0xa75e, 0xa75e); (0xa760, 0xa760); (0xa762, 0xa762); (0xa764, 0xa764);
   (0xa766, 0xa766); (0xa768, 0xa768); (0xa76a, 0xa76a); (0xa76c, 0xa76c);
   (0xa76e, 0xa76e); (0xa779, 0xa779); (0xa77b, 0xa77b); (0xa77d, 0xa77e);
   (0xa780, 0xa780); (0xa782, 0xa782); (0xa784, 0xa784); (0xa786, 0xa786);
   (0xa78b, 0xa78b); (0xa78d, 0xa78d); (0xa790, 0xa790); (0xa792, 0xa792);
   (0xa796, 0xa796); (0xa798, 0xa798); (0xa79a, 0xa79a); (0xa79c, 0xa79c);
   (0xa79e, 0xa79e); (0xa7a0, 0xa7a0); (0xa7a2, 0xa7a2); (0xa7a4, 0xa7a4);
   (0xa7a6, 0xa7a6); (0xa7a8, 0xa7a8); (0xa7aa, 0xa7ae); (0xa7b0, 0xa7b4);
   (0xa7b6, 0xa7b6); (0xa7b8, 0xa7b8); (0xa7ba, 0xa7ba); (0xa7bc, 0xa7bc);
   (0xa7be, 0xa7be); (0xa7c0, 0xa7c0); (0xa7c2, 0xa7c2); (0xa7c4, 0xa7c7);
   (0xa7c9, 0xa7c9); (0xa7d0, 0xa7d0); (0xa7d6, 0xa7d6); (0xa7d8, 0xa7d8);
   (0xa7f5, 0xa7f5); (0xff21, 0xff3a); (0x10400, 0x10427); (0x104b0, 0x104d3);
   (0x10570, 0x1057a); (0x1057c, 0x1058a); (0x1058c, 0x10592);
   (0x10594, 0x10595); (0x10c80, 0x10cb2); (0x118a0, 0x118bf);
   (0x16e40, 0x16e5f); (0x1d400, 0x1d419); (0x1d434, 0x1d44d);
   (0x1d468, 0x1d481); (0x1d49c, 0x1d49c); (0x1d49e, 0x1d49f);
   (0x1d4a2, 0x1d4a2); (0x1d4a5, 0x1d4a6); (0x1d4a9, 0x1d4ac);
   (0x1d4ae, 0x1d4b5); (0x1d4d0, 0x1d4e9); (0x1d504, 0x1d505);
   (0x1d507, 0x1d50a); (0x1d50d, 0x1d514); (0x1d516, 0x1d51c);
   (0x1d538, 0x1d539); (0x1d53b, 0x1d53e); (0x1d540, 0x1d544);
   (0x1d546, 0x1d546); (0x1d54a, 0x1d550); (0x1d56c, 0x1d585);
   (0x1d5a0, 0x1d5b9); (0x1d5d4, 0x1d5ed); (0x1d608, 0x1d621);
   (0x1d63c, 0x1d655); (0x1d670, 0x1d689); (0x1d6a8, 0x1d6c0);
   (0x1d6e2, 0x1d6fa); (0x1d71c, 0x1d734); (0x1d756, 0x1d76e);
   (0x1d790, 0x1d7a8); (0x1d7ca, 0x1d7ca); (0x1e900, 0x1e921);
   (0x1f130, 0x1f149); (0x1f150, 0x1f169); (0x1f170, 0x1f189)]%N.

(** The cased characters: lower case, upper case or title case *)
Definition cased : list (N * N) :=
  [(0x41, 0x5a); (0x61, 0x7a); (0xaa, 0xaa); (0xb5, 0xb5); (0xba, 0xba);
   (0xc0, 0xd6); (0xd8, 0xf6); (0xf8, 0x1ba); (0x1bc, 0x1bf); (0x1c4, 0x293);
   (0x295, 0x2b8); (0x2c0, 0x2c1); (0x2e0, 0x2e4); (0x345, 0x345);
   (0x370, 0x373); (0x376, 0x377); (0x37a, 0x37d); (0x37f, 0x37f);
   (0x386, 0x386); (0x388, 0x38a); (0x38c, 0x38c); (0x38e, 0x3a1);
   (0x3a3, 0x3f5); (0x3f7, 0x481); (0x48a, 0x52f); (0x531, 0x556);
   (0x560, 0x588); (0x10a0, 0x10c5); (0x10c7, 0x10c7); (0x10cd, 0x10cd);
   (0x10d0, 0x10fa); (0x10fd, 0x10ff); (0x13a0, 0x13f5); (0x13f8, 0x13fd);
   (0x1c80, 0x1c88); (0x1c90, 0x1cba); (0x1cbd, 0x1cbf); (0x1d00, 0x1dbf);
   (0x1e00, 0x1f15); (0x1f18, 0x1f1d); (0x1f20, 0x1f45); (0x1f48, 0x1f4d);
   (0x1f50, 0x1f57); (0x1f59, 0x1f59); (0x1f5b, 0x1f5b); (0x1f5d, 0x1f5d);
   (0x1f5f, 0x1f7d); (0x1f80, 0x1fb4); (0x1fb6, 0x1fbc); (0x1fbe, 0x1fbe);
   (0x1fc2, 0x1fc4); (0x1fc6, 0x1fcc); (0x1fd0, 0x1fd3); (0x1fd6, 0x1fdb);
   (0x1fe0, 0x1fec); (0x1ff2, 0x1ff4); (0x1ff6, 0x1ffc); (0x2071, 0x2071);
   (0x207f, 0x207f); (0x2090, 0x209c); (0x2102, 0x2102); (0x2107, 0x2107);
   (0x210a, 0x2113); (0x2115, 0x2115); (0x2119, 0x211d); (0x2124, 0x2124);
   (0x2126, 0x2126); (0x2128, 0x2128); (0x212a, 0x212d); (0x212f, 0x2134);
   (0x2139, 0x2139); (0x213c, 0x213f); (0x2145, 0x2149); (0x214e, 0x214e);
   (0x2160, 0x217f); (0x2183, 0x2184); (0x24b6, 0x24e9); (0x2c00, 0x2ce4);
   (0x2ceb, 0x2cee); (0x2cf2, 0x2cf3); (0x2d00, 0x2d25); (0x2d27, 0x2d27);
   (0x2d2d, 0x2d2d); (0xa640, 0xa66d); (0xa680, 0xa69d); (0xa722, 0xa787);
   (0xa78b, 0xa78e); (0xa790, 0xa7ca); (0xa7d0, 0xa7d1); (0xa7d3, 0xa7d3);
   (0xa7d5, 0xa7d9); (0xa7f5, 0xa7f6); (0xa7f8, 0xa7fa); (0xab30, 0xab5a);
   (0xab5c, 0xab68); (0xab70, 0xabbf); (0xfb00, 0xfb06); (0xfb13, 0xfb17);
   (0xff21, 0xff3a); (0xff41, 0xff5a); (0x10400, 0x1044f); (0x104b0, 0x104d3);
   (0x104d8, 0x104fb); (0x10570, 0x1057a); (0x1057c, 0x1058a);
   (0x1058c, 0x10592); (0x10594, 0x10595); (0x10597, 0x105a1);
   (0x105a3, 0x105b1); (0x105b3, 0x105b9); (0x105bb, 0x105bc);
   (0x10780, 0x10780); (0x10783, 0x10785); (0x10787, 0x107b0);
   (0x107b2, 0x107ba); (0x10c80, 0x10cb2); (0x10cc0, 0x10cf2);
   (0x118a0, 0x118df); (0x16e40, 0x16e7f); (0x1d400, 0x1d454);
   (0x1d456, 0x1d49c); (0x1d49e, 0x1d49f); (0x1d4a2, 0x1d4a2);
   (0x1d4a5, 0x1d4a6); (0x1d4a9, 0x1d4ac); (0x1d4ae, 0x1d4b9);
   (0x1d4bb, 0x1d4bb); (0x1d4bd, 0x1d4c3); (0x1d4c5, 0x1d505);
   (0x1d507, 0x1d50a); (0x1d50d, 0x1d514); (0x1d516, 0x1d51c);
   (0x1d51e, 0x1d539); (0x1d53b, 0x1d53e); (0x1d540, 0x1d544);
   (0x1d546, 0x1d546); (0x1d54a, 0x1d550); (0x1d552, 0x1d6a5);
   (0x1d6a8, 0x1d6c0); (0x1d6c2, 0x1d6da); (0x1d6dc, 0x1d6fa);
   (0x1d6fc, 0x1d714); (0x1d716, 0x1d734); (0x1d736, 0x1d74e);
   (0x1d750, 0x1d76e); (0x1d770, 0x1d788); (0x1d78a, 0x1d7a8);
   (0x1d7aa, 0x1d7c2); (0x1d7c4, 0x1d7cb); (0x1df00, 0x1df09);
   (0x1df0b, 0x1df1e); (0x1e900, 0x1e943); (0x1f130, 0x1f149);
   (0x1f150, 0x1f169); (0x1f170, 0x1f189)]%N.

(** The characters that the context of a final sigma skips *)
Definition case_ignorable : list (N * N) :=
  [(0x27, 0x27); (0x2e, 0x2e); (0x3a, 0x3a); (0x5e, 0x5e); (0x60, 0x60);
   (0xa8, 0xa8); (0xad, 0xad); (0xaf, 0xaf); (0xb4, 0xb4); (0xb7, 0xb8);
   (0x2b0, 0x36f); (0x374, 0x375); (0x37a, 0x37a); (0x384, 0x385);
   (0x387, 0x387); (0x483, 0x489); (0x559, 0x559); (0x55f, 0x55f);
   (0x591, 0x5bd); (0x5bf, 0x5bf); (0x5c1, 0x5c2); (0x5c4, 0x5c5);
   (0x5c7, 0x5c7); (0x5f4, 0x5f4); (0x600, 0x605); (0x610, 0x61a);
   (0x61c, 0x61c); (0x640, 0x640); (0x64b, 0x65f); (0x670, 0x670);
   (0x6d6, 0x6dd); (0x6df, 0x6e8); (0x6ea, 0x6ed); (0x70f, 0x70f);
   (0x711, 0x711); (0x730, 0x74a); (0x7a6, 0x7b0); (0x7eb, 0x7f5);
   (0x7fa, 0x7fa); (0x7fd, 0x7fd); (0x816, 0x82d); (0x859, 0x85b);
   (0x888, 0x888); (0x890, 0x891); (0x898, 0x89f); (0x8c9, 0x902);
   (0x93a, 0x93a); (0x93c, 0x93c); (0x941, 0x948); (0x94d, 0x94d);
   (0x951, 0x957); (0x962, 0x963); (0x971, 0x971); (0x981, 0x981);
   (0x9bc, 0x9bc); (0x9c1, 0x9c4); (0x9cd, 0x9cd); (0x9e2, 0x9e3);
   (0x9fe, 0x9fe); (0xa01, 0xa02); (0xa3c, 0xa3c); (0xa41, 0xa42);
   (0xa47, 0xa48); (0xa4b, 0xa4d); (0xa51, 0xa51); (0xa70, 0xa71);
   (0xa75, 0xa75); (0xa81, 0xa82); (0xabc, 0xabc); (0xac1, 0xac5);
   (0xac7, 0xac8); (0xacd, 0xacd); (0xae2, 0xae3); (0xafa, 0xaff);
   (0xb01, 0xb01); (0xb3c, 0xb3c); (0xb3f, 0xb3f); (0xb41, 0xb44);
   (0xb4d, 0xb4d); (0xb55, 0xb56); (0xb62, 0xb63); (0xb82, 0xb82);
   (0xbc0, 0xbc0); (0xbcd, 0xbcd); (0xc00, 0xc00); (0xc04, 0xc04);
   (0xc3c, 0xc3c); (0xc3e, 0xc40); (0xc46, 0xc48); (0xc4a, 0xc4d);
   (0xc55, 0xc56); (0xc62, 0xc63); (0xc81, 0xc81); (0xcbc, 0xcbc);
   (0xcbf, 0xcbf); (0xcc6, 0xcc6); (0xccc, 0xccd); (0xce2, 0xce3);
   (0xd00, 0xd01); (0xd3b, 0xd3c); (0xd41, 0xd44); (0xd4d, 0xd4d);
   (0xd62, 0xd63); (0xd81, 0xd81); (0xdca, 0xdca); (0xdd2, 0xdd4);
   (0xdd6, 0xdd6); (0xe31, 0xe31); (0xe34, 0xe3a); (0xe46, 0xe4e);
   (0xeb1, 0xeb1); (0xeb4, 0xebc); (0xec6, 0xec6); (0xec8, 0xecd);
   (0xf18, 0xf19); (0xf35, 0xf35); (0xf37, 0xf37); (0xf39, 0xf39);
   (0xf71, 0xf7e); (0xf80, 0xf84); (0xf86, 0xf87); (0xf8d, 0xf97);
   (0xf99, 0xfbc); (0xfc6, 0xfc6); (0x102d, 0x1030); (0x1032, 0x1037);
   (0x1039, 0x103a); (0x103d, 0x103e); (0x1058, 0x1059); (0x105e, 0x1060);
   (0x1071, 0x1074); (0x1082, 0x1082); (0x1085, 0x1086); (0x108d, 0x108d);
   (0x109d, 0x109d); (0x10fc, 0x10fc); (0x135d, 0x135f); (0x1712, 0x1714);
   (0x1732, 0x1733); (0x1752, 0x1753); (0x1772, 0x1773); (0x17b4, 0x17b5);
   (0x17b7, 0x17bd); (0x17c6, 0x17c6); (0x17c9, 0x17d3); (0x17d7, 0x17d7);
   (0x17dd, 0x17dd); (0x180b, 0x180f); (0x1843, 0x1843); (0x1885, 0x1886);
   (0x18a9, 0x18a9); (0x1920, 0x1922); (0x1927, 0x1928); (0x1932, 0x1932);
   (0x1939, 0x193b); (0x1a17, 0x1a18); (0x1a1b, 0x1a1b); (0x1a56, 0x1a56);
   (0x1a58, 0x1a5e); (0x1a60, 0x1a60); (0x1a62, 0x1a62); (0x1a65, 0x1a6c);
   (0x1a73, 0x1a7c); (0x1a7f, 0x1a7f); (0x1aa7, 0x1aa7); (0x1ab0, 0x1ace);
   (0x1b00, 0x1b03); (0x1b34, 0x1b34); (0x1b36, 0x1b3a); (0x1b3c, 0x1b3c);
   (0x1b42, 0x1b42); (0x1b6b, 0x1b73); (0x1b80, 0x1b81); (0x1ba2, 0x1ba5);
   (0x1ba8, 0x1ba9); (0x1bab, 0x1bad); (0x1be6, 0x1be6); (0x1be8, 0x1be9);
   (0x1bed, 0x1bed); (0x1bef, 0x1bf1); (0x1c2c, 0x1c33); (0x1c36, 0x1c37);
   (0x1c78, 0x1c7d); (0x1cd0, 0x1cd2); (0x1cd4, 0x1ce0); (0x1ce2, 0x1ce8);
   (0x1ced, 0x1ced); (0x1cf4, 0x1cf4); (0x1cf8, 0x1cf9); (0x1d2c, 0x1d6a);
   (0x1d78, 0x1d78); (0x1d9b, 0x1dff); (0x1fbd, 0x1fbd); (0x1fbf, 0x1fc1);
   (0x1fcd, 0x1fcf); (0x1fdd, 0x1fdf); (0x1fed, 0x1fef); (0x1ffd, 0x1ffe);
   (0x200b, 0x200f); (0x2018, 0x2019); (0x2024, 0x2024); (0x2027, 0x2027);
   (0x202a, 0x202e); (0x2060, 0x2064); (0x2066, 0x206f); (0x2071, 0x2071);
   (0x207f, 0x207f); (0x2090, 0x209c); (0x20d0, 0x20f0); (0x2c7c, 0x2c7d);
   (0x2cef, 0x2cf1); (0x2d6f, 0x2d6f); (0x2d7f, 0x2d7f); (0x2de0, 0x2dff);
   (0x2e2f, 0x2e2f); (0x3005, 0x3005); (0x302a, 0x302d); (0x3031, 0x3035);
   (0x303b, 0x303b); (0x3099, 0x309e); (0x30fc, 0x30fe); (0xa015, 0xa015);
   (0xa4f8, 0xa4fd); (0xa60c, 0xa60c); (0xa66f, 0xa672); (0xa674, 0xa67d);
   (0xa67f, 0xa67f); (0xa69c, 0xa69f); (0xa6f0, 0xa6f1); (0xa700, 0xa721);
   (0xa770, 0xa770); (0xa788, 0xa78a); (0xa7f2, 0xa7f4); (0xa7f8, 0xa7f9);
   (0xa802, 0xa802); (0xa806, 0xa806); (0xa80b, 0xa80b); (0xa825, 0xa826);
   (0xa82c, 0xa82c); (0xa8c4, 0xa8c5); (0xa8e0, 0xa8f1); (0xa8ff, 0xa8ff);
   (0xa926, 0xa92d); (0xa947, 0xa951); (0xa980, 0xa982); (0xa9b3, 0xa9b3);
   (0xa9b6, 0xa9b9); (0xa9bc, 0xa9bd); (0xa9cf, 0xa9cf); (0xa9e5, 0xa9e6);
   (0xaa29, 0xaa2e); (0xaa31, 0xaa32); (0xaa35, 0xaa36); (0xaa43, 0xaa43);
   (0xaa4c, 0xaa4c); (0xaa70, 0xaa70); (0xaa7c, 0xaa7c); (0xaab0, 0xaab0);
   (0xaab2, 0xaab4); (0xaab7, 0xaab8); (0xaabe, 0xaabf); (0xaac1, 0xaac1);
   (0xaadd, 0xaadd); (0xaaec, 0xaaed); (0xaaf3, 0xaaf4); (0xaaf6, 0xaaf6);
   (0xab5b, 0xab5f); (0xab69, 0xab6b); (0xabe5, 0xabe5); (0xabe8, 0xabe8);
   (0xabed, 0xabed); (0xfb1e, 0xfb1e); (0xfbb2, 0xfbc2); (0xfe00, 0xfe0f);
   (0xfe13, 0xfe13); (0xfe20, 0xfe2f); (0xfe52, 0xfe52); (0xfe55, 0xfe55);
   (0xfeff, 0xfeff); (0xff07, 0xff07); (0xff0e, 0xff0e); (0xff1a, 0xff1a);
   (0xff3e, 0xff3e); (0xff40, 0xff40); (0xff70, 0xff70); (0xff9e, 0xff9f);
   (0xffe3, 0xffe3); (0xfff9, 0xfffb); (0x101fd, 0x101fd); (0x102e0, 0x102e0);
   (0x10376, 0x1037a); (0x10780, 0x10785); (0x10787, 0x107b0);
   (0x107b2, 0x107ba); (0x10a01, 0x10a03); (0x10a05, 0x10a06);
   (0x10a0c, 0x10a0f); (0x10a38, 0x10a3a); (0x10a3f, 0x10a3f);
   (0x10ae5, 0x10ae6); (0x10d24, 0x10d27); (0x10eab, 0x10eac);
   (0x10f46, 0x10f50); (0x10f82, 0x10f85); (0x11001, 0x11001);
   (0x11038, 0x11046); (0x11070, 0x11070); (0x11073, 0x11074);
   (0x1107f, 0x11081); (0x110b3, 0x110b6); (0x110b9, 0x110ba);
   (0x110bd, 0x110bd); (0x110c2, 0x110c2); (0x110cd, 0x110cd);
   (0x11100, 0x11102); (0x11127, 0x1112b); (0x1112d, 0x11134);
   (0x11173, 0x11173); (0x11180, 0x11181); (0x111b6, 0x111be);
   (0x111c9, 0x111cc); (0x111cf, 0x111cf); (0x1122f, 0x11231);
   (0x11234, 0x11234); (0x11236, 0x11237); (0x1123e, 0x1123e);
   (0x112df, 0x112df); (0x112e3, 0x112ea); (0x11300, 0x11301);
   (0x1133b, 0x1133c); (0x11340, 0x11340); (0x11366, 0x1136c);
   (0x11370, 0x11374); (0x11438, 0x1143f); (0x11442, 0x11444);
   (0x11446, 0x11446); (0x1145e, 0x1145e); (0x114b3, 0x114b8);
   (0x114ba, 0x114ba); (0x114bf, 0x114c0); (0x114c2, 0x114c3);
   (0x115b2, 0x115b5); (0x115bc, 0x115bd); (0x115bf, 0x115c0);
   (0x115dc, 0x115dd); (0x11633, 0x1163a); (0x1163d, 0x1163d);
   (0x1163f, 0x11640); (0x116ab, 0x116ab); (0x116ad, 0x116ad);
   (0x116b0, 0x116b5); (0x116b7, 0x116b7); (0x1171d, 0x1171f);
   (0x11722, 0x11725); (0x11727, 0x1172b); (0x1182f, 0x11837);
   (0x11839, 0x1183a); (0x1193b, 0x1193c); (0x1193e, 0x1193e);
   (0x11943, 0x11943); (0x119d4, 0x119d7); (0x119da, 0x119db);
   (0x119e0, 0x119e0); (0x11a01, 0x11a0a); (0x11a33, 0x11a38);
   (0x11a3b, 0x11a3e); (0x11a47, 0x11a47); (0x11a51, 0x11a56);
   (0x11a59, 0x11a5b); (0x11a8a, 0x11a96); (0x11a98, 0x11a99);
   (0x11c30, 0x11c36); (0x11c38, 0x11c3d); (0x11c3f, 0x11c3f);
   (0x11c92, 0x11ca7); (0x11caa, 0x11cb0); (0x11cb2, 0x11cb3);
   (0x11cb5, 0x11cb6); (0x11d31, 0x11d36); (0x11d3a, 0x11d3a);
   (0x11d3c, 0x11d3d); (0x11d3f, 0x11d45); (0x11d47, 0x11d47);
   (0x11d90, 0x11d91); (0x11d95, 0x11d95); (0x11d97, 0x11d97);
   (0x11ef3, 0x11ef4); (0x13430, 0x13438); (0x16af0, 0x16af4);
   (0x16b30, 0x16b36); (0x16b40, 0x16b43); (0x16f4f, 0x16f4f);
   (0x16f8f, 0x16f9f); (0x16fe0, 0x16fe1); (0x16fe3, 0x16fe4);
   (0x1aff0, 0x1aff3); (0x1aff5, 0x1affb); (0x1affd, 0x1affe);
   (0x1bc9d, 0x1bc9e); (0x1bca0, 0x1bca3); (0x1cf00, 0x1cf2d);
   (0x1cf30, 0x1cf46); (0x1d167, 0x1d169); (0x1d173, 0x1d182);
   (0x1d185, 0x1d18b); (0x1d1aa, 0x1d1ad); (0x1d242, 0x1d244);
   (0x1da00, 0x1da36); (0x1da3b, 0x1da6c); (0x1da75, 0x1da75);
   (0x1da84, 0x1da84); (0x1da9b, 0x1da9f); (0x1daa1, 0x1daaf);
   (0x1e000, 0x1e006); (0x1e008, 0x1e018); (0x1e01b, 0x1e021);
   (0x1e023, 0x1e024); (0x1e026, 0x1e02a); (0x1e130, 0x1e13d);
   (0x1e2ae, 0x1e2ae); (0x1e2ec, 0x1e2ef); (0x1e8d0, 0x1e8d6);
   (0x1e944, 0x1e94b); (0x1f3fb, 0x1f3ff); (0xe0001, 0xe0001);
   (0xe0020, 0xe007f); (0xe0100, 0xe01ef)]%N.

(** The characters that [str.lower] changes into one other character,
    each with that character *)
Definition lowercase : list (N * N) :=
  [(0x41, 0x61); (0x42, 0x62); (0x43, 0x63); (0x44, 0x64); (0x45, 0x65);
   (0x46, 0x66); (0x47, 0x67); (0x48, 0x68); (0x49, 0x69); (0x4a, 0x6a);
   (0x4b, 0x6b); (0x4c, 0x6c); (0x4d, 0x6d); (0x4e, 0x6e); (0x4f, 0x6f);
   (0x50, 0x70); (0x51, 0x71); (0x52, 0x72); (0x53, 0x73); (0x54, 0x74);
   (0x55, 0x75); (0x56, 0x76); (0x57, 0x77); (0x58, 0x78); (0x59, 0x79);
   (0x5a, 0x7a); (0xc0, 0xe0); (0xc1, 0xe1); (0xc2, 0xe2); (0xc3, 0xe3);
   (0xc4, 0xe4); (0xc5, 0xe5); (0xc6, 0xe6); (0xc7, 0xe7); (0xc8, 0xe8);
   (0xc9, 0xe9); (0xca, 0xea); (0xcb, 0xeb); (0xcc, 0xec); (0xcd, 0xed);
   (0xce, 0xee); (0xcf, 0xef); (0xd0, 0xf0); (0xd1, 0xf1); (0xd2, 0xf2);
   (0xd3, 0xf3); (0xd4, 0xf4); (0xd5, 0xf5); (0xd6, 0xf6); (0xd8, 0xf8);
   (0xd9, 0xf9); (0xda, 0xfa); (0xdb, 0xfb); (0xdc, 0xfc); (0xdd, 0xfd);
   (0xde, 0xfe); (0x100, 0x101); (0x102, 0x103); (0x104, 0x105);
   (0x106, 0x107); (0x108, 0x109); (0x10a, 0x10b); (0x10c, 0x10d);
   (0x10e, 0x10f); (0x110, 0x111); (0x112, 0x113); (0x114, 0x115);
   (0x116, 0x117); (0x118, 0x119); (0x11a, 0x11b); (0x11c, 0x11d);
   (0x11e, 0x11f); (0x120, 0x121); (0x122, 0x123); (0x124, 0x125);
   (0x126, 0x127); (0x128, 0x129); (0x12a, 0x12b); (0x12c, 0x12d);
   (0x12e, 0x12f); (0x132, 0x133); (0x134, 0x135); (0x136, 0x137);
   (0x139, 0x13a); (0x13b, 0x13c); (0x13d, 0x13e); (0x13f, 0x140);
   (0x141, 0x142); (0x143, 0x144); (0x145, 0x146); (0x147, 0x148);
   (0x14a, 0x14b); (0x14c, 0x14d); (0x14e, 0x14f); (0x150, 0x151);
   (0x152, 0x153); (0x154, 0x155); (0x156, 0x157); (0x158, 0x159);
   (0x15a, 0x15b); (0x15c, 0x15d); (0x15e, 0x15f); (0x160, 0x161);
   (0x162, 0x163); (0x164, 0x165); (0x166, 0x167); (0x168, 0x169);
   (0x16a, 0x16b); (0x16c, 0x16d); (0x16e, 0x16f); (0x170, 0x171);
   (0x172, 0x173); (0x174, 0x175); (0x176, 0x177); (0x178, 0xff);
   (0x179, 0x17a); (0x17b, 0x17c); (0x17d, 0x17e); (0x181, 0x253);
   (0x182, 0x183); (0x184, 0x185); (0x186, 0x254); (0x187, 0x188);
   (0x189, 0x256); (0x18a, 0x257); (0x18b, 0x18c); (0x18e, 0x1dd);
   (0x18f, 0x259); (0x190, 0x25b); (0x191, 0x192); (0x193, 0x260);
   (0x194, 0x263); (0x196, 0x269); (0x197, 0x268); (0x198, 0x199);
   (0x19c, 0x26f); (0x19d, 0x272); (0x19f, 0x275); (0x1a0, 0x1a1);
   (0x1a2, 0x1a3); (0x1a4, 0x1a5); (0x1a6, 0x280); (0x1a7, 0x1a8);
   (0x1a9, 0x283); (0x1ac, 0x1ad); (0x1ae, 0x288); (0x1af, 0x1b0);
   (0x1b1, 0x28a); (0x1b2, 0x28b); (0x1b3, 0x1b4); (0x1b5, 0x1b6);
   (0x1b7, 0x292); (0x1b8, 0x1b9); (0x1bc, 0x1bd); (0x1c4, 0x1c6);
   (0x1c5, 0x1c6); (0x1c7, 0x1c9); (0x1c8, 0x1c9); (0x1ca, 0x1cc);
   (0x1cb, 0x1cc); (0x1cd, 0x1ce); (0x1cf, 0x1d0); (0x1d1, 0x1d2);
   (0x1d3, 0x1d4); (0x1d5, 0x1d6); (0x1d7, 0x1d8); (0x1d9, 0x1da);
   (0x1db, 0x1dc); (0x1de, 0x1df); (0x1e0, 0x1e1); (0x1e2, 0x1e3);
   (0x1e4, 0x1e5); (0x1e6, 0x1e7); (0x1e8, 0x1e9); (0x1ea, 0x1eb);
   (0x1ec, 0x1ed); (0x1ee, 0x1ef); (0x1f1, 0x1f3); (0x1f2, 0x1f3);
   (0x1f4, 0x1f5); (0x1f6, 0x195); (0x1f7, 0x1bf); (0x1f8, 0x1f9);
   (0x1fa, 0x1fb); (0x1fc, 0x1fd); (0x1fe, 0x1ff); (0x200, 0x201);
   (0x202, 0x203); (0x204, 0x205); (0x206, 0x207); (0x208, 0x209);
   (0x20a, 0x20b); (0x20c, 0x20d); (0x20e, 0x20f); (0x210, 0x211);
   (0x212, 0x213); (0x214, 0x215); (0x216, 0x217); (0x218, 0x219);
   (0x21a, 0x21b); (0x21c, 0x21d); (0x21e, 0x21f); (0x220, 0x19e);
   (0x222, 0x223); (0x224, 0x225); (0x226, 0x227); (0x228, 0x229);
   (0x22a, 0x22b); (0x22c, 0x22d); (0x22e, 0x22f); (0x230, 0x231);
   (0x232, 0x233); (0x23a, 0x2c65); (0x23b, 0x23c); (0x23d, 0x19a);
   (0x23e, 0x2c66); (0x241, 0x242); (0x243, 0x180); (0x244, 0x289);
   (0x245, 0x28c); (0x246, 0x247); (0x248, 0x249); (0x24a, 0x24b);
   (0x24c, 0x24d); (0x24e, 0x24f); (0x370, 0x371); (0x372, 0x373);
   (0x376, 0x377); (0x37f, 0x3f3); (0x386, 0x3ac); (0x388, 0x3ad);
   (0x389, 0x3ae); (0x38a, 0x3af); (0x38c, 0x3cc); (0x38e, 0x3cd);
   (0x38f, 0x3ce); (0x391, 0x3b1); (0x392, 0x3b2); (0x393, 0x3b3);
   (0x394, 0x3b4); (0x395, 0x3b5); (0x396, 0x3b6); (0x397, 0x3b7);
   (0x398, 0x3b8); (0x399, 0x3b9); (0x39a, 0x3ba); (0x39b, 0x3bb);
   (0x39c, 0x3bc); (0x39d, 0x3bd); (0x39e, 0x3be); (0x39f, 0x3bf);
   (0x3a0, 0x3c0); (0x3a1, 0x3c1); (0x3a3, 0x3c3); (0x3a4, 0x3c4);
   (0x3a5, 0x3c5); (0x3a6, 0x3c6); (0x3a7, 0x3c7); (0x3a8, 0x3c8);
   (0x3a9, 0x3c9); (0x3aa, 0x3ca); (0x3ab, 0x3cb); (0x3cf, 0x3d7);
   (0x3d8, 0x3d9); (0x3da, 0x3db); (0x3dc, 0x3dd); (0x3de, 0x3df);
   (0x3e0, 0x3e1); (0x3e2, 0x3e3); (0x3e4, 0x3e5); (0x3e6, 0x3e7);
   (0x3e8, 0x3e9); (0x3ea, 0x3eb); (0x3ec, 0x3ed); (0x3ee, 0x3ef);
   (0x3f4, 0x3b8); (0x3f7, 0x3f8); (0x3f9, 0x3f2); (0x3fa, 0x3fb);
   (0x3fd, 0x37b); (0x3fe, 0x37c); (0x3ff, 0x37d); (0x400, 0x450);
   (0x401, 0x451); (0x402, 0x452); (0x403, 0x453); (0x404, 0x454);
   (0x405, 0x455); (0x406, 0x456); (0x407, 0x457); (0x408, 0x458);
   (0x409, 0x459); (0x40a, 0x45a); (0x40b, 0x45b); (0x40c, 0x45c);
   (0x40d, 0x45d); (0x40e, 0x45e); (0x40f, 0x45f); (0x410, 0x430);
   (0x411, 0x431); (0x412, 0x432); (0x413, 0x433); (0x414, 0x434);
   (0x415, 0x435); (0x416, 0x436); (0x417, 0x437); (0x418, 0x438);
   (0x419, 0x439); (0x41a, 0x43a); (0x41b, 0x43b); (0x41c, 0x43c);
   (0x41d, 0x43d); (0x41e, 0x43e); (0x41f, 0x43f); (0x420, 0x440);
   (0x421, 0x441); (0x422, 0x442); (0x423, 0x443); (0x424, 0x444);
   (0x425, 0x445); (0x426, 0x446); (0x427, 0x447); (0x428, 0x448);
   (0x429, 0x449); (0x42a, 0x44a); (0x42b, 0x44b); (0x42c, 0x44c);
   (0x42d, 0x44d); (0x42e, 0x44e); (0x42f, 0x44f); (0x460, 0x461);
   (0x462, 0x463); (0x464, 0x465); (0x466, 0x467); (0x468, 0x469);
   (0x46a, 0x46b); (0x46c, 0x46d); (0x46e, 0x46f); (0x470, 0x471);
   (0x472, 0x473); (0x474, 0x475); (0x476, 0x477); (0x478, 0x479);
   (0x47a, 0x47b); (0x47c, 0x47d); (0x47e, 0x47f); (0x480, 0x481);
   (0x48a, 0x48b); (0x48c, 0x48d); (0x48e, 0x48f); (0x490, 0x491);
   (0x492, 0x493); (0x494, 0x495); (0x496, 0x497); (0x498, 0x499);
   (0x49a, 0x49b); (0x49c, 0x49d); (0x49e, 0x49f); (0x4a0, 0x4a1);
   (0x4a2, 0x4a3); (0x4a4, 0x4a5); (0x4a6, 0x4a7); (0x4a8, 0x4a9);
   (0x4aa, 0x4ab); (0x4ac, 0x4ad); (0x4ae, 0x4af); (0x4b0, 0x4b1);
   (0x4b2, 0x4b3); (0x4b4, 0x4b5); (0x4b6, 0x4b7); (0x4b8, 0x4b9);
   (0x4ba, 0x4bb); (0x4bc, 0x4bd); (0x4be, 0x4bf); (0x4c0, 0x4cf);
   (0x4c1, 0x4c2); (0x4c3, 0x4c4); (0x4c5, 0x4c6); (0x4c7, 0x4c8);
   (0x4c9, 0x4ca); (0x4cb, 0x4cc); (0x4cd, 0x4ce); (0x4d0, 0x4d1);
   (0x4d2, 0x4d3); (0x4d4, 0x4d5); (0x4d6, 0x4d7); (0x4d8, 0x4d9);
   (0x4da, 0x4db); (0x4dc, 0x4dd); (0x4de, 0x4df); (0x4e0, 0x4e1);
   (0x4e2, 0x4e3); (0x4e4, 0x4e5); (0x4e6, 0x4e7); (0x4e8, 0x4e9);
   (0x4ea, 0x4eb); (0x4ec, 0x4ed); (0x4ee, 0x4ef); (0x4f0, 0x4f1);
   (0x4f2, 0x4f3); (0x4f4, 0x4f5); (0x4f6, 0x4f7); (0x4f8, 0x4f9);
   (0x4fa, 0x4fb); (0x4fc, 0x4fd); (0x4fe, 0x4ff); (0x500, 0x501);
   (0x502, 0x503); (0x504, 0x505); (0x506, 0x507); (0x508, 0x509);
   (0x50a, 0x50b); (0x50c, 0x50d); (0x50e, 0x50f); (0x510, 0x511);
   (0x512, 0x513); (0x514, 0x515); (0x516, 0x517); (0x518, 0x519);
   (0x51a, 0x51b); (0x51c, 0x51d); (0x51e, 0x51f); (0x520, 0x521);
   (0x522, 0x523); (0x524, 0x525); (0x526, 0x527); (0x528, 0x529);
   (0x52a, 0x52b); (0x52c, 0x52d); (0x52e, 0x52f); (0x531, 0x561);
   (0x532, 0x562); (0x533, 0x563); (0x534, 0x564); (0x535, 0x565);
   (0x536, 0x566); (0x537, 0x567); (0x538, 0x568); (0x539, 0x569);
   (0x53a, 0x56a); (0x53b, 0x56b); (0x53c, 0x56c); (0x53d, 0x56d);
   (0x53e, 0x56e); (0x53f, 0x56f); (0x540, 0x570); (0x541, 0x571);
   (0x542, 0x572); (0x543, 0x573); (0x544, 0x574); (0x545, 0x575);
   (0x546, 0x576); (0x547, 0x577); (0x548, 0x578); (0x549, 0x579);
   (0x54a, 0x57a); (0x54b, 0x57b); (0x54c, 0x57c); (0x54d, 0x57d);
   (0x54e, 0x57e); (0x54f, 0x57f); (0x550, 0x580); (0x551, 0x581);
   (0x552, 0x582); (0x553, 0x583); (0x554, 0x584); (0x555, 0x585);
   (0x556, 0x586); (0x10a0, 0x2d00); (0x10a1, 0x2d01); (0x10a2, 0x2d02);
   (0x10a3, 0x2d03); (0x10a4, 0x2d04); (0x10a5, 0x2d05); (0x10a6, 0x2d06);
   (0x10a7, 0x2d07); (0x10a8, 0x2d08); (0x10a9, 0x2d09); (0x10aa, 0x2d0a);
   (0x10ab, 0x2d0b); (0x10ac, 0x2d0c); (0x10ad, 0x2d0d); (0x10ae, 0x2d0e);
   (0x10af, 0x2d0f); (0x10b0, 0x2d10); (0x10b1, 0x2d11); (0x10b2, 0x2d12);
   (0x10b3, 0x2d13); (0x10b4, 0x2d14); (0x10b5, 0x2d15); (0x10b6, 0x2d16);
   (0x10b7, 0x2d17); (0x10b8, 0x2d18); (0x10b9, 0x2d19); (0x10ba, 0x2d1a);
   (0x10bb, 0x2d1b); (0x10bc, 0x2d1c); (0x10bd, 0x2d1d); (0x10be, 0x2d1e);
   (0x10bf, 0x2d1f); (0x10c0, 0x2d20); (0x10c1, 0x2d21); (0x10c2, 0x2d22);
   (0x10c3, 0x2d23); (0x10c4, 0x2d24); (0x10c5, 0x2d25); (0x10c7, 0x2d27);
   (0x10cd, 0x2d2d); (0x13a0, 0xab70); (0x13a1, 0xab71); (0x13a2, 0xab72);
   (0x13a3, 0xab73); (0x13a4, 0xab74); (0x13a5, 0xab75); (0x13a6, 0xab76);
   (0x13a7, 0xab77); (0x13a8, 0xab78); (0x13a9, 0xab79); (0x13aa, 0xab7a);
   (0x13ab, 0xab7b); (0x13ac, 0xab7c); (0x13ad, 0xab7d); (0x13ae, 0xab7e);
   (0x13af, 0xab7f); (0x13b0, 0xab80); (0x13b1, 0xab81); (0x13b2, 0xab82);
   (0x13b3, 0xab83); (0x13b4, 0xab84); (0x13b5, 0xab85); (0x13b6, 0xab86);
   (0x13b7, 0xab87); (0x13b8, 0xab88); (0x13b9, 0xab89); (0x13ba, 0xab8a);
   (0x13bb, 0xab8b); (0x13bc, 0xab8c); (0x13bd, 0xab8d); (0x13be, 0xab8e);
   (0x13bf, 0xab8f); (0x13c0, 0xab90); (0x13c1, 0xab91); (0x13c2, 0xab92);
   (0x13c3, 0xab93); (0x13c4, 0xab94); (0x13c5, 0xab95); (0x13c6, 0xab96);
   (0x13c7, 0xab97); (0x13c8, 0xab98); (0x13c9, 0xab99); (0x13ca, 0xab9a);
   (0x13cb, 0xab9b); (0x13cc, 0xab9c); (0x13cd, 0xab9d); (0x13ce, 0xab9e);
   (0x13cf, 0xab9f); (0x13d0, 0xaba0); (0x13d1, 0xaba1); (0x13d2, 0xaba2);
   (0x13d3, 0xaba3); (0x13d4, 0xaba4); (0x13d5, 0xaba5); (0x13d6, 0xaba6);
   (0x13d7, 0xaba7); (0x13d8, 0xaba8); (0x13d9, 0xaba9); (0x13da, 0xabaa);
   (0x13db, 0xabab); (0x13dc, 0xabac); (0x13dd, 0xabad); (0x13de, 0xabae);
   (0x13df, 0xabaf); (0x13e0, 0xabb0); (0x13e1, 0xabb1); (0x13e2, 0xabb2);
   (0x13e3, 0xabb3); (0x13e4, 0xabb4); (0x13e5, 0xabb5); (0x13e6, 0xabb6);
   (0x13e7, 0xabb7); (0x13e8, 0xabb8); (0x13e9, 0xabb9); (0x13ea, 0xabba);
   (0x13eb, 0xabbb); (0x13ec, 0xabbc); (0x13ed, 0xabbd); (0x13ee, 0xabbe);
   (0x13ef, 0xabbf); (0x13f0, 0x13f8); (0x13f1, 0x13f9); (0x13f2, 0x13fa);
   (0x13f3, 0x13fb); (0x13f4, 0x13fc); (0x13f5, 0x13fd); (0x1c90, 0x10d0);
   (0x1c91, 0x10d1); (0x1c92, 0x10d2); (0x1c93, 0x10d3); (0x1c94, 0x10d4);
   (0x1c95, 0x10d5); (0x1c96, 0x10d6); (0x1c97, 0x10d7); (0x1c98, 0x10d8);
   (0x1c99, 0x10d9); (0x1c9a, 0x10da); (0x1c9b, 0x10db); (0x1c9c, 0x10dc);
   (0x1c9d, 0x10dd); (0x1c9e, 0x10de); (0x1c9f, 0x10df); (0x1ca0, 0x10e0);
   (0x1ca1, 0x10e1); (0x1ca2, 0x10e2); (0x1ca3, 0x10e3); (0x1ca4, 0x10e4);
   (0x1ca5, 0x10e5); (0x1ca6, 0x10e6); (0x1ca7, 0x10e7); (0x1ca8, 0x10e8);
   (0x1ca9, 0x10e9); (0x1caa, 0x10ea); (0x1cab, 0x10eb); (0x1cac, 0x10ec);
   (0x1cad, 0x10ed); (0x1cae, 0x10ee); (0x1caf, 0x10ef); (0x1cb0, 0x10f0);
   (0x1cb1, 0x10f1); (0x1cb2, 0x10f2); (0x1cb3, 0x10f3); (0x1cb4, 0x10f4);
   (0x1cb5, 0x10f5); (0x1cb6, 0x10f6); (0x1cb7, 0x10f7); (0x1cb8, 0x10f8);
   (0x1cb9, 0x10f9); (0x1cba, 0x10fa); (0x1cbd, 0x10fd); (0x1cbe, 0x10fe);
   (0x1cbf, 0x10ff); (0x1e00, 0x1e01); (0x1e02, 0x1e03); (0x1e04, 0x1e05);
   (0x1e06, 0x1e07); (0x1e08, 0x1e09); (0x1e0a, 0x1e0b); (0x1e0c, 0x1e0d);
   (0x1e0e, 0x1e0f); (0x1e10, 0x1e11); (0x1e12, 0x1e13); (0x1e14, 0x1e15);
   (0x1e16, 0x1e17); (0x1e18, 0x1e19); (0x1e1a, 0x1e1b); (0x1e1c, 0x1e1d);
   (0x1e1e, 0x1e1f); (0x1e20, 0x1e21); (0x1e22, 0x1e23); (0x1e24, 0x1e25);
   (0x1e26, 0x1e27); (0x1e28, 0x1e29); (0x1e2a, 0x1e2b); (0x1e2c, 0x1e2d);
   (0x1e2e, 0x1e2f); (0x1e30, 0x1e31); (0x1e32, 0x1e33); (0x1e34, 0x1e35);
   (0x1e36, 0x1e37); (0x1e38, 0x1e39); (0x1e3a, 0x1e3b); (0x1e3c, 0x1e3d);
   (0x1e3e, 0x1e3f); (0x1e40, 0x1e41); (0x1e42, 0x1e43); (0x1e44, 0x1e45);
   (0x1e46, 0x1e47); (0x1e48, 0x1e49); (0x1e4a, 0x1e4b); (0x1e4c, 0x1e4d);
   (0x1e4e, 0x1e4f); (0x1e50, 0x1e51); (0x1e52, 0x1e53); (0x1e54, 0x1e55);
   (0x1e56, 0x1e57); (0x1e58, 0x1e59); (0x1e5a, 0x1e5b); (0x1e5c, 0x1e5d);
   (0x1e5e, 0x1e5f); (0x1e60, 0x1e61); (0x1e62, 0x1e63); (0x1e64, 0x1e65);
   (0x1e66, 0x1e67); (0x1e68, 0x1e69); (0x1e6a, 0x1e6b); (0x1e6c, 0x1e6d);
   (0x1e6e, 0x1e6f); (0x1e70, 0x1e71); (0x1e72, 0x1e73); (0x1e74, 0x1e75);
   (0x1e76, 0x1e77); (0x1e78, 0x1e79); (0x1e7a, 0x1e7b); (0x1e7c, 0x1e7d);
   (0x1e7e, 0x1e7f); (0x1e80, 0x1e81); (0x1e82, 0x1e83); (0x1e84, 0x1e85);
   (0x1e86, 0x1e87); (0x1e88, 0x1e89); (0x1e8a, 0x1e8b); (0x1e8c, 0x1e8d);
   (0x1e8e, 0x1e8f); (0x1e90, 0x1e91); (0x1e92, 0x1e93); (0x1e94, 0x1e95);
   (0x1e9e, 0xdf); (0x1ea0, 0x1ea1); (0x1ea2, 0x1ea3); (0x1ea4, 0x1ea5);
   (0x1ea6, 0x1ea7); (0x1ea8, 0x1ea9); (0x1eaa, 0x1eab); (0x1eac, 0x1ead);
   (0x1eae, 0x1eaf); (0x1eb0, 0x1eb1); (0x1eb2, 0x1eb3); (0x1eb4, 0x1eb5);
   (0x1eb6, 0x1eb7); (0x1eb8, 0x1eb9); (0x1eba, 0x1ebb); (0x1ebc, 0x1ebd);
   (0x1ebe, 0x1ebf); (0x1ec0, 0x1ec1); (0x1ec2, 0x1ec3); (0x1ec4, 0x1ec5);
   (0x1ec6, 0x1ec7); (0x1ec8, 0x1ec9); (0x1eca, 0x1ecb); (0x1ecc, 0x1ecd);
   (0x1ece, 0x1ecf); (0x1ed0, 0x1ed1); (0x1ed2, 0x1ed3); (0x1ed4, 0x1ed5);
   (0x1ed6, 0x1ed7); (0x1ed8, 0x1ed9); (0x1eda, 0x1edb); (0x1edc, 0x1edd);
   (0x1ede, 0x1edf); (0x1ee0, 0x1ee1); (0x1ee2, 0x1ee3); (0x1ee4, 0x1ee5);
   (0x1ee6, 0x1ee7); (0x1ee8, 0x1ee9); (0x1eea, 0x1eeb); (0x1eec, 0x1eed);
   (0x1eee, 0x1eef); (0x1ef0, 0x1ef1); (0x1ef2, 0x1ef3); (0x1ef4, 0x1ef5);
   (0x1ef6, 0x1ef7); (0x1ef8, 0x1ef9); (0x1efa, 0x1efb); (0x1efc, 0x1efd);
   (0x1efe, 0x1eff); (0x1f08, 0x1f00); (0x1f09, 0x1f01); (0x1f0a, 0x1f02);
   (0x1f0b, 0x1f03); (0x1f0c, 0x1f04); (0x1f0d, 0x1f05); (0x1f0e, 0x1f06);
   (0x1f0f, 0x1f07); (0x1f18, 0x1f10); (0x1f19, 0x1f11); (0x1f1a, 0x1f12);
   (0x1f1b, 0x1f13); (0x1f1c, 0x1f14); (0x1f1d, 0x1f15); (0x1f28, 0x1f20);
   (0x1f29, 0x1f21); (0x1f2a, 0x1f22); (0x1f2b, 0x1f23); (0x1f2c, 0x1f24);
   (0x1f2d, 0x1f25); (0x1f2e, 0x1f26); (0x1f2f, 0x1f27); (0x1f38, 0x1f30);
   (0x1f39, 0x1f31); (0x1f3a, 0x1f32); (0x1f3b, 0x1f33); (0x1f3c, 0x1f34);
   (0x1f3d, 0x1f35); (0x1f3e, 0x1f36); (0x1f3f, 0x1f37); (0x1f48, 0x1f40);
   (0x1f49, 0x1f41); (0x1f4a, 0x1f42); (0x1f4b, 0x1f43); (0x1f4c, 0x1f44);
   (0x1f4d, 0x1f45); (0x1f59, 0x1f51); (0x1f5b, 0x1f53); (0x1f5d, 0x1f55);
   (0x1f5f, 0x1f57); (0x1f68, 0x1f60); (0x1f69, 0x1f61); (0x1f6a, 0x1f62);
   (0x1f6b, 0x1f63); (0x1f6c, 0x1f64); (0x1f6d, 0x1f65); (0x1f6e, 0x1f66);
   (0x1f6f, 0x1f67); (0x1f88, 0x1f80); (0x1f89, 0x1f81); (0x1f8a, 0x1f82);
   (0x1f8b, 0x1f83); (0x1f8c, 0x1f84); (0x1f8d, 0x1f85); (0x1f8e, 0x1f86);
   (0x1f8f, 0x1f87); (0x1f98, 0x1f90); (0x1f99, 0x1f91); (0x1f9a, 0x1f92);
   (0x1f9b, 0x1f93); (0x1f9c, 0x1f94); (0x1f9d, 0x1f95); (0x1f9e, 0x1f96);
   (0x1f9f, 0x1f97); (0x1fa8, 0x1fa0); (0x1fa9, 0x1fa1); (0x1faa, 0x1fa2);
   (0x1fab, 0x1fa3); (0x1fac, 0x1fa4); (0x1fad, 0x1fa5); (0x1fae, 0x1fa6);
   (0x1faf, 0x1fa7); (0x1fb8, 0x1fb0); (0x1fb9, 0x1fb1); (0x1fba, 0x1f70);
   (0x1fbb, 0x1f71); (0x1fbc, 0x1fb3); (0x1fc8, 0x1f72); (0x1fc9, 0x1f73);
   (0x1fca, 0x1f74); (0x1fcb, 0x1f75); (0x1fcc, 0x1fc3); (0x1fd8, 0x1fd0);
   (0x1fd9, 0x1fd1); (0x1fda, 0x1f76); (0x1fdb, 0x1f77); (0x1fe8, 0x1fe0);
   (0x1fe9, 0x1fe1); (0x1fea, 0x1f7a); (0x1feb, 0x1f7b); (0x1fec, 0x1fe5);
   (0x1ff8, 0x1f78); (0x1ff9, 0x1f79); (0x1ffa, 0x1f7c); (0x1ffb, 0x1f7d);
   (0x1ffc, 0x1ff3); (0x2126, 0x3c9); (0x212a, 0x6b); (0x212b, 0xe5);
   (0x2132, 0x214e); (0x2160, 0x2170); (0x2161, 0x2171); (0x2162, 0x2172);
   (0x2163, 0x2173); (0x2164, 0x2174); (0x2165, 0x2175); (0x2166, 0x2176);
   (0x2167, 0x2177); (0x2168, 0x2178); (0x2169, 0x2179); (0x216a, 0x217a);
   (0x216b, 0x217b); (0x216c, 0x217c); (0x216d, 0x217d); (0x216e, 0x217e);
   (0x216f, 0x217f); (0x2183, 0x2184); (0x24b6, 0x24d0); (0x24b7, 0x24d1);
   (0x24b8, 0x24d2); (0x24b9, 0x24d3); (0x24ba, 0x24d4); (0x24bb, 0x24d5);
   (0x24bc, 0x24d6); (0x24bd, 0x24d7); (0x24be, 0x24d8); (0x24bf, 0x24d9);
   (0x24c0, 0x24da); (0x24c1, 0x24db); (0x24c2, 0x24dc); (0x24c3, 0x24dd);
   (0x24c4, 0x24de); (0x24c5, 0x24df); (0x24c6, 0x24e0); (0x24c7, 0x24e1);
   (0x24c8, 0x24e2); (0x24c9, 0x24e3); (0x24ca, 0x24e4); (0x24cb, 0x24e5);
   (0x24cc, 0x24e6); (0x24cd, 0x24e7); (0x24ce, 0x24e8); (0x24cf, 0x24e9);
   (0x2c00, 0x2c30); (0x2c01, 0x2c31); (0x2c02, 0x2c32); (0x2c03, 0x2c33);
   (0x2c04, 0x2c34); (0x2c05, 0x2c35); (0x2c06, 0x2c36); (0x2c07, 0x2c37);
   (0x2c08, 0x2c38); (0x2c09, 0x2c39); (0x2c0a, 0x2c3a); (0x2c0b, 0x2c3b);
   (0x2c0c, 0x2c3c); (0x2c0d, 0x2c3d); (0x2c0e, 0x2c3e); (0x2c0f, 0x2c3f);
   (0x2c10, 0x2c40); (0x2c11, 0x2c41); (0x2c12, 0x2c42); (0x2c13, 0x2c43);
   (0x2c14, 0x2c44); (0x2c15, 0x2c45); (0x2c16, 0x2c46); (0x2c17, 0x2c47);
   (0x2c18, 0x2c48); (0x2c19, 0x2c49); (0x2c1a, 0x2c4a); (0x2c1b, 0x2c4b);
   (0x2c1c, 0x2c4c); (0x2c1d, 0x2c4d); (0x2c1e, 0x2c4e); (0x2c1f, 0x2c4f);
   (0x2c20, 0x2c50); (0x2c21, 0x2c51); (0x2c22, 0x2c52); (0x2c23, 0x2c53);
   (0x2c24, 0x2c54); (0x2c25, 0x2c55); (0x2c26, 0x2c56); (0x2c27, 0x2c57);
   (0x2c28, 0x2c58); (0x2c29, 0x2c59); (0x2c2a, 0x2c5a); (0x2c2b, 0x2c5b);
   (0x2c2c, 0x2c5c); (0x2c2d, 0x2c5d); (0x2c2e, 0x2c5e); (0x2c2f, 0x2c5f);
   (0x2c60, 0x2c61); (0x2c62, 0x26b); (0x2c63, 0x1d7d); (0x2c64, 0x27d);
   (0x2c67, 0x2c68); (0x2c69, 0x2c6a); (0x2c6b, 0x2c6c); (0x2c6d, 0x251);
   (0x2c6e, 0x271); (0x2c6f, 0x250); (0x2c70, 0x252); (0x2c72, 0x2c73);
   (0x2c75, 0x2c76); (0x2c7e, 0x23f); (0x2c7f, 0x240); (0x2c80, 0x2c81);
   (0x2c82, 0x2c83); (0x2c84, 0x2c85); (0x2c86, 0x2c87); (0x2c88, 0x2c89);
   (0x2c8a, 0x2c8b); (0x2c8c, 0x2c8d); (0x2c8e, 0x2c8f); (0x2c90, 0x2c91);
   (0x2c92, 0x2c93); (0x2c94, 0x2c95); (0x2c96, 0x2c97); (0x2c98, 0x2c99);
   (0x2c9a, 0x2c9b); (0x2c9c, 0x2c9d); (0x2c9e, 0x2c9f); (0x2ca0, 0x2ca1);
   (0x2ca2, 0x2ca3); (0x2ca4, 0x2ca5); (0x2ca6, 0x2ca7); (0x2ca8, 0x2ca9);
   (0x2caa, 0x2cab); (0x2cac, 0x2cad); (0x2cae, 0x2caf); (0x2cb0, 0x2cb1);
   (0x2cb2, 0x2cb3); (0x2cb4, 0x2cb5); (0x2cb6, 0x2cb7); (0x2cb8, 0x2cb9);
   (0x2cba, 0x2cbb); (0x2cbc, 0x2cbd); (0x2cbe, 0x2cbf); (0x2cc0, 0x2cc1);
   (0x2cc2, 0x2cc3); (0x2cc4, 0x2cc5); (0x2cc6, 0x2cc7); (0x2cc8, 0x2cc9);
   (0x2cca, 0x2ccb); (0x2ccc, 0x2ccd); (0x2cce, 0x2ccf); (0x2cd0, 0x2cd1);
   (0x2cd2, 0x2cd3); (0x2cd4, 0x2cd5); (0x2cd6, 0x2cd7); (0x2cd8, 0x2cd9);
   (0x2cda, 0x2cdb); (0x2cdc, 0x2cdd); (0x2cde, 0x2cdf); (0x2ce0, 0x2ce1);
   (0x2ce2, 0x2ce3); (0x2ceb, 0x2cec); (0x2ced, 0x2cee); (0x2cf2, 0x2cf3);
   (0xa640, 0xa641); (0xa642, 0xa643); (0xa644, 0xa645); (0xa646, 0xa647);
   (0xa648, 0xa649); (0xa64a, 0xa64b); (0xa64c, 0xa64d); (0xa64e, 0xa64f);
   (0xa650, 0xa651); (0xa652, 0xa653); (0xa654, 0xa655); (0xa656, 0xa657);
   (0xa658, 0xa659); (0xa65a, 0xa65b); (0xa65c, 0xa65d); (0xa65e, 0xa65f);
   (0xa660, 0xa661); (0xa662, 0xa663); (0xa664, 0xa665); (0xa666, 0xa667);
   (0xa668, 0xa669); (0xa66a, 0xa66b); (0xa66c, 0xa66d); (0xa680, 0xa681);
   (0xa682, 0xa683); (0xa684, 0xa685); (0xa686, 0xa687); (0xa688, 0xa689);
   (0xa68a, 0xa68b); (0xa68c, 0xa68d); (0xa68e, 0xa68f); (0xa690, 0xa691);
   (0xa692, 0xa693); (0xa694, 0xa695); (0xa696, 0xa697); (0xa698, 0xa699);
   (0xa69a, 0xa69b); (0xa722, 0xa723); (0xa724, 0xa725); (0xa726, 0xa727);
   (0xa728, 0xa729); (0xa72a, 0xa72b); (0xa72c, 0xa72d); (0xa72e, 0xa72f);
   (0xa732, 0xa733); (0xa734, 0xa735); (0xa736, 0xa737); (0xa738, 0xa739);
   (0xa73a, 0xa73b); (0xa73c, 0xa73d); (0xa73e, 0xa73f); (0xa740, 0xa741);
   (0xa742, 0xa743); (0xa744, 0xa745); (0xa746, 0xa747); (0xa748, 0xa749);
   (0xa74a, 0xa74b); (0xa74c, 0xa74d); (0xa74e, 0xa74f); (0xa750, 0xa751);
   (0xa752, 0xa753); (0xa754, 0xa755); (0xa756, 0xa757); (0xa758, 0xa759);
   (0xa75a, 0xa75b); (0xa75c, 0xa75d); (0xa75e, 0xa75f); (0xa760, 0xa761);
   (0xa762, 0xa763); (0xa764, 0xa765); (0xa766, 0xa767); (0xa768, 0xa769);
   (0xa76a, 0xa76b); (0xa76c, 0xa76d); (0xa76e, 0xa76f); (0xa779, 0xa77a);
   (0xa77b, 0xa77c); (0xa77d, 0x1d79); (0xa77e, 0xa77f); (0xa780, 0xa781);
   (0xa782, 0xa783); (0xa784, 0xa785); (0xa786, 0xa787); (0xa78b, 0xa78c);
   (0xa78d, 0x265); (0xa790, 0xa791); (0xa792, 0xa793); (0xa796, 0xa797);
   (0xa798, 0xa799); (0xa79a, 0xa79b); (0xa79c, 0xa79d); (0xa79e, 0xa79f);
   (0xa7a0, 0xa7a1); (0xa7a2, 0xa7a3); (0xa7a4, 0xa7a5); (0xa7a6, 0xa7a7);
   (0xa7a8, 0xa7a9); (0xa7aa, 0x266); (0xa7ab, 0x25c); (0xa7ac, 0x261);
   (0xa7ad, 0x26c); (0xa7ae, 0x26a); (0xa7b0, 0x29e); (0xa7b1, 0x287);
   (0xa7b2, 0x29d); (0xa7b3, 0xab53); (0xa7b4, 0xa7b5); (0xa7b6, 0xa7b7);
   (0xa7b8, 0xa7b9); (0xa7ba, 0xa7bb); (0xa7bc, 0xa7bd); (0xa7be, 0xa7bf);
   (0xa7c0, 0xa7c1); (0xa7c2, 0xa7c3); (0xa7c4, 0xa794); (0xa7c5, 0x282);
   (0xa7c6, 0x1d8e); (0xa7c7, 0xa7c8); (0xa7c9, 0xa7ca); (0xa7d0, 0xa7d1);
   (0xa7d6, 0xa7d7); (0xa7d8, 0xa7d9); (0xa7f5, 0xa7f6); (0xff21, 0xff41);
   (0xff22, 0xff42); (0xff23, 0xff43); (0xff24, 0xff44); (0xff25, 0xff45);
   (0xff26, 0xff46); (0xff27, 0xff47); (0xff28, 0xff48); (0xff29, 0xff49);
   (0xff2a, 0xff4a); (0xff2b, 0xff4b); (0xff2c, 0xff4c); (0xff2d, 0xff4d);
   (0xff2e, 0xff4e); (0xff2f, 0xff4f); (0xff30, 0xff50); (0xff31, 0xff51);
   (0xff32, 0xff52); (0xff33, 0xff53); (0xff34, 0xff54); (0xff35, 0xff55);
   (0xff36, 0xff56); (0xff37, 0xff57); (0xff38, 0xff58); (0xff39, 0xff59);
   (0xff3a, 0xff5a); (0x10400, 0x10428); (0x10401, 0x10429);
   (0x10402, 0x1042a); (0x10403, 0x1042b); (0x10404, 0x1042c);
   (0x10405, 0x1042d); (0x10406, 0x1042e); (0x10407, 0x1042f);
   (0x10408, 0x10430); (0x10409, 0x10431); (0x1040a, 0x10432);
   (0x1040b, 0x10433); (0x1040c, 0x10434); (0x1040d, 0x10435);
   (0x1040e, 0x10436); (0x1040f, 0x10437); (0x10410, 0x10438);
   (0x10411, 0x10439); (0x10412, 0x1043a); (0x10413, 0x1043b);
   (0x10414, 0x1043c); (0x10415, 0x1043d); (0x10416, 0x1043e);
   (0x10417, 0x1043f); (0x10418, 0x10440); (0x10419, 0x10441);
   (0x1041a, 0x10442); (0x1041b, 0x10443); (0x1041c, 0x10444);
   (0x1041d, 0x10445); (0x1041e, 0x10446); (0x1041f, 0x10447);
   (0x10420, 0x10448); (0x10421, 0x10449); (0x10422, 0x1044a);
   (0x10423, 0x1044b); (0x10424, 0x1044c); (0x10425, 0x1044d);
   (0x10426, 0x1044e); (0x10427, 0x1044f); (0x104b0, 0x104d8);
   (0x104b1, 0x104d9); (0x104b2, 0x104da); (0x104b3, 0x104db);
   (0x104b4, 0x104dc); (0x104b5, 0x104dd); (0x104b6, 0x104de);
   (0x104b7, 0x104df); (0x104b8, 0x104e0); (0x104b9, 0x104e1);
   (0x104ba, 0x104e2); (0x104bb, 0x104e3); (0x104bc, 0x104e4);
   (0x104bd, 0x104e5); (0x104be, 0x104e6); (0x104bf, 0x104e7);
   (0x104c0, 0x104e8); (0x104c1, 0x104e9); (0x104c2, 0x104ea);
   (0x104c3, 0x104eb); (0x104c4, 0x104ec); (0x104c5, 0x104ed);
   (0x104c6, 0x104ee); (0x104c7, 0x104ef); (0x104c8, 0x104f0);
   (0x104c9, 0x104f1); (0x104ca, 0x104f2); (0x104cb, 0x104f3);
   (0x104cc, 0x104f4); (0x104cd, 0x104f5); (0x104ce, 0x104f6);
   (0x104cf, 0x104f7); (0x104d0, 0x104f8); (0x104d1, 0x104f9);
   (0x104d2, 0x104fa); (0x104d3, 0x104fb); (0x10570, 0x10597);
   (0x10571, 0x10598); (0x10572, 0x10599); (0x10573, 0x1059a);
   (0x10574, 0x1059b); (0x10575, 0x1059c); (0x10576, 0x1059d);
   (0x10577, 0x1059e); (0x10578, 0x1059f); (0x10579, 0x105a0);
   (0x1057a, 0x105a1); (0x1057c, 0x105a3); (0x1057d, 0x105a4);
   (0x1057e, 0x105a5); (0x1057f, 0x105a6); (0x10580, 0x105a7);
   (0x10581, 0x105a8); (0x10582, 0x105a9); (0x10583, 0x105aa);
   (0x10584, 0x105ab); (0x10585, 0x105ac); (0x10586, 0x105ad);
   (0x10587, 0x105ae); (0x10588, 0x105af); (0x10589, 0x105b0);
   (0x1058a, 0x105b1); (0x1058c, 0x105b3); (0x1058d, 0x105b4);
   (0x1058e, 0x105b5); (0x1058f, 0x105b6); (0x10590, 0x105b7);
   (0x10591, 0x105b8); (0x10592, 0x105b9); (0x10594, 0x105bb);
   (0x10595, 0x105bc); (0x10c80, 0x10cc0); (0x10c81, 0x10cc1);
   (0x10c82, 0x10cc2); (0x10c83, 0x10cc3); (0x10c84, 0x10cc4);
   (0x10c85, 0x10cc5); (0x10c86, 0x10cc6); (0x10c87, 0x10cc7);
   (0x10c88, 0x10cc8); (0x10c89, 0x10cc9); (0x10c8a, 0x10cca);
   (0x10c8b, 0x10ccb); (0x10c8c, 0x10ccc); (0x10c8d, 0x10ccd);
   (0x10c8e, 0x10cce); (0x10c8f, 0x10ccf); (0x10c90, 0x10cd0);
   (0x10c91, 0x10cd1); (0x10c92, 0x10cd2); (0x10c93, 0x10cd3);
   (0x10c94, 0x10cd4); (0x10c95, 0x10cd5); (0x10c96, 0x10cd6);
   (0x10c97, 0x10cd7); (0x10c98, 0x10cd8); (0x10c99, 0x10cd9);
   (0x10c9a, 0x10cda); (0x10c9b, 0x10cdb); (0x10c9c, 0x10cdc);
   (0x10c9d, 0x10cdd); (0x10c9e, 0x10cde); (0x10c9f, 0x10cdf);
   (0x10ca0, 0x10ce0); (0x10ca1, 0x10ce1); (0x10ca2, 0x10ce2);
   (0x10ca3, 0x10ce3); (0x10ca4, 0x10ce4); (0x10ca5, 0x10ce5);
   (0x10ca6, 0x10ce6); (0x10ca7, 0x10ce7); (0x10ca8, 0x10ce8);
   (0x10ca9, 0x10ce9); (0x10caa, 0x10cea); (0x10cab, 0x10ceb);
   (0x10cac, 0x10cec); (0x10cad, 0x10ced); (0x10cae, 0x10cee);
   (0x10caf, 0x10cef); (0x10cb0, 0x10cf0); (0x10cb1, 0x10cf1);
   (0x10cb2, 0x10cf2); (0x118a0, 0x118c0); (0x118a1, 0x118c1);
   (0x118a2, 0x118c2); (0x118a3, 0x118c3); (0x118a4, 0x118c4);
   (0x118a5, 0x118c5); (0x118a6, 0x118c6); (0x118a7, 0x118c7);
   (0x118a8, 0x118c8); (0x118a9, 0x118c9); (0x118aa, 0x118ca);
   (0x118ab, 0x118cb); (0x118ac, 0x118cc); (0x118ad, 0x118cd);
   (0x118ae, 0x118ce); (0x118af, 0x118cf); (0x118b0, 0x118d0);
   (0x118b1, 0x118d1); (0x118b2, 0x118d2); (0x118b3, 0x118d3);
   (0x118b4, 0x118d4); (0x118b5, 0x118d5); (0x118b6, 0x118d6);
   (0x118b7, 0x118d7); (0x118b8, 0x118d8); (0x118b9, 0x118d9);
   (0x118ba, 0x118da); (0x118bb, 0x118db); (0x118bc, 0x118dc);
   (0x118bd, 0x118dd); (0x118be, 0x118de); (0x118bf, 0x118df);
   (0x16e40, 0x16e60); (0x16e41, 0x16e61); (0x16e42, 0x16e62);
   (0x16e43, 0x16e63); (0x16e44, 0x16e64); (0x16e45, 0x16e65);
   (0x16e46, 0x16e66); (0x16e47, 0x16e67); (0x16e48, 0x16e68);
   (0x16e49, 0x16e69); (0x16e4a, 0x16e6a); (0x16e4b, 0x16e6b);
   (0x16e4c, 0x16e6c); (0x16e4d, 0x16e6d); (0x16e4e, 0x16e6e);
   (0x16e4f, 0x16e6f); (0x16e50, 0x16e70); (0x16e51, 0x16e71);
   (0x16e52, 0x16e72); (0x16e53, 0x16e73); (0x16e54, 0x16e74);
   (0x16e55, 0x16e75); (0x16e56, 0x16e76); (0x16e57, 0x16e77);
   (0x16e58, 0x16e78); (0x16e59, 0x16e79); (0x16e5a, 0x16e7a);
   (0x16e5b, 0x16e7b); (0x16e5c, 0x16e7c); (0x16e5d, 0x16e7d);
   (0x16e5e, 0x16e7e); (0x16e5f, 0x16e7f); (0x1e900, 0x1e922);
   (0x1e901, 0x1e923); (0x1e902, 0x1e924); (0x1e903, 0x1e925);
   (0x1e904, 0x1e926); (0x1e905, 0x1e927); (0x1e906, 0x1e928);
   (0x1e907, 0x1e929); (0x1e908, 0x1e92a); (0x1e909, 0x1e92b);
   (0x1e90a, 0x1e92c); (0x1e90b, 0x1e92d); (0x1e90c, 0x1e92e);
   (0x1e90d, 0x1e92f); (0x1e90e, 0x1e930); (0x1e90f, 0x1e931);
   (0x1e910, 0x1e932); (0x1e911, 0x1e933); (0x1e912, 0x1e934);
   (0x1e913, 0x1e935); (0x1e914, 0x1e936); (0x1e915, 0x1e937);
   (0x1e916, 0x1e938); (0x1e917, 0x1e939); (0x1e918, 0x1e93a);
   (0x1e919, 0x1e93b); (0x1e91a, 0x1e93c); (0x1e91b, 0x1e93d);
   (0x1e91c, 0x1e93e); (0x1e91d, 0x1e93f); (0x1e91e, 0x1e940);
   (0x1e91f, 0x1e941); (0x1e920, 0x1e942); (0x1e921, 0x1e943)]%N.

Definition in_ranges (c : N) (ranges : list (N * N)) : bool :=
  existsb (fun r => N.leb (fst r) c && N.leb c (snd r)) ranges.

Definition is_space (c : N) : bool := in_ranges c whitespace.
Definition is_upper (c : N) : bool := in_ranges c uppercase.
Definition is_cased (c : N) : bool := in_ranges c cased.
Definition is_case_ignorable (c : N) : bool := in_ranges c case_ignorable.

(** The lower case of a character, whatever is around it: one character, or
    two for U+0130 *)
Definition to_lower (c : N) : list N :=
  if N.eqb c 0x130 then [0x69; 0x307]%N
  else
    match find (fun p => N.eqb (fst p) c) lowercase with
    | Some p => [snd p]
    | None => [c]
    end.

(** Whether the first character of [l] that is not skipped is cased *)
Fixpoint next_cased (l : list N) : bool :=
  match l with
  | [] => false
  | c :: l' => if is_case_ignorable c then next_cased l' else is_cased c
  end.

(** The context of a final sigma: a cased character before, none after.
    [before] holds the characters before, the nearest first. *)
Definition final_sigma (before after : list N) : bool :=
  next_cased before && negb (next_cased after).

(** [str.lower]: character by character, U+03A3 by its context *)
Fixpoint lower_from (before s : text) : text :=
  match s with
  | [] => []
  | c :: rest =>
      (if N.eqb c 0x3a3 then
         [if final_sigma before rest then 0x3c2 else 0x3c3]%N
       else to_lower c)
      ++ lower_from (c :: before) rest
  end.

Definition lower (s : text) : text := lower_from [] s.

Fixpoint dropwhile (p : N -> bool) (l : list N) : list N :=
  match l with
  | [] => []
  | c :: l' => if p c then dropwhile p l' else l
  end.

(** [str.strip] *)
Definition strip (s : text) : text :=
  rev (dropwhile is_space (rev (dropwhile is_space s))).

(** [str.isspace] *)
Definition isspace (s : text) : bool :=
  match s with
  | [] => false
  | l => forallb is_space l
  end.

(** ** Dictionaries with string keys and values *)

Module Dict.

Definition t : Type := list (text * text).

Fixpoint get (d : t) (k : text) : option text :=
  match d with
  | [] => None
  | (k', v) :: d' => if eqb k' k then Some v else get d' k
  end.

(** [d[k]] *)
Definition getitem (d : t) (k : text) : result text :=
  match get d k with
  | Some v => Ok v
  | None => Raise (KeyError k)
  end.

(** [d[k] = v] *)
Fixpoint set (d : t) (k v : text) : t :=
  match d with
  | [] => [(k, v)]
  | (k', v') :: d' =>
      if eqb k' k then (k', v) :: d' else (k', v') :: set d' k v
  end.

Definition keys (d : t) : list text := map fst d.

Definition option_eqb (a b : option text) : bool :=
  match a, b with
  | Some x, Some y => eqb x y
  | None, None => true
  | _, _ => false
  end.

Definition subdict (d1 d2 : t) : bool :=
  forallb (fun k => option_eqb (get d1 k) (get d2 k)) (keys d1).

(** [d1 == d2] *)
Definition eqb (d1 d2 : t) : bool := subdict d1 d2 && subdict d2 d1.

End Dict.

(** [x in l] for a list of strings *)
Definition text_in (x : text) (l : list text) : bool := existsb (eqb x) l.

(** [l[i]] *)
Definition index {A : Type} (l : list A) (i : nat) : result A :=
  match nth_error l i with
  | Some a => Ok a
  | None => Raise (IndexError "list index out of range")
  end.

(** [l.remove(x)] *)
Fixpoint list_remove (x : Dict.t) (l : list Dict.t) : result (list Dict.t) :=
  match l with
  | [] => Raise (ValueError "list.remove(x): x not in list")
  | y :: l' =>
      if Dict.eqb y x then Ok l'
      else l'' <- list_remove x l' ;; Ok (y :: l'')
  end.

(** ** [normalize] *)

Definition normalize (x : text) : text := strip (lower x).

(** ** The files, as [csv.reader] yields them *)

Definition row : Type := list text.
Definition csv : Type := list row.

(** ** [make_filtering_list] *)

Definition FilterFormatError : exn :=
  IndexError "ERROR: filtering csv not formatted properly".

Fixpoint filtering_lines (lines : list row)
    (filtering_list : list (text * text))
  : result (list (text * text)) :=
  match lines with
  | [] => Ok filtering_list
  | line :: rest =>
      match nth_error line 0, nth_error line 1 with
      | Some fieldname, Some value =>
          filtering_lines rest (filtering_list ++ [(fieldname, value)])
      | _, _ => Raise FilterFormatError
      end
  end.

Definition make_filtering_list (filtering_csv : csv)
  : result (list (text * text)) :=
  match filtering_csv with
  | [] => Raise StopIteration
  | _headers :: lines => filtering_lines lines []
  end.

(** ** [read_source_csv] *)

Definition primary_key : text := of_string "primary_key".

(** [[x['primary_key'] for x in l]] *)
Fixpoint primary_keys_of (l : list Dict.t) : result (list text) :=
  match l with
  | [] => Ok []
  | x :: l' =>
      k <- Dict.getitem x primary_key ;;
      ks <- primary_keys_of l' ;;
      Ok (k :: ks)
  end.

(** [[x for x in l if x['primary_key'] == pk]] *)
Fixpoint select_pk (pk : text) (l : list Dict.t) : result (list Dict.t) :=
  match l with
  | [] => Ok []
  | x :: l' =>
      k <- Dict.getitem x primary_key ;;
      xs <- select_pk pk l' ;;
      Ok (if eqb k pk then x :: xs else xs)
  end.

(** [l.sort(key=lambda x: x['primary_key'])] *)
Fixpoint insert_by_key (k : text) (x : Dict.t)
    (l : list (text * Dict.t)) : list (text * Dict.t) :=
  match l with
  | [] => [(k, x)]
  | (k', y) :: l' =>
      if ltb k k' then (k, x) :: l
      else (k', y) :: insert_by_key k x l'
  end.

Definition sort_keyed (l : list (text * Dict.t)) : list (text * Dict.t) :=
  fold_left (fun acc kx => insert_by_key (fst kx) (snd kx) acc) l [].

Definition sort_by_primary_key (l : list Dict.t) : result (list Dict.t) :=
  ks <- primary_keys_of l ;;
  Ok (map snd (sort_keyed (combine ks l))).

Record source_state : Type := mk_source_state {
  entries : list Dict.t;
  missing_pks : list Dict.t;
  duplicates : list Dict.t;
  seen_pks : list text
}.

Definition SourceFormatError : exn :=
  IndexError "Something went wrong with the formatting of this source".

Section Program.

(** [config/sources.py] *)
Variable primary_keys : list text.

(** The loop over [enumerate(headers)] *)
Fixpoint scan_headers (mapping_dict : Dict.t) (idx : nat)
    (headers : list text)
  : list text * list nat * list (text * nat) :=
  match headers with
  | [] => ([], [], [])
  | header :: rest =>
      let '(headers', pk_indices, headers_to_compare) :=
        scan_headers mapping_dict (S idx) rest in
      match Dict.get mapping_dict header with
      | Some standard_name =>
          if text_in standard_name primary_keys then
            (header :: headers', idx :: pk_indices, headers_to_compare)
          else
            (standard_name :: headers', pk_indices,
             (header, idx) :: headers_to_compare)
      | None => (header :: headers', pk_indices, headers_to_compare)
      end
  end.

(** [for pk_idx in pk_indices: pk = pk + entry[pk_idx] + " "] *)
Fixpoint build_pk (pk_indices : list nat) (entry : row) (pk : text)
  : result text :=
  match pk_indices with
  | [] => Ok pk
  | pk_idx :: rest =>
      v <- index entry pk_idx ;;
      build_pk rest entry ((pk ++ v) ++ of_string " ")
  end.

(** The loop over [headers_to_compare] *)
Fixpoint build_fields (translations_dict : Dict.t) (headers : list text)
    (headers_to_compare : list (text * nat)) (entry : row)
    (entry_dict : Dict.t) : result Dict.t :=
  match headers_to_compare with
  | [] => Ok entry_dict
  | (_header, header_idx) :: rest =>
      value <- index entry header_idx ;;
      let v :=
        match Dict.get translations_dict value with
        | Some translated => normalize translated
        | None => normalize value
        end in
      name <- index headers header_idx ;;
      build_fields translations_dict headers rest entry
        (Dict.set entry_dict name v)
  end.

(** The raw key and the record of one row *)
Definition build_entry (translations_dict : Dict.t) (headers : list text)
    (pk_indices : list nat) (headers_to_compare : list (text * nat))
    (entry : row) : result (text * Dict.t) :=
  pk <- build_pk pk_indices entry [] ;;
  entry_dict <-
    build_fields translations_dict headers headers_to_compare entry
      [(primary_key, normalize pk)] ;;
  Ok (pk, entry_dict).

(** The loop over [filtering_list]; it does not stop at the first match. *)
Fixpoint filter_ignore (filtering_list : list (text * text))
    (entry_dict : Dict.t) (ignore : bool) : result bool :=
  match filtering_list with
  | [] => Ok ignore
  | (fieldname, value) :: rest =>
      v <- Dict.getitem entry_dict fieldname ;;
      filter_ignore rest entry_dict (if eqb v value then true else ignore)
  end.

(** "populate the entry list" *)
Definition populate (st : source_state) (pk : text) (entry_dict : Dict.t)
  : result source_state :=
  if eqb pk [] || isspace pk then
    Ok (mk_source_state (entries st) (missing_pks st ++ [entry_dict])
          (duplicates st) (seen_pks st))
  else
    let pk := normalize pk in
    if text_in pk (seen_pks st) then
      let duplicates := duplicates st ++ [entry_dict] in
      pks <- primary_keys_of (entries st) ;;
      if text_in pk pks then
        to_delete <- select_pk pk (entries st) ;;
        match to_delete with
        | [item_to_delete] =>
            entries <- list_remove item_to_delete (entries st) ;;
            Ok (mk_source_state entries (missing_pks st)
                  (duplicates ++ [item_to_delete]) (seen_pks st))
        | _ => Raise SourceFormatError
        end
      else
        Ok (mk_source_state (entries st) (missing_pks st) duplicates
              (seen_pks st))
    else
      Ok (mk_source_state (entries st ++ [entry_dict]) (missing_pks st)
            (duplicates st) (seen_pks st ++ [pk])).

(** One turn of [for entry in reader] *)
Definition process_entry (translations_dict : Dict.t)
    (filtering_list : list (text * text)) (headers : list text)
    (pk_indices : list nat) (headers_to_compare : list (text * nat))
    (st : source_state) (entry : row) : result source_state :=
  built <-
    build_entry translations_dict headers pk_indices headers_to_compare
      entry ;;
  let '(pk, entry_dict) := built in
  ignore <- filter_ignore filtering_list entry_dict false ;;
  if ignore then Ok st else populate st pk entry_dict.

Fixpoint process_entries (translations_dict : Dict.t)
    (filtering_list : list (text * text)) (headers : list text)
    (pk_indices : list nat) (headers_to_compare : list (text * nat))
    (rows : list row) (st : source_state) : result source_state :=
  match rows with
  | [] => Ok st
  | entry :: rest =>
      st' <-
        process_entry translations_dict filtering_list headers pk_indices
          headers_to_compare st entry ;;
      process_entries translations_dict filtering_list headers pk_indices
        headers_to_compare rest st'
  end.

Definition read_source_csv (source_csv : csv)
    (mapping_dict translations_dict : Dict.t)
    (filtering_list : list (text * text))
  : result (list Dict.t * list Dict.t * list Dict.t) :=
  match source_csv with
  | [] => Raise StopIteration
  | headers :: rows =>
      let '(headers, pk_indices, headers_to_compare) :=
        scan_headers mapping_dict 0 headers in
      st <-
        process_entries translations_dict filtering_list headers pk_indices
          headers_to_compare rows (mk_source_state [] [] [] []) ;;
      entries <- sort_by_primary_key (entries st) ;;
      duplicates <- sort_by_primary_key (duplicates st) ;;
      Ok (entries, missing_pks st, duplicates)
  end.

End Program.

(** ** Vocabulary of the statements *)

(** The raw key and the record [read_source_csv] builds for a row of a
    source with the given headers *)
Definition record_of (primary_keys : list text)
    (mapping_dict translations_dict : Dict.t) (headers : list text)
    (entry : row) : result (text * Dict.t) :=
  let '(headers', pk_indices, headers_to_compare) :=
    scan_headers primary_keys mapping_dict 0 headers in
  build_entry translations_dict headers' pk_indices headers_to_compare entry.

(** The rows of a source, as [read_source_csv] treats them *)
Definition read_rows (primary_keys : list text)
    (mapping_dict translations_dict : Dict.t)
    (filtering_list : list (text * text)) (headers : list text)
    (rows : list row) (st : source_state) : result source_state :=
  let '(headers', pk_indices, headers_to_compare) :=
    scan_headers primary_keys mapping_dict 0 headers in
  process_entries translations_dict filtering_list headers' pk_indices
    headers_to_compare rows st.

(** A rule whose field holds the forbidden value in a record *)
Definition rule_matches (d : Dict.t) (rule : text * text) : bool :=
  Dict.option_eqb (Dict.get d (fst rule)) (Some (snd rule)).

(** The rules of the rows of a filtering file, cell for cell *)
Definition rules_of (lines : list row) : list (text * text) :=
  map (fun line => (nth 0 line [], nth 1 line [])) lines.

(** A character that [str.lower] changes *)
Definition lower_changes (c : N) : bool := negb (eqb (lower [c]) [c]).

(** A value with an upper-case letter *)
Definition has_upper (w : text) : bool := existsb is_upper w.

(** A value with an upper-case letter that [str.lower] changes *)
Definition has_lowered_upper (w : text) : bool :=
  existsb (fun c => is_upper c && lower_changes c) w.

Definition starts_with_space (w : text) : bool :=
  match w with
  | c :: _ => is_space c
  | [] => false
  end.

Definition ends_with_space (w : text) : bool :=
  match rev w with
  | c :: _ => is_space c
  | [] => false
  end.

End Unicode.

(** * Vocabulary of the statements *)

(** The two columns of a row of a mapping, translations or filtering file *)
Definition standard_name_of (line : row) : string := nth 0 line "".
Definition source_name_of (line : row) : string := nth 1 line "".

(** Rows that load: two columns at least, and no source name twice *)
Definition valid_rows (lines : list row) : Prop :=
  Forall (fun line => 2 <= List.length line) lines /\
  NoDup (map source_name_of lines).

(** The table they load to *)
Definition table_of (lines : list row) : Dict.t :=
  map (fun line => (source_name_of line, standard_name_of line)) lines.

(** The fields of a record other than its key, in the record's order *)
Definition non_key (ks : list string) : list string :=
  filter (fun k => negb (String.eqb k "primary_key")) ks.

Definition non_key_fields (d : Dict.t) : list string :=
  non_key (Dict.keys d).

(** The value of a field a record has *)
Definition value_of (d : Dict.t) (k : string) : string :=
  match Dict.get d k with Some v => v | None => "" end.

(** What a difference entry shows for a field: the value of record 1 under
    the column of source 1 and, under the column of source 2, the value of
    record 2 or the marker. *)
Definition difference_columns (dict_1 dict_2 : Dict.t)
    (source_1_name source_2_name : string) (field : string)
  : list (string * string) :=
  [(label field source_1_name, value_of dict_1 field);
   (label field source_2_name,
    if String.eqb (value_of dict_1 field) (value_of dict_2 field)
    then "*same*" else value_of dict_2 field)].

(** The names of those columns, for all the fields *)
Definition column_names (fields : list string)
    (source_1_name source_2_name : string) : list string :=
  flat_map (fun f => [label f source_1_name; label f source_2_name]) fields.

(** A value of characters below U+0100 that [normalize] never returns: it
    holds an upper-case letter, or starts or ends with white space. *)
Definition has_upper (w : string) : bool := existsb Str.is_upper (Str.chars w).

Definition starts_with_space (w : string) : bool :=
  match Str.chars w with
  | c :: _ => Str.is_space c
  | [] => false
  end.

Definition ends_with_space (w : string) : bool :=
  match rev (Str.chars w) with
  | c :: _ => Str.is_space c
  | [] => false
  end.

(** The key a record carries *)
Definition pk_of (d : Dict.t) : option string := Dict.get d "primary_key".

(** The standard names of the columns of a source that are kept as fields:
    the headers the mapping knows and does not map to a primary key. *)
Definition retained_fields (primary_keys : list string)
    (mapping_dict : Dict.t) (headers : list string) : list string :=
  flat_map
    (fun header =>
       match Dict.get mapping_dict header with
       | Some standard_name =>
           if str_in standard_name primary_keys then [] else [standard_name]
       | None => []
       end)
    headers.

(** The raw key and the record [read_source_csv] builds for a row of a
    source with the given headers *)
Definition record_of (primary_keys : list string)
    (mapping_dict translations_dict : Dict.t) (headers : list string)
    (entry : row) : result (string * Dict.t) :=
  let '(headers', pk_indices, headers_to_compare) :=
    scan_headers primary_keys mapping_dict 0 headers in
  build_entry translations_dict headers' pk_indices headers_to_compare entry.

(** A rule whose field holds the forbidden value in a record *)
Definition rule_matches (d : Dict.t) (rule : string * string) : bool :=
  Dict.option_eqb (Dict.get d (fst rule)) (Some (snd rule)).

(** Assignments to a dictionary, one after the other *)
Definition assign (d : Dict.t) (kvs : list (string * string)) : Dict.t :=
  fold_left (fun d kv => Dict.set d (fst kv) (snd kv)) kvs d.

(** One row of a source with the given headers, as [read_source_csv]
    treats it *)
Definition read_row (primary_keys : list string)
    (mapping_dict translations_dict : Dict.t)
    (filtering_list : list (string * string)) (headers : list string)
    (st : source_state) (entry : row) : result source_state :=
  let '(headers', pk_indices, headers_to_compare) :=
    scan_headers primary_keys mapping_dict 0 headers in
  process_entry translations_dict filtering_list headers' pk_indices
    headers_to_compare st entry.

(** The lists of [read_source_csv] after the rows, before they are sorted *)
Definition read_rows (primary_keys : list string)
    (mapping_dict translations_dict : Dict.t)
    (filtering_list : list (string * string)) (headers : list string)
    (rows : list row) (st : source_state) : result source_state :=
  let '(headers', pk_indices, headers_to_compare) :=
    scan_headers primary_keys mapping_dict 0 headers in
  process_entries translations_dict filtering_list headers' pk_indices
    headers_to_compare rows st.

(** The index and the duplicates are apart: no key twice in the index, and
    no key of a duplicate in the index. *)
Definition quarantined (index duplicates : list Dict.t) : Prop :=
  NoDup (map pk_of index) /\
  forall d x, In d duplicates -> In x index -> pk_of d <> pk_of x.

(** What [read_source_csv] keeps true of its lists between two rows *)
Definition source_invariant (st : source_state) : Prop :=
  (forall x, In x (entries st ++ duplicates st) ->
     exists k, pk_of x = Some k /\ In k (seen_pks st)) /\
  quarantined (entries st) (duplicates st).

(** The records of a list that carry the key [k], and those that do not *)
Definition has_pk (k : option string) (x : Dict.t) : bool :=
  Dict.option_eqb (pk_of x) k.

(** An index: every record carries a key, and no key twice *)
Definition unique_keys (l : list Dict.t) : Prop :=
  NoDup (map pk_of l) /\ forall x, In x l -> pk_of x <> None.

(** The key of [x] is the key of some record of [l] *)
Definition in_keys (l : list Dict.t) (x : Dict.t) : bool :=
  existsb (has_pk (pk_of x)) l.

(** The records of [l] whose key no record of [other] has *)
Definition unmatched (l other : list Dict.t) : list Dict.t :=
  filter (fun x => negb (in_keys other x)) l.

(** The difference entries of the records of [l] that have one record with
    their key in [other] and are not equal to it, in the order of [l] *)
Fixpoint differences_of (source_1_name source_2_name : string)
    (l other : list Dict.t) : result (list Dict.t) :=
  match l with
  | [] => Ok []
  | x :: rest =>
      match filter (has_pk (pk_of x)) other with
      | [m] =>
          if Dict.eqb x m then
            differences_of source_1_name source_2_name rest other
          else
            d <- make_difference_entry x m source_1_name source_2_name ;;
            ds <- differences_of source_1_name source_2_name rest other ;;
            Ok (d :: ds)
      | _ => differences_of source_1_name source_2_name rest other
      end
  end.

(** Record [m] has every non-key field of record [x] *)
Definition fields_covered (x m : Dict.t) : Prop :=
  forall f, In f (non_key_fields x) -> Dict.get m f <> None.

(** The lists of the comparison when the records [done] of index 1 are
    behind and the records [todo] are ahead *)
Definition loop_state (index_1 index_2 done todo ds : list Dict.t)
  : compare_state :=
  mk_compare_state
    (unmatched done index_2 ++ todo)
    (filter (fun y => negb (in_keys done y)) index_2)
    index_1 index_2
    (unmatched done index_2) [] ds.

(** The records of the rows of a source that are not filtered out and carry
    a key, in the order of the rows *)
Fixpoint keyed_records (primary_keys : list string)
    (mapping_dict translations_dict : Dict.t)
    (filtering_list : list (string * string)) (headers : list string)
    (rows : list row) : list Dict.t :=
  match rows with
  | [] => []
  | entry :: rest =>
      let others :=
        keyed_records primary_keys mapping_dict translations_dict
          filtering_list headers rest in
      match record_of primary_keys mapping_dict translations_dict headers
              entry with
      | Ok (pk, d) =>
          match filter_ignore filtering_list d false with
          | Ok false =>
              if String.eqb pk "" || Str.isspace pk then others
              else d :: others
          | _ => others
          end
      | Raise _ => others
      end
  end.

(** The rules of the rows of a filtering file, cell for cell *)
Definition rules_of (lines : list row) : list (string * string) :=
  map (fun line => (nth 0 line "", nth 1 line "")) lines.

(** [str.strip] on the characters of a string *)
Definition trim (l : list ascii) : list ascii :=
  rev (Str.dropwhile Str.is_space (rev (Str.dropwhile Str.is_space l))).

(** The value a cell stands for: its translation, if it has one *)
Definition translate (translations_dict : Dict.t) (cell : string) : string :=
  match Dict.get translations_dict cell with
  | Some translated => translated
  | None => cell
  end.

(** The raw key of a row, read off the headers paired with the cells: the
    cells under the headers mapped to a primary key, each followed by a
    space *)
Fixpoint raw_key (primary_keys : list string) (mapping_dict : Dict.t)
    (columns : list (string * string)) : string :=
  match columns with
  | [] => ""
  | (header, cell) :: rest =>
      match Dict.get mapping_dict header with
      | Some standard_name =>
          if str_in standard_name primary_keys then
            (cell ++ " " ++ raw_key primary_keys mapping_dict rest)%string
          else raw_key primary_keys mapping_dict rest
      | None => raw_key primary_keys mapping_dict rest
      end
  end.

(** The fields of a row, read off the headers paired with the cells: for
    every header mapped to a name that is no primary key, that name with the
    normalized translation of the cell *)
Fixpoint field_cells (primary_keys : list string)
    (mapping_dict translations_dict : Dict.t)
    (columns : list (string * string)) : list (string * string) :=
  match columns with
  | [] => []
  | (header, cell) :: rest =>
      match Dict.get mapping_dict header with
      | Some standard_name =>
          if str_in standard_name primary_keys then
            field_cells primary_keys mapping_dict translations_dict rest
          else
            (standard_name, normalize (translate translations_dict cell)) ::
            field_cells primary_keys mapping_dict translations_dict rest
      | None => field_cells primary_keys mapping_dict translations_dict rest
      end
  end.

(** The keys of a dictionary after an assignment to [k] *)
Definition add_key (ks : list string) (k : string) : list string :=
  if str_in k ks then ks else ks ++ [k].

(** The fields of the records of a source, in their order: the key, then the
    retained standard names, each once *)
Definition record_fields (primary_keys : list string)
    (mapping_dict : Dict.t) (headers : list string) : list string :=
  fold_left add_key (retained_fields primary_keys mapping_dict headers)
    ["primary_key"].

(** Keys in the order of [<=] on strings *)
Fixpoint sorted_keys (ks : list string) : bool :=
  match ks with
  | k :: ((k' :: _) as rest) => String.leb k k' && sorted_keys rest
  | _ => true
  end.

(** The rows without a key are apart from the others: their records carry
    the empty key, and the records of the index and of the duplicates a key
    that is not empty. *)
Definition keyless_apart (st : source_state) : Prop :=
  (forall x, In x (missing_pks st) -> pk_of x = Some "") /\
  (forall x, In x (entries st ++ duplicates st) -> pk_of x <> Some "").

(** The line of a record in a result file with the given columns *)
Definition line_of (fieldnames : list string) (d : Dict.t) : row :=
  map (value_of d) fieldnames.

(** What [compare_sources] writes for a list: a file when the list is not
    empty, with the fields of the first record for columns *)
Definition written (source_name : string) (source_data : list Dict.t)
    (csv_type : string) : list report :=
  match source_data with
  | [] => []
  | first :: _ =>
      [(source_name, csv_type,
        Dict.keys first :: map (line_of (Dict.keys first)) source_data)]
  end.

(** The kind and the lines of a result file, without its name *)
Definition contents (r : report) : string * csv :=
  (snd (fst r), snd r).

(** Records that all have the same fields, in the same order *)
Definition same_fields (l : list Dict.t) : Prop :=
  forall d d', In d l -> In d' l -> Dict.keys d = Dict.keys d'.

(** The files of a run, in the order they are written: for each of the
    seven lists, a file if the list is not empty *)
Definition result_files (name_1 name_2 : string)
    (m1 m2 d1 d2 e1 e2 ds : list Dict.t) : list report :=
  written name_1 m1 "missingPK" ++ written name_2 m2 "missingPK" ++
  written name_1 d1 "duplicates" ++ written name_2 d2 "duplicates" ++
  written name_1 e1 "extra" ++ written name_2 e2 "extra" ++
  written (name_1 ++ " " ++ name_2)%string ds "differences".

(** The records of the rows of a source that are not filtered out and lack a
    key, in the order of the rows *)
Fixpoint keyless_records (primary_keys : list string)
    (mapping_dict translations_dict : Dict.t)
    (filtering_list : list (string * string)) (headers : list string)
    (rows : list row) : list Dict.t :=
  match rows with
  | [] => []
  | entry :: rest =>
      let others :=
        keyless_records primary_keys mapping_dict translations_dict
          filtering_list headers rest in
      match record_of primary_keys mapping_dict translations_dict headers
              entry with
      | Ok (pk, d) =>
          match filter_ignore filtering_list d false with
          | Ok false =>
              if String.eqb pk "" || Str.isspace pk then d :: others
              else others
          | _ => others
          end
      | Raise _ => others
      end
  end.

(** * Properties *)

(** ** The error monad *)

Lemma bind_ok_inv (A B : Type) (m : result A) (k : A -> result B) (b : B) :
  bind m k = Ok b -> exists a, m = Ok a /\ k a = Ok b.
Proof.
  destruct m as [a|e]; simpl; intros H; [exists a; auto | discriminate].
Qed.

Lemma bind_raise_inv (A B : Type) (m : result A) (k : A -> result B) e :
  bind m k = Raise e ->
  m = Raise e \/ exists a, m = Ok a /\ k a = Raise e.
Proof.
  destruct m as [a|e']; simpl; intros H.
  - right; exists a; auto.
  - left; injection H as ->; reflexivity.
Qed.

Ltac inv_bind H :=
  let a := fresh "a" in
  let Ha := fresh "Ha" in
  apply bind_ok_inv in H; destruct H as [a [Ha H]].

(** ** Lists of strings *)

Lemma str_in_In (x : string) (l : list string) :
  str_in x l = true <-> In x l.
Proof.
  unfold str_in. rewrite existsb_exists. split.
  - intros [y [Hy E]]. apply String.eqb_eq in E. subst. exact Hy.
  - intros H. exists x. split; [exact H | apply String.eqb_refl].
Qed.

Lemma str_in_not_In (x : string) (l : list string) :
  str_in x l = false <-> ~ In x l.
Proof.
  rewrite <- str_in_In. destruct (str_in x l); split; intros H;
    try discriminate; try reflexivity; try (intros H'; discriminate).
  exfalso; apply H; reflexivity.
Qed.

(** ** Dictionaries *)

Lemma get_Some_In (d : Dict.t) (k v : string) :
  Dict.get d k = Some v -> In (k, v) d.
Proof.
  induction d as [|[k' v'] d IH]; simpl; [discriminate|].
  destruct (String.eqb_spec k' k) as [->|N]; intros H.
  - injection H as ->. left; reflexivity.
  - right; auto.
Qed.

Lemma get_None_keys (d : Dict.t) (k : string) :
  Dict.get d k = None <-> ~ In k (Dict.keys d).
Proof.
  induction d as [|[k' v'] d IH]; simpl.
  - split; auto.
  - destruct (String.eqb_spec k' k) as [->|N].
    + split; [discriminate | intros H; exfalso; apply H; left; reflexivity].
    + rewrite IH. split; intros H; [intros [E|I]; [contradiction | auto] | auto].
Qed.

Lemma mem_keys (d : Dict.t) (k : string) :
  Dict.mem k d = true <-> In k (Dict.keys d).
Proof.
  unfold Dict.mem. destruct (Dict.get d k) eqn:E.
  - split; [intros _ | reflexivity].
    apply get_Some_In in E. apply (in_map fst) in E. exact E.
  - apply get_None_keys in E. split; [discriminate | contradiction].
Qed.

Lemma get_set_same (d : Dict.t) (k v : string) :
  Dict.get (Dict.set d k v) k = Some v.
Proof.
  induction d as [|[k' v'] d IH]; simpl.
  - rewrite String.eqb_refl. reflexivity.
  - destruct (String.eqb_spec k' k) as [->|N]; simpl.
    + rewrite String.eqb_refl. reflexivity.
    + destruct (String.eqb_spec k' k); [contradiction | exact IH].
Qed.

Lemma get_set_other (d : Dict.t) (k k0 v : string) :
  k <> k0 -> Dict.get (Dict.set d k v) k0 = Dict.get d k0.
Proof.
  intros N. induction d as [|[k' v'] d IH]; simpl.
  - destruct (String.eqb_spec k k0); [contradiction | reflexivity].
  - destruct (String.eqb_spec k' k) as [->|N']; simpl.
    + destruct (String.eqb_spec k k0); [contradiction | reflexivity].
    + rewrite IH. reflexivity.
Qed.

Lemma set_fresh (d : Dict.t) (k v : string) :
  ~ In k (Dict.keys d) -> Dict.set d k v = d ++ [(k, v)].
Proof.
  induction d as [|[k' v'] d IH]; simpl; intros H; [reflexivity|].
  destruct (String.eqb_spec k' k) as [->|N].
  - exfalso; apply H; left; reflexivity.
  - rewrite IH; [reflexivity | intros I; apply H; right; exact I].
Qed.

Lemma keys_set (d : Dict.t) (k v k0 : string) :
  In k0 (Dict.keys (Dict.set d k v)) <-> k0 = k \/ In k0 (Dict.keys d).
Proof.
  rewrite <- !mem_keys. unfold Dict.mem.
  destruct (String.eqb_spec k k0) as [->|N].
  - rewrite get_set_same. split; auto.
  - rewrite get_set_other by exact N.
    split; [auto | intros [E|H]; [congruence | exact H]].
Qed.

Lemma values_set_fresh (d : Dict.t) (k v : string) :
  ~ In k (Dict.keys d) -> Dict.values (Dict.set d k v) = Dict.values d ++ [v].
Proof.
  intros H. rewrite set_fresh by exact H. unfold Dict.values.
  rewrite map_app. reflexivity.
Qed.

(** ** The mapping loader *)

Lemma mapping_lines_app (mode : string) (good rest : list row) (d0 : Dict.t) :
  mapping_lines mode (good ++ rest) d0 =
  (d <- mapping_lines mode good d0 ;; mapping_lines mode rest d).
Proof.
  revert d0. induction good as [|line good IH]; intros d0; simpl;
    [reflexivity|].
  destruct line as [|standard_name [|source_name tl]]; [reflexivity ..|].
  destruct (Dict.mem source_name d0); simpl; [reflexivity | apply IH].
Qed.

(** The source names of the rows loaded so far are the keys of the table. *)
Lemma mapping_lines_keys (mode : string) (lines : list row) (d0 d : Dict.t) :
  mapping_lines mode lines d0 = Ok d ->
  forall src, In src (Dict.keys d) <->
    In src (Dict.keys d0) \/
    exists line, In line lines /\ nth_error line 1 = Some src.
Proof.
  revert d0. induction lines as [|line lines IH]; intros d0 H src; simpl in *.
  - injection H as <-. split; [auto | intros [I|[l [[] _]]]; exact I].
  - destruct line as [|standard_name [|source_name tl]]; try discriminate.
    destruct (Dict.mem source_name d0); simpl in H; [discriminate|].
    rewrite (IH _ H src), keys_set. split.
    + intros [[->|I]|[l [I E]]]; auto.
      * right; eexists; split; [left; reflexivity | reflexivity].
      * right; exists l; auto.
    + intros [I|[l [[<-|I] E]]]; auto.
      * left; left. simpl in E. congruence.
      * right; exists l; auto.
Qed.

Lemma check_primary_keys_ok (keys : list string) (d : Dict.t) :
  (forall k, In k keys -> In k (Dict.values d)) ->
  check_primary_keys keys d = Ok tt.
Proof.
  induction keys as [|k keys IH]; simpl; intros H; [reflexivity|].
  assert (E : str_in k (Dict.values d) = true) by (apply str_in_In; auto).
  rewrite E. simpl. auto.
Qed.

Lemma check_primary_keys_raise (keys : list string) (d : Dict.t) :
  (exists k, In k keys /\ ~ In k (Dict.values d)) ->
  check_primary_keys keys d = Raise ConfigError.
Proof.
  induction keys as [|k keys IH]; simpl; intros [k0 [I N]]; [contradiction|].
  destruct (str_in k (Dict.values d)) eqn:E; simpl; [|reflexivity].
  apply IH. exists k0. split; [|exact N].
  destruct I as [<-|I]; [|exact I].
  apply str_in_In in E. contradiction.
Qed.

Lemma check_primary_keys_cases (keys : list string) (d : Dict.t) :
  (check_primary_keys keys d = Ok tt /\
   forall k, In k keys -> In k (Dict.values d)) \/
  (check_primary_keys keys d = Raise ConfigError /\
   exists k, In k keys /\ ~ In k (Dict.values d)).
Proof.
  induction keys as [|k keys IH]; simpl.
  - left; split; [reflexivity | contradiction].
  - destruct (str_in k (Dict.values d)) eqn:E; simpl.
    + apply str_in_In in E. destruct IH as [[H1 H2]|[H1 [k0 [I N]]]].
      * left; split; [exact H1 | intros k0 [<-|I]; auto].
      * right; split; [exact H1 | exists k0; auto].
    + right; split; [reflexivity|]. exists k. split; [auto|].
      apply str_in_not_In. exact E.
Qed.

Lemma mapping_lines_valid (mode : string) (lines : list row) (d0 : Dict.t) :
  valid_rows lines ->
  (forall line, In line lines -> ~ In (source_name_of line) (Dict.keys d0)) ->
  mapping_lines mode lines d0 = Ok (d0 ++ table_of lines).
Proof.
  revert d0. induction lines as [|line lines IH]; intros d0 [HF HN] HD; simpl.
  - rewrite app_nil_r. reflexivity.
  - inversion HF as [|? ? Hlen HF']; subst.
    simpl in HN. inversion HN as [|? ? Hnew HN']; subst.
    destruct line as [|standard_name [|source_name tl]];
      simpl in Hlen; try lia.
    assert (Hfresh : ~ In source_name (Dict.keys d0))
      by (apply (HD (standard_name :: source_name :: tl)); left; reflexivity).
    assert (Hmem : Dict.mem source_name d0 = false).
    { destruct (Dict.mem source_name d0) eqn:E; [|reflexivity].
      apply mem_keys in E. contradiction. }
    rewrite Hmem. simpl. rewrite set_fresh by exact Hfresh.
    rewrite IH.
    + rewrite <- app_assoc. reflexivity.
    + split; assumption.
    + intros l Hl. unfold Dict.keys. rewrite map_app, in_app_iff.
      intros [I|[E|[]]].
      * apply (HD l); [right; exact Hl | exact I].
      * simpl in E. apply Hnew. unfold source_name_of at 1. simpl.
        rewrite E. apply in_map. exact Hl.
Qed.

Lemma table_of_keys (lines : list row) :
  Dict.keys (table_of lines) = map source_name_of lines.
Proof.
  unfold Dict.keys, table_of. rewrite map_map. reflexivity.
Qed.

Lemma mapping_lines_short (mode : string) (bad : row) (rest : list row)
    (d : Dict.t) :
  List.length bad < 2 ->
  mapping_lines mode (bad :: rest) d = Raise (MappingFormatError mode).
Proof.
  intros H. destruct bad as [|a [|b tl]]; simpl in *; try reflexivity; lia.
Qed.

Lemma mapping_lines_duplicate (mode : string) (bad : row) (rest : list row)
    (d : Dict.t) :
  2 <= List.length bad ->
  In (source_name_of bad) (Dict.keys d) ->
  mapping_lines mode (bad :: rest) d = Raise DuplicateKeyError.
Proof.
  intros H I. destruct bad as [|a [|b tl]]; simpl in *; try lia.
  apply mem_keys in I. unfold source_name_of in I. simpl in I.
  rewrite I. reflexivity.
Qed.

Lemma mapping_lines_ok (mode : string) (lines : list row) (d0 d : Dict.t) :
  mapping_lines mode lines d0 = Ok d ->
  valid_rows lines /\
  forall line, In line lines -> ~ In (source_name_of line) (Dict.keys d0).
Proof.
  revert d0. induction lines as [|line lines IH]; intros d0 H.
  - split; [split; constructor | intros ? []].
  - destruct line as [|standard_name [|source_name tl]]; try discriminate.
    simpl in H. destruct (Dict.mem source_name d0) eqn:M; [discriminate|].
    simpl in H. destruct (IH _ H) as [[HF HN] HD].
    assert (Hfresh : ~ In source_name (Dict.keys d0)).
    { intros I. apply mem_keys in I. congruence. }
    split; [split|].
    + constructor; [simpl; lia | exact HF].
    + simpl. constructor; [|exact HN].
      intros I. apply in_map_iff in I. destruct I as [l [E I]].
      apply (HD l I). apply keys_set. left. exact E.
    + intros l [<-|I]; [exact Hfresh|].
      intros I'. apply (HD l I). apply keys_set. right. exact I'.
Qed.

(** C6.  A row with fewer than two columns makes the mapping loader fail with
    the format error, and a row whose source name an earlier row has makes it
    fail with the duplicate-key error.  When every row loads, the loader in
    mapping mode fails with the configuration error exactly when some
    configured primary key is no value of the table, and returns the table
    otherwise.  A table is returned only for rows of two columns at least
    with no source name twice, and in mapping mode it holds every configured
    primary key among its values. *)
Theorem make_mapping_dict_checks (primary_keys : list string) (mode : string)
    (headers : row) (lines : list row) :
  str_in mode ["mapping"; "translations"] = true ->
  (forall good bad rest,
      lines = good ++ bad :: rest -> valid_rows good ->
      (List.length bad < 2 ->
       make_mapping_dict primary_keys (headers :: lines) mode =
       Raise (MappingFormatError mode)) /\
      (2 <= List.length bad ->
       In (source_name_of bad) (map source_name_of good) ->
       make_mapping_dict primary_keys (headers :: lines) mode =
       Raise DuplicateKeyError)) /\
  (valid_rows lines -> mode = "mapping" ->
   (make_mapping_dict primary_keys (headers :: lines) mode = Raise ConfigError
    <-> exists k, In k primary_keys /\ ~ In k (Dict.values (table_of lines)))
   /\
   (make_mapping_dict primary_keys (headers :: lines) mode =
    Ok (table_of lines)
    <-> forall k, In k primary_keys -> In k (Dict.values (table_of lines))))
  /\
  (forall d,
     make_mapping_dict primary_keys (headers :: lines) mode = Ok d ->
     valid_rows lines /\ d = table_of lines /\
     (mode = "mapping" ->
      forall k, In k primary_keys -> In k (Dict.values d))).
Proof.
  intros Hmode. unfold make_mapping_dict. rewrite Hmode. simpl negb. cbv iota.
  split; [|split].
  - intros good bad rest -> Hgood.
    rewrite mapping_lines_app.
    rewrite (mapping_lines_valid mode good []) by (auto; intros ? ? []).
    cbn [app bind]. split; intros Hlen.
    + rewrite mapping_lines_short by exact Hlen. reflexivity.
    + intros Hdup.
      rewrite mapping_lines_duplicate; [reflexivity | exact Hlen |].
      rewrite table_of_keys. exact Hdup.
  - intros Hvalid ->.
    rewrite (mapping_lines_valid "mapping" lines []) by (auto; intros ? ? []).
    simpl.
    destruct (check_primary_keys_cases primary_keys (table_of lines))
      as [[E H]|[E H]]; rewrite E; simpl.
    + split; split; auto; try discriminate.
      intros [k [I N]]. exfalso. apply N. auto.
    + split; split; auto; try discriminate.
      intros Hall. destruct H as [k [I N]]. exfalso. apply N. auto.
  - intros d H.
    destruct (mapping_lines mode lines []) as [d'|] eqn:E;
      cbn [bind] in H; [|discriminate].
    destruct (mapping_lines_ok mode lines [] d' E) as [Hvalid _].
    rewrite (mapping_lines_valid mode lines []) in E
      by (auto; intros ? ? []).
    injection E as <-. cbn [app] in H.
    split; [exact Hvalid|].
    destruct (String.eqb_spec mode "mapping") as [->|N].
    + destruct (check_primary_keys_cases primary_keys (table_of lines))
        as [[E' H']|[E' H']]; rewrite E' in H; cbn [bind] in H;
        [|discriminate].
      injection H as <-. split; [reflexivity | intros _; exact H'].
    + injection H as <-. split; [reflexivity | intros E'; contradiction].
Qed.

(** ** Difference entries *)

Lemma chars_append (s t : string) :
  Str.chars (s ++ t)%string = Str.chars s ++ Str.chars t.
Proof.
  induction s as [|c s IH]; simpl; [reflexivity|].
  unfold Str.chars in *. simpl. rewrite IH. reflexivity.
Qed.

Lemma label_chars (key source_name : string) :
  Str.chars (label key source_name) =
  (Str.chars key ++ Str.chars "-[" ++ Str.chars source_name) ++ ["]"%char].
Proof.
  unfold label. rewrite !chars_append, <- !app_assoc. reflexivity.
Qed.

(** No column of a difference entry is named as the key is: a column name
    ends with a bracket. *)
Lemma label_not_primary_key (key source_name : string) :
  label key source_name <> "primary_key".
Proof.
  intros E. apply (f_equal Str.chars) in E. rewrite label_chars in E.
  apply (f_equal (fun l => last l "x"%char)) in E.
  rewrite last_last in E. discriminate.
Qed.

Lemma chars_injective (s t : string) : Str.chars s = Str.chars t -> s = t.
Proof.
  intros E. apply (f_equal Str.str) in E. unfold Str.str, Str.chars in E.
  rewrite !string_of_list_ascii_of_string in E. exact E.
Qed.

Lemma label_injective (key key' source_name : string) :
  label key source_name = label key' source_name -> key = key'.
Proof.
  intros E. apply (f_equal Str.chars) in E. rewrite !label_chars in E.
  apply app_inv_tail in E. apply app_inv_tail in E.
  apply chars_injective. exact E.
Qed.

Lemma in_non_key_fields (d : Dict.t) (f : string) :
  In f (non_key_fields d) <-> In f (Dict.keys d) /\ f <> "primary_key".
Proof.
  unfold non_key_fields, non_key. rewrite filter_In.
  destruct (String.eqb_spec f "primary_key"); simpl; intuition congruence.
Qed.

Section DifferenceFields.

Variables dict_1 dict_2 : Dict.t.
Variables source_1_name source_2_name : string.

(** The loop fails exactly on a field that the second record lacks. *)
Lemma difference_fields_cases (ks : list string) (acc : Dict.t) :
  (forall k, In k ks -> Dict.get dict_1 k <> None) ->
  ((exists f, In f (non_key ks) /\ Dict.get dict_2 f = None) /\
   difference_fields ks dict_1 dict_2 source_1_name source_2_name acc =
   Raise SchemaMismatchError) \/
  ((forall f, In f (non_key ks) -> Dict.get dict_2 f <> None) /\
   exists d,
     difference_fields ks dict_1 dict_2 source_1_name source_2_name acc =
     Ok d).
Proof.
  revert acc. induction ks as [|k ks IH]; intros acc H1; simpl.
  - right. split; [intros f [] | exists acc; reflexivity].
  - assert (H1' : forall k0, In k0 ks -> Dict.get dict_1 k0 <> None)
      by (intros k0 I; apply H1; right; exact I).
    destruct (String.eqb_spec k "primary_key") as [->|N]; simpl.
    + apply IH; exact H1'.
    + unfold Dict.getitem.
      destruct (Dict.get dict_1 k) as [v1|] eqn:E1;
        [|exfalso; apply (H1 k); [left; reflexivity | exact E1]].
      simpl. destruct (Dict.get dict_2 k) as [v2|] eqn:E2.
      * destruct (IH (Dict.set (Dict.set acc (label k source_1_name) v1)
                        (label k source_2_name)
                        (if String.eqb v1 v2 then "*same*" else v2)) H1')
          as [[[f [I E]] R]|[A [d R]]].
        -- left. split; [exists f; split; [right; exact I | exact E] | exact R].
        -- right. split; [|exists d; exact R].
           intros f [<-|I]; [congruence | apply A; exact I].
      * left. split; [|reflexivity]. exists k. split; [left; reflexivity | exact E2].
Qed.

(** When the column names are new and pairwise distinct, every assignment of
    the loop adds a column at the end. *)
Lemma difference_fields_columns (ks : list string) (acc : Dict.t) :
  (forall k, In k ks -> Dict.get dict_1 k <> None) ->
  (forall f, In f (non_key ks) -> Dict.get dict_2 f <> None) ->
  NoDup (Dict.keys acc ++ column_names (non_key ks) source_1_name source_2_name)
  ->
  difference_fields ks dict_1 dict_2 source_1_name source_2_name acc =
  Ok (acc ++
      flat_map (difference_columns dict_1 dict_2 source_1_name source_2_name)
        (non_key ks)).
Proof.
  revert acc. induction ks as [|k ks IH]; intros acc H1 H2 ND; simpl.
  - rewrite app_nil_r. reflexivity.
  - assert (H1' : forall k0, In k0 ks -> Dict.get dict_1 k0 <> None)
      by (intros k0 I; apply H1; right; exact I).
    simpl in ND, H2.
    destruct (String.eqb_spec k "primary_key") as [->|N]; simpl in *.
    + apply IH; assumption.
    + unfold Dict.getitem, difference_columns, value_of.
      destruct (Dict.get dict_1 k) as [v1|] eqn:E1;
        [|exfalso; apply (H1 k); [left; reflexivity | exact E1]].
      simpl. destruct (Dict.get dict_2 k) as [v2|] eqn:E2;
        [|exfalso; apply (H2 k); [left; reflexivity | exact E2]].
      assert (F1 : ~ In (label k source_1_name) (Dict.keys acc)).
      { intros I. apply NoDup_remove_2 in ND. apply ND.
        apply in_or_app. left. exact I. }
      rewrite (set_fresh acc _ _ F1).
      change (Dict.keys acc ++
              label k source_1_name :: label k source_2_name ::
              column_names (non_key ks) source_1_name source_2_name)
        with (Dict.keys acc ++
              [label k source_1_name] ++ label k source_2_name ::
              column_names (non_key ks) source_1_name source_2_name) in ND.
      rewrite app_assoc in ND.
      assert (K1 : Dict.keys (acc ++ [(label k source_1_name, v1)]) =
                   Dict.keys acc ++ [label k source_1_name])
        by (unfold Dict.keys; rewrite map_app; reflexivity).
      assert (F2 : ~ In (label k source_2_name)
                     (Dict.keys (acc ++ [(label k source_1_name, v1)]))).
      { rewrite K1. intros I. apply NoDup_remove_2 in ND. apply ND.
        apply in_or_app. left. exact I. }
      rewrite (set_fresh _ _ _ F2).
      rewrite IH.
      * rewrite <- !app_assoc. reflexivity.
      * exact H1'.
      * intros f I. apply H2. right. exact I.
      * unfold Dict.keys in *. rewrite !map_app. simpl.
        rewrite <- (app_assoc _ [label k source_2_name]). simpl. exact ND.
Qed.

End DifferenceFields.

Lemma difference_fields_primary_key (ks : list string)
    (dict_1 dict_2 : Dict.t) (n1 n2 : string) (acc d : Dict.t) :
  difference_fields ks dict_1 dict_2 n1 n2 acc = Ok d ->
  Dict.get d "primary_key" = Dict.get acc "primary_key".
Proof.
  revert acc. induction ks as [|k ks IH]; intros acc H; simpl in H.
  - injection H as <-. reflexivity.
  - destruct (String.eqb k "primary_key"); [apply IH; exact H|].
    inv_bind H. destruct (Dict.get dict_2 k); [|discriminate].
    apply IH in H. rewrite H.
    rewrite !get_set_other by apply label_not_primary_key. reflexivity.
Qed.

Lemma make_difference_entry_primary_key (dict_1 dict_2 : Dict.t)
    (n1 n2 : string) (d : Dict.t) :
  make_difference_entry dict_1 dict_2 n1 n2 = Ok d ->
  Dict.get d "primary_key" = Dict.get dict_1 "primary_key".
Proof.
  unfold make_difference_entry, Dict.getitem. intros H.
  destruct (Dict.get dict_1 "primary_key") as [pk_1|]; [|discriminate].
  destruct (Dict.get dict_2 "primary_key") as [pk_2|]; [|discriminate].
  simpl in H. destruct (negb (String.eqb pk_1 pk_2)); [discriminate|].
  apply difference_fields_primary_key in H. rewrite H. simpl. reflexivity.
Qed.

Lemma keys_get (d : Dict.t) (k : string) :
  In k (Dict.keys d) -> Dict.get d k <> None.
Proof.
  intros I E. apply get_None_keys in E. contradiction.
Qed.

(** C4, amended.  [make_difference_entry] fails with the key-mismatch error
    when the keys of the two records differ.  For equal keys it fails with
    the schema-mismatch error exactly when record 2 lacks a non-key field of
    record 1, and returns an entry otherwise; when the column names the
    fields and the two source names give are pairwise distinct, that entry
    is the key followed, for every non-key field of record 1 in its order,
    by the value of record 1 under the column of source 1 and the value of
    record 2, or the marker when the two are equal, under the column of
    source 2. *)
Theorem make_difference_entry_columns (dict_1 dict_2 : Dict.t)
    (source_1_name source_2_name pk_1 pk_2 : string) :
  Dict.get dict_1 "primary_key" = Some pk_1 ->
  Dict.get dict_2 "primary_key" = Some pk_2 ->
  (pk_1 <> pk_2 ->
   make_difference_entry dict_1 dict_2 source_1_name source_2_name =
   Raise KeyMismatchError) /\
  (pk_1 = pk_2 ->
   (make_difference_entry dict_1 dict_2 source_1_name source_2_name =
    Raise SchemaMismatchError
    <-> exists f, In f (non_key_fields dict_1) /\ Dict.get dict_2 f = None)
   /\
   ((forall f, In f (non_key_fields dict_1) -> Dict.get dict_2 f <> None) ->
    (exists entry,
       make_difference_entry dict_1 dict_2 source_1_name source_2_name =
       Ok entry) /\
    (NoDup (column_names (non_key_fields dict_1) source_1_name source_2_name)
     ->
     make_difference_entry dict_1 dict_2 source_1_name source_2_name =
     Ok (("primary_key", pk_1) ::
         flat_map
           (difference_columns dict_1 dict_2 source_1_name source_2_name)
           (non_key_fields dict_1))))).
Proof.
  intros E1 E2. unfold make_difference_entry, Dict.getitem.
  rewrite E1, E2. cbn [bind]. split.
  - intros N. apply String.eqb_neq in N. rewrite N. reflexivity.
  - intros <-. rewrite String.eqb_refl. cbn [negb].
    pose proof (difference_fields_cases dict_1 dict_2 source_1_name
                  source_2_name (Dict.keys dict_1) [("primary_key", pk_1)]
                  (keys_get dict_1)) as C.
    cbv beta in C. fold (non_key_fields dict_1) in C. split; [split|].
    + intros R. destruct C as [[A _]|[_ [d R']]]; [exact A | congruence].
    + intros [f [I E]]. destruct C as [[_ R]|[A _]]; [exact R|].
      exfalso. apply (A f I E).
    + intros A. split.
      * destruct C as [[[f [I E]] _]|[_ R]]; [|exact R].
        exfalso. apply (A f I E).
      * intros ND.
        apply (difference_fields_columns dict_1 dict_2 source_1_name
                 source_2_name (Dict.keys dict_1) [("primary_key", pk_1)]
                 (keys_get dict_1) A).
        simpl. constructor; [|exact ND].
        unfold column_names. rewrite in_flat_map.
        intros [f [_ [L|[L|[]]]]]; exact (label_not_primary_key _ _ L).
Qed.

(** C4, as stated, fails when the two sources have one name: the column of
    source 1 then holds what was written under the column of source 2. *)
Lemma make_difference_entry_same_name :
  let dict_1 := [("primary_key", "9"); ("status", "active")] in
  let dict_2 := [("primary_key", "9"); ("status", "active")] in
  exists entry,
    make_difference_entry dict_1 dict_2 "S" "S" = Ok entry /\
    In "status" (non_key_fields dict_1) /\
    Dict.get dict_1 "status" = Some "active" /\
    Dict.get entry (label "status" "S") = Some "*same*" /\
    Dict.get entry (label "status" "S") <> Dict.get dict_1 "status".
Proof.
  eexists. split; [reflexivity|].
  split; [left; reflexivity|].
  split; [reflexivity|]. split; [reflexivity | discriminate].
Qed.

Lemma make_difference_entry_columns_witness :
  make_difference_entry
    [("primary_key", "9"); ("status", "active")]
    [("primary_key", "9"); ("status", "closed")] "S1" "S2" =
  Ok [("primary_key", "9"); ("status-[S1]", "active");
      ("status-[S2]", "closed")].
Proof.
  pose proof (make_difference_entry_columns
                [("primary_key", "9"); ("status", "active")]
                [("primary_key", "9"); ("status", "closed")] "S1" "S2"
                "9" "9" eq_refl eq_refl) as [_ H].
  destruct (H eq_refl) as [_ H'].
  assert (A : forall f,
             In f (non_key_fields
                     [("primary_key", "9"); ("status", "active")]) ->
             Dict.get [("primary_key", "9"); ("status", "closed")] f <> None).
  { intros f [<-|[]]. discriminate. }
  destruct (H' A) as [_ H''].
  apply H''. simpl. repeat constructor; simpl; intuition discriminate.
Defined.

(** ** [normalize] *)

Example normalize_bond : normalize "  Bond " = "bond".
Proof. reflexivity. Qed.

Lemma lower_char_not_upper (c : ascii) : Str.is_upper (Str.lower_char c) = false.
Proof.
  destruct c as [[] [] [] [] [] [] [] []]; vm_compute; reflexivity.
Qed.

Lemma chars_str (l : list ascii) : Str.chars (Str.str l) = l.
Proof. apply list_ascii_of_string_of_list_ascii. Qed.

Lemma dropwhile_suffix (p : ascii -> bool) (l : list ascii) :
  exists pre, l = pre ++ Str.dropwhile p l.
Proof.
  induction l as [|c l [pre IH]]; simpl.
  - exists []. reflexivity.
  - destruct (p c).
    + exists (c :: pre). simpl. f_equal. exact IH.
    + exists []. reflexivity.
Qed.

Lemma dropwhile_head (p : ascii -> bool) (l : list ascii) c l' :
  Str.dropwhile p l = c :: l' -> p c = false.
Proof.
  induction l as [|c0 l IH]; simpl; [discriminate|].
  destruct (p c0) eqn:E; [exact IH|].
  intros H. injection H as <- _. exact E.
Qed.

Lemma dropwhile_In (p : ascii -> bool) (l : list ascii) c :
  In c (Str.dropwhile p l) -> In c l.
Proof.
  destruct (dropwhile_suffix p l) as [pre E]. intros I.
  rewrite E. apply in_or_app. right. exact I.
Qed.

Lemma normalize_chars (x : string) :
  Str.chars (normalize x) =
  rev (Str.dropwhile Str.is_space
         (rev (Str.dropwhile Str.is_space
                 (map Str.lower_char (Str.chars x))))).
Proof.
  unfold normalize, Str.strip, Str.lower. rewrite !chars_str. reflexivity.
Qed.

Lemma normalize_no_upper (x : string) : has_upper (normalize x) = false.
Proof.
  unfold has_upper. rewrite normalize_chars.
  destruct (existsb Str.is_upper _) eqn:E; [|reflexivity].
  apply existsb_exists in E. destruct E as [c [I U]].
  apply in_rev, dropwhile_In in I. apply in_rev, dropwhile_In in I.
  apply in_map_iff in I. destruct I as [c0 [<- _]].
  rewrite lower_char_not_upper in U. discriminate.
Qed.

Lemma normalize_no_trailing_space (x : string) :
  ends_with_space (normalize x) = false.
Proof.
  unfold ends_with_space. rewrite normalize_chars, rev_involutive.
  destruct (Str.dropwhile Str.is_space _) as [|c l] eqn:E; [reflexivity|].
  apply dropwhile_head in E. exact E.
Qed.

Lemma normalize_no_leading_space (x : string) :
  starts_with_space (normalize x) = false.
Proof.
  unfold starts_with_space. rewrite normalize_chars.
  set (L := Str.dropwhile Str.is_space (map Str.lower_char (Str.chars x))).
  destruct (dropwhile_suffix Str.is_space (rev L)) as [pre E].
  apply (f_equal (@rev ascii)) in E. rewrite rev_involutive, rev_app_distr in E.
  destruct (rev (Str.dropwhile Str.is_space (rev L))) as [|c l];
    [reflexivity|].
  simpl in E. unfold L in E. apply dropwhile_head in E. exact E.
Qed.

(** No value that holds an upper-case letter, or starts or ends with white
    space, is a normalized value. *)
Lemma normalize_range (w : string) :
  has_upper w || starts_with_space w || ends_with_space w = true ->
  forall x, normalize x <> w.
Proof.
  intros H x <-.
  rewrite normalize_no_upper, normalize_no_leading_space,
    normalize_no_trailing_space in H.
  discriminate.
Qed.

(** ** Records of a source *)

Lemma assign_get_other (kvs : list (string * string)) (d : Dict.t)
    (k : string) :
  ~ In k (map fst kvs) -> Dict.get (assign d kvs) k = Dict.get d k.
Proof.
  revert d. induction kvs as [|[k' v'] kvs IH]; intros d H; simpl in *;
    [reflexivity|].
  unfold assign in *. simpl. rewrite IH by tauto.
  apply get_set_other. intros E. apply H. left. exact E.
Qed.

Lemma assign_keys (kvs : list (string * string)) (d : Dict.t) (k : string) :
  In k (Dict.keys (assign d kvs)) <-> In k (Dict.keys d) \/ In k (map fst kvs).
Proof.
  revert d. induction kvs as [|[k' v'] kvs IH]; intros d; simpl.
  - tauto.
  - unfold assign in *. simpl. rewrite IH, keys_set. intuition.
Qed.

Lemma assign_values (P : string -> Prop) (kvs : list (string * string))
    (d : Dict.t) :
  (forall k v, Dict.get d k = Some v -> P v) ->
  Forall (fun kv => P (snd kv)) kvs ->
  forall k v, Dict.get (assign d kvs) k = Some v -> P v.
Proof.
  revert d. induction kvs as [|[k' v'] kvs IH]; intros d Hd Hk; simpl.
  - exact Hd.
  - inversion Hk as [|? ? Hv Hk']; subst. unfold assign in *. simpl.
    apply IH; [|exact Hk'].
    intros k v. destruct (String.eqb_spec k' k) as [->|N].
    + rewrite get_set_same. intros E. injection E as <-. exact Hv.
    + rewrite get_set_other by exact N. apply Hd.
Qed.

(** What the scan of the headers leaves: the positions kept are positions of
    the header row, and the renamed header at the position of a kept column
    is its standard name. *)
Lemma scan_headers_retained (primary_keys : list string) (mapping_dict : Dict.t)
    (headers : list string) (idx : nat) :
  let '(headers', pk_indices, headers_to_compare) :=
    scan_headers primary_keys mapping_dict idx headers in
  map (fun hi => nth_error headers' (snd hi - idx)) headers_to_compare =
  map Some (retained_fields primary_keys mapping_dict headers) /\
  Forall (fun hi => idx <= snd hi < idx + List.length headers)
    headers_to_compare /\
  Forall (fun i => idx <= i < idx + List.length headers) pk_indices /\
  List.length headers' = List.length headers.
Proof.
  revert idx. induction headers as [|header rest IH]; intros idx; simpl.
  - repeat split; constructor.
  - specialize (IH (S idx)).
    destruct (scan_headers primary_keys mapping_dict (S idx) rest)
      as [[headers' pk_indices] headers_to_compare].
    destruct IH as [Hn [Hc [Hp Hl]]].
    assert (Hshift : forall x : string,
               map (fun hi => nth_error (x :: headers') (snd hi - idx))
                 headers_to_compare =
               map (fun hi => nth_error headers' (snd hi - S idx))
                 headers_to_compare).
    { intros x. apply map_ext_in. intros hi I.
      rewrite Forall_forall in Hc. specialize (Hc hi I).
      replace (snd hi - idx) with (S (snd hi - S idx)) by lia. reflexivity. }
    assert (Hc' : Forall (fun hi => idx <= snd hi < idx + S (List.length rest))
                    headers_to_compare)
      by (eapply Forall_impl; [|exact Hc]; simpl; intros; lia).
    assert (Hp' : Forall (fun i => idx <= i < idx + S (List.length rest))
                    pk_indices)
      by (eapply Forall_impl; [|exact Hp]; simpl; intros; lia).
    destruct (Dict.get mapping_dict header) as [standard_name|].
    + destruct (str_in standard_name primary_keys); simpl.
      * rewrite Hshift. repeat split; auto.
        constructor; [lia | exact Hp'].
      * rewrite Hshift, Nat.sub_diag. simpl. rewrite Hn.
        repeat split; auto. constructor; [simpl; lia | exact Hc'].
    + simpl. rewrite Hshift. repeat split; auto.
Qed.

Lemma build_pk_total (pk_indices : list nat) (entry : row) (pk : string) :
  Forall (fun i => i < List.length entry) pk_indices ->
  exists pk', build_pk pk_indices entry pk = Ok pk'.
Proof.
  revert pk. induction pk_indices as [|i rest IH]; intros pk H; simpl.
  - exists pk. reflexivity.
  - inversion H as [|? ? Hi H']; subst. unfold index.
    destruct (nth_error entry i) eqn:E.
    + simpl. apply IH. exact H'.
    + apply nth_error_None in E. lia.
Qed.

Lemma build_pk_raise (pk_indices : list nat) (entry : row) (pk : string) e :
  build_pk pk_indices entry pk = Raise e ->
  e = IndexError "list index out of range".
Proof.
  revert pk. induction pk_indices as [|i rest IH]; intros pk; simpl;
    [discriminate|].
  unfold index. destruct (nth_error entry i); simpl.
  - apply IH.
  - intros H. injection H as <-. reflexivity.
Qed.

(** The fields of a record are assigned under the retained standard names, in
    the order of the columns, and hold normalized values. *)
Lemma build_fields_assign (translations_dict : Dict.t) (headers : list string)
    (headers_to_compare : list (string * nat)) (entry : row)
    (names : list string) (acc d : Dict.t) :
  map (fun hi => nth_error headers (snd hi)) headers_to_compare =
  map Some names ->
  build_fields translations_dict headers headers_to_compare entry acc = Ok d ->
  exists kvs,
    map fst kvs = names /\
    Forall (fun kv => exists x, snd kv = normalize x) kvs /\
    d = assign acc kvs.
Proof.
  revert names acc.
  induction headers_to_compare as [|[header i] rest IH];
    intros names acc Hn H; simpl in *.
  - destruct names; [|discriminate]. injection H as <-.
    exists []. repeat split. constructor.
  - destruct names as [|name names]; [discriminate|].
    injection Hn as Hi Hn.
    inv_bind H. unfold index in H. rewrite Hi in H. simpl in H.
    destruct (IH names _ Hn H) as [kvs [Hk [Hv ->]]].
    eexists ((name, _) :: kvs). split; [simpl; f_equal; exact Hk|].
    split; [|reflexivity].
    constructor; [|exact Hv]. simpl.
    destruct (Dict.get translations_dict a); eexists; reflexivity.
Qed.

Lemma build_fields_total (translations_dict : Dict.t) (headers : list string)
    (headers_to_compare : list (string * nat)) (entry : row) (acc : Dict.t) :
  Forall (fun hi => snd hi < List.length headers /\
                    snd hi < List.length entry) headers_to_compare ->
  exists d,
    build_fields translations_dict headers headers_to_compare entry acc = Ok d.
Proof.
  revert acc. induction headers_to_compare as [|[header i] rest IH];
    intros acc H; simpl.
  - exists acc. reflexivity.
  - inversion H as [|? ? [Hh He] H']; subst. simpl in Hh, He. unfold index.
    destruct (nth_error entry i) eqn:E1;
      [|apply nth_error_None in E1; lia].
    destruct (nth_error headers i) eqn:E2;
      [|apply nth_error_None in E2; lia].
    simpl. apply IH. exact H'.
Qed.

Lemma build_fields_raise (translations_dict : Dict.t) (headers : list string)
    (headers_to_compare : list (string * nat)) (entry : row) (acc : Dict.t) e :
  build_fields translations_dict headers headers_to_compare entry acc =
  Raise e ->
  e = IndexError "list index out of range".
Proof.
  revert acc. induction headers_to_compare as [|[header i] rest IH];
    intros acc; simpl; [discriminate|].
  unfold index. destruct (nth_error entry i); simpl.
  - destruct (nth_error headers i); simpl; [apply IH|].
    intros H. injection H as <-. reflexivity.
  - intros H. injection H as <-. reflexivity.
Qed.

(** The record of a row: its key is the normalized composite key unless a
    kept column is named as the key is; its fields are the key and the
    retained names; its values are normalized. *)
Lemma record_of_shape (primary_keys : list string)
    (mapping_dict translations_dict : Dict.t) (headers : list string)
    (entry : row) (pk : string) (d : Dict.t) :
  record_of primary_keys mapping_dict translations_dict headers entry =
  Ok (pk, d) ->
  (~ In "primary_key" (retained_fields primary_keys mapping_dict headers) ->
   pk_of d = Some (normalize pk)) /\
  pk_of d <> None /\
  (forall k, In k (Dict.keys d) <->
     k = "primary_key" \/
     In k (retained_fields primary_keys mapping_dict headers)) /\
  (forall k v, Dict.get d k = Some v -> exists x, v = normalize x).
Proof.
  unfold record_of.
  pose proof (scan_headers_retained primary_keys mapping_dict headers 0) as S.
  destruct (scan_headers primary_keys mapping_dict 0 headers)
    as [[headers' pk_indices] headers_to_compare].
  destruct S as [Hn _]. unfold build_entry. intros H.
  inv_bind H. inv_bind H. injection H as -> ->.
  assert (Hn' : map (fun hi => nth_error headers' (snd hi)) headers_to_compare
                = map Some (retained_fields primary_keys mapping_dict headers)).
  { rewrite <- Hn. apply map_ext. intros hi. rewrite Nat.sub_0_r.
    reflexivity. }
  destruct (build_fields_assign _ _ _ _ _ _ _ Hn' Ha0) as [kvs [Hk [Hv ->]]].
  assert (Hkeys : forall k,
             In k (Dict.keys (assign [("primary_key", normalize pk)] kvs)) <->
             k = "primary_key" \/
             In k (retained_fields primary_keys mapping_dict headers)).
  { intros k. rewrite assign_keys, Hk. simpl. intuition. }
  split; [|split; [|split]].
  - intros N. unfold pk_of. rewrite assign_get_other by (rewrite Hk; exact N).
    reflexivity.
  - unfold pk_of. apply keys_get. apply Hkeys. left. reflexivity.
  - exact Hkeys.
  - apply assign_values with (P := fun v => exists x, v = normalize x);
      [|exact Hv].
    intros k v. cbn [Dict.get].
    destruct (String.eqb "primary_key" k); [|discriminate].
    intros E. injection E as <-. eexists. reflexivity.
Qed.

Lemma record_of_raise (primary_keys : list string)
    (mapping_dict translations_dict : Dict.t) (headers : list string)
    (entry : row) e :
  record_of primary_keys mapping_dict translations_dict headers entry =
  Raise e ->
  e = IndexError "list index out of range".
Proof.
  unfold record_of.
  destruct (scan_headers primary_keys mapping_dict 0 headers)
    as [[headers' pk_indices] headers_to_compare].
  unfold build_entry. intros H.
  apply bind_raise_inv in H. destruct H as [H|[pk [_ H]]].
  - apply build_pk_raise in H. exact H.
  - apply bind_raise_inv in H. destruct H as [H|[d [_ H]]]; [|discriminate].
    apply build_fields_raise in H. exact H.
Qed.

(** A row with a cell for every header gives a record. *)
Lemma record_of_total (primary_keys : list string)
    (mapping_dict translations_dict : Dict.t) (headers : list string)
    (entry : row) :
  List.length headers <= List.length entry ->
  exists pk d,
    record_of primary_keys mapping_dict translations_dict headers entry =
    Ok (pk, d).
Proof.
  intros Hlen. unfold record_of.
  pose proof (scan_headers_retained primary_keys mapping_dict headers 0) as S.
  destruct (scan_headers primary_keys mapping_dict 0 headers)
    as [[headers' pk_indices] headers_to_compare].
  destruct S as [_ [Hc [Hp Hl]]]. unfold build_entry.
  destruct (build_pk_total pk_indices entry "") as [pk Epk].
  { eapply Forall_impl; [|exact Hp]. simpl. intros; lia. }
  rewrite Epk. simpl.
  destruct (build_fields_total translations_dict headers' headers_to_compare
              entry [("primary_key", normalize pk)]) as [d Ed].
  { eapply Forall_impl; [|exact Hc]. simpl. intros; lia. }
  rewrite Ed. simpl. exists pk, d. reflexivity.
Qed.

(** ** The filter *)

Lemma filter_ignore_cases (filtering_list : list (string * string))
    (d : Dict.t) (ignore : bool) :
  ((forall rule, In rule filtering_list -> Dict.get d (fst rule) <> None) /\
   filter_ignore filtering_list d ignore =
   Ok (ignore || existsb (rule_matches d) filtering_list)) \/
  (exists k, In k (map fst filtering_list) /\ Dict.get d k = None /\
             filter_ignore filtering_list d ignore = Raise (KeyError k)).
Proof.
  revert ignore. induction filtering_list as [|[f v] rest IH]; intros ignore;
    simpl.
  - left. split; [intros ? [] | rewrite orb_false_r; reflexivity].
  - unfold Dict.getitem, rule_matches. simpl.
    destruct (Dict.get d f) as [x|] eqn:E; simpl.
    + destruct (IH (if String.eqb x v then true else ignore))
        as [[A R]|[k [I [N R]]]].
      * left. split.
        -- intros rule [<-|I]; [simpl; congruence | apply A; exact I].
        -- rewrite R. f_equal. unfold rule_matches.
           destruct (String.eqb x v), ignore; reflexivity.
      * right. exists k. auto.
    + right. exists f. auto.
Qed.

Lemma filter_ignore_raise (filtering_list : list (string * string))
    (d : Dict.t) (ignore : bool) (f v : string) :
  In (f, v) filtering_list -> Dict.get d f = None ->
  exists k, In k (map fst filtering_list) /\ Dict.get d k = None /\
            filter_ignore filtering_list d ignore = Raise (KeyError k).
Proof.
  intros I N. destruct (filter_ignore_cases filtering_list d ignore)
    as [[A _]|H]; [|exact H].
  exfalso. apply (A (f, v) I). exact N.
Qed.

Lemma read_row_record (primary_keys : list string)
    (mapping_dict translations_dict : Dict.t)
    (filtering_list : list (string * string)) (headers : list string)
    (st : source_state) (entry : row) :
  read_row primary_keys mapping_dict translations_dict filtering_list headers
    st entry =
  (built <- record_of primary_keys mapping_dict translations_dict headers
              entry ;;
   ignore <- filter_ignore filtering_list (snd built) false ;;
   if ignore then Ok st else populate st (fst built) (snd built)).
Proof.
  unfold read_row, record_of.
  destruct (scan_headers primary_keys mapping_dict 0 headers)
    as [[headers' pk_indices] headers_to_compare].
  unfold process_entry.
  destruct (build_entry _ _ _ _ _) as [[pk d]|]; reflexivity.
Qed.

Lemma read_rows_cons (primary_keys : list string)
    (mapping_dict translations_dict : Dict.t)
    (filtering_list : list (string * string)) (headers : list string)
    (entry : row) (rows : list row) (st : source_state) :
  read_rows primary_keys mapping_dict translations_dict filtering_list headers
    (entry :: rows) st =
  (st' <- read_row primary_keys mapping_dict translations_dict filtering_list
            headers st entry ;;
   read_rows primary_keys mapping_dict translations_dict filtering_list
     headers rows st').
Proof.
  unfold read_rows, read_row.
  destruct (scan_headers primary_keys mapping_dict 0 headers)
    as [[headers' pk_indices] headers_to_compare].
  reflexivity.
Qed.

Lemma read_rows_nil (primary_keys : list string)
    (mapping_dict translations_dict : Dict.t)
    (filtering_list : list (string * string)) (headers : list string)
    (st : source_state) :
  read_rows primary_keys mapping_dict translations_dict filtering_list headers
    [] st = Ok st.
Proof.
  unfold read_rows.
  destruct (scan_headers primary_keys mapping_dict 0 headers)
    as [[headers' pk_indices] headers_to_compare].
  reflexivity.
Qed.

Lemma read_rows_app (primary_keys : list string)
    (mapping_dict translations_dict : Dict.t)
    (filtering_list : list (string * string)) (headers : list string)
    (before after : list row) (st : source_state) :
  read_rows primary_keys mapping_dict translations_dict filtering_list headers
    (before ++ after) st =
  (st' <- read_rows primary_keys mapping_dict translations_dict
            filtering_list headers before st ;;
   read_rows primary_keys mapping_dict translations_dict filtering_list
     headers after st').
Proof.
  revert st. induction before as [|entry before IH]; intros st.
  - simpl. rewrite read_rows_nil. reflexivity.
  - simpl app. rewrite !read_rows_cons.
    destruct (read_row _ _ _ _ _ _ _) as [st'|]; simpl; [apply IH|reflexivity].
Qed.

Lemma read_source_csv_rows (primary_keys : list string)
    (mapping_dict translations_dict : Dict.t)
    (filtering_list : list (string * string)) (headers : list string)
    (rows : list row) :
  read_source_csv primary_keys (headers :: rows) mapping_dict translations_dict
    filtering_list =
  (st <- read_rows primary_keys mapping_dict translations_dict filtering_list
           headers rows (mk_source_state [] [] [] []) ;;
   entries <- sort_by_primary_key (entries st) ;;
   duplicates <- sort_by_primary_key (duplicates st) ;;
   Ok (entries, missing_pks st, duplicates)).
Proof.
  unfold read_source_csv, read_rows.
  destruct (scan_headers primary_keys mapping_dict 0 headers)
    as [[headers' pk_indices] headers_to_compare].
  reflexivity.
Qed.

(** C5.  A row whose record holds, under the field of some filter rule, the
    value the rule forbids leaves the index, the key-less list, the
    duplicates and the keys seen as they were (or the lookup of another
    rule's field fails and nothing is returned); the results of a source are
    those of the source without the row. *)
Theorem filtered_row_dropped (primary_keys : list string)
    (mapping_dict translations_dict : Dict.t)
    (filtering_list : list (string * string)) (headers : list string)
    (entry : row) (pk : string) (d : Dict.t) :
  record_of primary_keys mapping_dict translations_dict headers entry =
  Ok (pk, d) ->
  existsb (rule_matches d) filtering_list = true ->
  (forall st,
     read_row primary_keys mapping_dict translations_dict filtering_list
       headers st entry = Ok st \/
     exists k,
       read_row primary_keys mapping_dict translations_dict filtering_list
         headers st entry = Raise (KeyError k)) /\
  (forall before after results,
     read_source_csv primary_keys (headers :: before ++ entry :: after)
       mapping_dict translations_dict filtering_list = Ok results ->
     read_source_csv primary_keys (headers :: before ++ after)
       mapping_dict translations_dict filtering_list = Ok results).
Proof.
  intros Hrec Hmatch.
  assert (Hrow : forall st,
             read_row primary_keys mapping_dict translations_dict
               filtering_list headers st entry = Ok st \/
             exists k,
               read_row primary_keys mapping_dict translations_dict
                 filtering_list headers st entry = Raise (KeyError k)).
  { intros st. rewrite read_row_record, Hrec. cbn [bind fst snd].
    destruct (filter_ignore_cases filtering_list d false)
      as [[_ R]|[k [_ [_ R]]]]; rewrite R; cbn [bind].
    - rewrite Hmatch. left. reflexivity.
    - right. exists k. reflexivity. }
  split; [exact Hrow|].
  intros before after results. rewrite !read_source_csv_rows, !read_rows_app.
  destruct (read_rows _ _ _ _ _ before _) as [st|]; cbn [bind]; [|discriminate].
  rewrite read_rows_cons.
  destruct (Hrow st) as [R|[k R]]; rewrite R; cbn [bind];
    [auto | discriminate].
Qed.

(** C9.  When a filter rule names a field that is neither the key nor a
    retained standard name of the source, a source with a data row returns
    nothing: reading it raises.  The exception is the failed lookup of such
    a field in the record of the first row, unless that row is too short to
    give a record, which raises the index error; a first row with a cell for
    every header raises the lookup error. *)
Theorem unknown_filter_field_raises (primary_keys : list string)
    (mapping_dict translations_dict : Dict.t)
    (filtering_list : list (string * string)) (headers : list string)
    (entry : row) (rows : list row) (f v : string) :
  In (f, v) filtering_list ->
  f <> "primary_key" ->
  ~ In f (retained_fields primary_keys mapping_dict headers) ->
  exists e,
    read_source_csv primary_keys (headers :: entry :: rows) mapping_dict
      translations_dict filtering_list = Raise e /\
    ((e = IndexError "list index out of range" /\
      record_of primary_keys mapping_dict translations_dict headers entry =
      Raise e) \/
     (exists pk d k,
        record_of primary_keys mapping_dict translations_dict headers entry =
        Ok (pk, d) /\
        e = KeyError k /\ In k (map fst filtering_list) /\
        Dict.get d k = None)) /\
    (List.length headers <= List.length entry -> exists k, e = KeyError k).
Proof.
  intros Hrule Hpk Hret.
  rewrite read_source_csv_rows, read_rows_cons, read_row_record.
  destruct (record_of primary_keys mapping_dict translations_dict headers
              entry) as [[pk d]|e] eqn:Hrec.
  - pose proof (record_of_shape _ _ _ _ _ _ _ Hrec) as [_ [_ [Hkeys _]]].
    assert (Hnone : Dict.get d f = None).
    { apply get_None_keys. rewrite Hkeys. intros [E|I]; contradiction. }
    destruct (filter_ignore_raise filtering_list d false f v Hrule Hnone)
      as [k [Ik [Nk R]]].
    exists (KeyError k). cbn [bind fst snd]. rewrite R. cbn [bind].
    split; [reflexivity|]. split.
    + right. exists pk, d, k. auto.
    + intros _. exists k. reflexivity.
  - pose proof (record_of_raise _ _ _ _ _ _ Hrec) as ->.
    exists (IndexError "list index out of range"). cbn [bind].
    split; [reflexivity|]. split.
    + left. auto.
    + intros Hlen.
      destruct (record_of_total primary_keys mapping_dict translations_dict
                  headers entry Hlen) as [pk [d E]].
      congruence.
Qed.

Lemma unknown_filter_field_raises_witness :
  exists e,
    read_source_csv ["id"] [["ID"; "Name"]; ["7"; "Bond"]]
      [("ID", "id"); ("Name", "full_name")] [] [("school", "mit")] = Raise e /\
    exists k, e = KeyError k.
Proof.
  destruct (unknown_filter_field_raises ["id"]
              [("ID", "id"); ("Name", "full_name")] [] [("school", "mit")]
              ["ID"; "Name"] ["7"; "Bond"] [] "school" "mit")
    as [e [R [_ K]]].
  - left. reflexivity.
  - discriminate.
  - simpl. intuition discriminate.
  - exists e. split; [exact R|]. apply K. simpl. lia.
Defined.

Lemma rule_matches_normalized (d : Dict.t) (f w : string) :
  (forall k v, Dict.get d k = Some v -> exists x, v = normalize x) ->
  has_upper w || starts_with_space w || ends_with_space w = true ->
  rule_matches d (f, w) = false.
Proof.
  intros Hnorm Hw. unfold rule_matches. simpl.
  destruct (Dict.get d f) as [v|] eqn:E; [|reflexivity]. simpl.
  apply String.eqb_neq. destruct (Hnorm f v E) as [x ->].
  apply normalize_range. exact Hw.
Qed.

Lemma existsb_rule_removed (d : Dict.t) (rule : string * string)
    (before after : list (string * string)) :
  rule_matches d rule = false ->
  existsb (rule_matches d) (before ++ rule :: after) =
  existsb (rule_matches d) (before ++ after).
Proof.
  intros H. rewrite !existsb_app. simpl. rewrite H. reflexivity.
Qed.

Lemma filtering_lines_verbatim (lines : list row)
    (acc : list (string * string)) :
  Forall (fun line => 2 <= List.length line) lines ->
  filtering_lines lines acc = Ok (acc ++ rules_of lines).
Proof.
  revert acc. induction lines as [|line lines IH]; intros acc H; simpl.
  - rewrite app_nil_r. reflexivity.
  - inversion H as [|? ? Hlen H']; subst.
    destruct line as [|fieldname [|value tl]]; simpl in Hlen; try lia.
    simpl. rewrite IH by exact H'. rewrite <- app_assoc. reflexivity.
Qed.

(** On strings of characters below U+0100: the rules are the cells of the
    filtering file as they are, the values of a record are normalized, and a
    rule whose value holds an upper-case letter, or starts or ends with
    white space, matches no record; a row that a filter list with such a
    rule drops is dropped by the list without the rule too. *)
Lemma latin1_rule_never_drops (primary_keys : list string)
    (mapping_dict translations_dict : Dict.t) (headers : list string)
    (entry : row) (pk : string) (d : Dict.t) (f w : string) :
  record_of primary_keys mapping_dict translations_dict headers entry =
  Ok (pk, d) ->
  has_upper w || starts_with_space w || ends_with_space w = true ->
  (forall filter_headers lines,
     Forall (fun line => 2 <= List.length line) lines ->
     make_filtering_list (filter_headers :: lines) = Ok (rules_of lines)) /\
  (forall k v, Dict.get d k = Some v -> exists x, v = normalize x) /\
  Dict.get d f <> Some w /\
  rule_matches d (f, w) = false /\
  filter_ignore [(f, w)] d false <> Ok true /\
  (forall before after,
     filter_ignore (before ++ (f, w) :: after) d false = Ok true ->
     filter_ignore (before ++ after) d false = Ok true).
Proof.
  intros Hrec Hw.
  pose proof (record_of_shape _ _ _ _ _ _ _ Hrec) as [_ [_ [_ Hnorm]]].
  pose proof (rule_matches_normalized d f w Hnorm Hw) as Hno.
  split; [|split; [exact Hnorm|split; [|split; [exact Hno|split]]]].
  - intros filter_headers lines H. simpl.
    apply (filtering_lines_verbatim lines [] H).
  - intros E. destruct (Hnorm f w E) as [x Ex]. symmetry in Ex.
    revert Ex. apply normalize_range. exact Hw.
  - destruct (filter_ignore_cases [(f, w)] d false) as [[_ R]|[k [_ [_ R]]]];
      rewrite R; [|discriminate].
    simpl. rewrite Hno. discriminate.
  - intros before after H.
    destruct (filter_ignore_cases (before ++ (f, w) :: after) d false)
      as [[A R]|[k [_ [_ R]]]]; [|congruence].
    rewrite R in H. injection H as H.
    rewrite existsb_rule_removed in H by exact Hno.
    destruct (filter_ignore_cases (before ++ after) d false)
      as [[_ R']|[k [I [N _]]]].
    + rewrite R'. simpl in *. rewrite H. reflexivity.
    + exfalso. apply in_map_iff in I. destruct I as [rule [<- I]].
      apply (A rule); [|exact N].
      apply in_app_or in I. apply in_or_app.
      destruct I as [I|I]; [left | right; right]; exact I.
Qed.

(** ** The filter on strings of any characters *)

Lemma text_eqb_eq (a b : Unicode.text) : Unicode.eqb a b = true <-> a = b.
Proof.
  revert b. induction a as [|c a IH]; intros [|d b]; simpl;
    try (split; [discriminate | discriminate]); [tauto|].
  rewrite andb_true_iff, N.eqb_eq, IH. split.
  - intros [-> ->]. reflexivity.
  - intros E. injection E as -> ->. auto.
Qed.

Lemma text_eqb_refl (a : Unicode.text) : Unicode.eqb a a = true.
Proof. apply text_eqb_eq. reflexivity. Qed.

Lemma text_eqb_neq (a b : Unicode.text) : Unicode.eqb a b = false <-> a <> b.
Proof.
  rewrite <- text_eqb_eq. destruct (Unicode.eqb a b); split; congruence.
Qed.

(** The characters [str.lower] puts for one it changes are not changed by
    it: a check of the table. *)
Lemma lowercase_table_stable :
  forallb (fun p => negb (Unicode.lower_changes (snd p))) Unicode.lowercase =
  true.
Proof. vm_compute. reflexivity. Qed.

Lemma to_lower_stable (c d : N) :
  N.eqb c 0x3a3 = false -> In d (Unicode.to_lower c) ->
  Unicode.lower_changes d = false.
Proof.
  intros S. unfold Unicode.to_lower.
  destruct (N.eqb c 0x130) eqn:E.
  - intros [<-|[<-|[]]]; vm_compute; reflexivity.
  - destruct (find (fun p => N.eqb (fst p) c) Unicode.lowercase) as [p|] eqn:F.
    + intros [<-|[]]. apply find_some in F. destruct F as [I _].
      pose proof lowercase_table_stable as T.
      rewrite forallb_forall in T. apply negb_true_iff. apply (T p I).
    + intros [<-|[]]. unfold Unicode.lower_changes, Unicode.lower.
      cbn [Unicode.lower_from]. rewrite S. unfold Unicode.to_lower.
      rewrite E, F. cbn [app]. rewrite text_eqb_refl. reflexivity.
Qed.

Lemma lower_from_stable (s before : Unicode.text) (c : N) :
  In c (Unicode.lower_from before s) -> Unicode.lower_changes c = false.
Proof.
  revert before. induction s as [|c0 s IH]; intros before; [intros []|].
  cbn [Unicode.lower_from]. intros I. apply in_app_or in I.
  destruct I as [I|I]; [|apply (IH _ I)].
  destruct (N.eqb c0 0x3a3) eqn:S.
  - destruct (Unicode.final_sigma before s); destruct I as [<-|[]];
      vm_compute; reflexivity.
  - apply (to_lower_stable c0 c S I).
Qed.

Lemma text_dropwhile_suffix (p : N -> bool) (l : list N) :
  exists pre, l = pre ++ Unicode.dropwhile p l.
Proof.
  induction l as [|c l [pre IH]]; simpl.
  - exists []. reflexivity.
  - destruct (p c).
    + exists (c :: pre). simpl. f_equal. exact IH.
    + exists []. reflexivity.
Qed.

Lemma text_dropwhile_head (p : N -> bool) (l : list N) c l' :
  Unicode.dropwhile p l = c :: l' -> p c = false.
Proof.
  induction l as [|c0 l IH]; simpl; [discriminate|].
  destruct (p c0) eqn:E; [exact IH|].
  intros H. injection H as <- _. exact E.
Qed.

Lemma text_dropwhile_In (p : N -> bool) (l : list N) c :
  In c (Unicode.dropwhile p l) -> In c l.
Proof.
  destruct (text_dropwhile_suffix p l) as [pre E]. intros I.
  rewrite E. apply in_or_app. right. exact I.
Qed.

(** What [normalize] returns holds no character that [str.lower] changes,
    and neither starts nor ends with white space. *)
Lemma text_normalize_lowered (x : Unicode.text) (c : N) :
  In c (Unicode.normalize x) -> Unicode.lower_changes c = false.
Proof.
  unfold Unicode.normalize, Unicode.strip. intros I.
  apply in_rev, text_dropwhile_In in I. apply in_rev, text_dropwhile_In in I.
  apply (lower_from_stable _ _ _ I).
Qed.

Lemma text_normalize_no_trailing_space (x : Unicode.text) :
  Unicode.ends_with_space (Unicode.normalize x) = false.
Proof.
  unfold Unicode.ends_with_space, Unicode.normalize, Unicode.strip.
  rewrite rev_involutive.
  destruct (Unicode.dropwhile Unicode.is_space _) as [|c l] eqn:E;
    [reflexivity|].
  apply text_dropwhile_head in E. exact E.
Qed.

Lemma text_normalize_no_leading_space (x : Unicode.text) :
  Unicode.starts_with_space (Unicode.normalize x) = false.
Proof.
  unfold Unicode.starts_with_space, Unicode.normalize, Unicode.strip.
  set (L := Unicode.dropwhile Unicode.is_space (Unicode.lower x)).
  destruct (text_dropwhile_suffix Unicode.is_space (rev L)) as [pre E].
  apply (f_equal (@rev N)) in E. rewrite rev_involutive, rev_app_distr in E.
  destruct (rev (Unicode.dropwhile Unicode.is_space (rev L))) as [|c l];
    [reflexivity|].
  simpl in E. unfold L in E. apply text_dropwhile_head in E. exact E.
Qed.

Lemma text_normalize_range (w : Unicode.text) :
  Unicode.has_lowered_upper w || Unicode.starts_with_space w ||
  Unicode.ends_with_space w = true ->
  forall x, Unicode.normalize x <> w.
Proof.
  intros H x <-.
  rewrite text_normalize_no_leading_space, text_normalize_no_trailing_space,
    !orb_false_r in H.
  unfold Unicode.has_lowered_upper in H. apply existsb_exists in H.
  destruct H as [c [I U]]. apply andb_true_iff in U. destruct U as [_ U].
  rewrite (text_normalize_lowered x c I) in U. discriminate.
Qed.

Lemma text_get_set (d : Unicode.Dict.t) (k v k' v' : Unicode.text) :
  Unicode.Dict.get (Unicode.Dict.set d k v) k' = Some v' ->
  v' = v \/ Unicode.Dict.get d k' = Some v'.
Proof.
  induction d as [|[k0 v0] d IH]; simpl.
  - destruct (Unicode.eqb k k'); [|discriminate].
    intros E. injection E as <-. left. reflexivity.
  - destruct (Unicode.eqb k0 k) eqn:E; simpl.
    + destruct (Unicode.eqb k0 k'); [|auto].
      intros E'. injection E' as <-. left. reflexivity.
    + destruct (Unicode.eqb k0 k'); [auto | exact IH].
Qed.

(** Every value of the record of a row is a normalized string. *)
Lemma text_build_fields_normalized (translations_dict : Unicode.Dict.t)
    (headers : list Unicode.text)
    (headers_to_compare : list (Unicode.text * nat)) (entry : Unicode.row)
    (entry_dict d : Unicode.Dict.t) :
  Unicode.build_fields translations_dict headers headers_to_compare entry
    entry_dict = Unicode.Ok d ->
  (forall k v, Unicode.Dict.get entry_dict k = Some v ->
     exists x, v = Unicode.normalize x) ->
  forall k v, Unicode.Dict.get d k = Some v ->
    exists x, v = Unicode.normalize x.
Proof.
  revert entry_dict.
  induction headers_to_compare as [|[h i] rest IH]; intros entry_dict H N;
    simpl in H.
  - injection H as <-. exact N.
  - destruct (Unicode.index entry i) as [value|]; [|discriminate].
    cbn [Unicode.bind] in H.
    destruct (Unicode.index headers i) as [name|]; [|discriminate].
    cbn [Unicode.bind] in H. apply (IH _ H). intros k v G.
    apply text_get_set in G. destruct G as [->|G]; [|apply (N k v G)].
    destruct (Unicode.Dict.get translations_dict value) as [t|]; eexists;
      reflexivity.
Qed.

Lemma text_build_entry_normalized (translations_dict : Unicode.Dict.t)
    (headers : list Unicode.text) (pk_indices : list nat)
    (headers_to_compare : list (Unicode.text * nat)) (entry : Unicode.row)
    (pk : Unicode.text) (d : Unicode.Dict.t) :
  Unicode.build_entry translations_dict headers pk_indices headers_to_compare
    entry = Unicode.Ok (pk, d) ->
  forall k v, Unicode.Dict.get d k = Some v ->
    exists x, v = Unicode.normalize x.
Proof.
  unfold Unicode.build_entry. intros H.
  destruct (Unicode.build_pk pk_indices entry []) as [pk0|]; [|discriminate].
  cbn [Unicode.bind] in H.
  destruct (Unicode.build_fields translations_dict headers headers_to_compare
              entry [(Unicode.primary_key, Unicode.normalize pk0)])
    as [d0|] eqn:B; [|discriminate].
  cbn [Unicode.bind] in H. injection H as <- <-.
  apply (text_build_fields_normalized _ _ _ _ _ _ B).
  intros k v. cbn [Unicode.Dict.get].
  destruct (Unicode.eqb Unicode.primary_key k); [|discriminate].
  intros E. injection E as <-. eexists. reflexivity.
Qed.

Lemma text_record_of_normalized (primary_keys : list Unicode.text)
    (mapping_dict translations_dict : Unicode.Dict.t)
    (headers : list Unicode.text) (entry : Unicode.row) (pk : Unicode.text)
    (d : Unicode.Dict.t) :
  Unicode.record_of primary_keys mapping_dict translations_dict headers entry =
  Unicode.Ok (pk, d) ->
  forall k v, Unicode.Dict.get d k = Some v ->
    exists x, v = Unicode.normalize x.
Proof.
  unfold Unicode.record_of.
  destruct (Unicode.scan_headers primary_keys mapping_dict 0 headers)
    as [[headers' pk_indices] headers_to_compare].
  apply text_build_entry_normalized.
Qed.

Lemma text_rule_matches_normalized (d : Unicode.Dict.t)
    (f w : Unicode.text) :
  (forall k v, Unicode.Dict.get d k = Some v ->
     exists x, v = Unicode.normalize x) ->
  Unicode.has_lowered_upper w || Unicode.starts_with_space w ||
  Unicode.ends_with_space w = true ->
  Unicode.Dict.get d f <> Some w /\ Unicode.rule_matches d (f, w) = false.
Proof.
  intros Hnorm Hw.
  assert (A : Unicode.Dict.get d f <> Some w).
  { intros E. destruct (Hnorm f w E) as [x Ex]. symmetry in Ex.
    revert Ex. apply text_normalize_range. exact Hw. }
  split; [exact A|]. unfold Unicode.rule_matches. simpl.
  destruct (Unicode.Dict.get d f) as [v|]; [|reflexivity]. simpl.
  apply text_eqb_neq. congruence.
Qed.

(** The loop of the filter: the lookup of a field the record lacks raises;
    otherwise the row is ignored when some rule matches. *)
Lemma text_filter_ignore_cases (filtering_list : list (Unicode.text * Unicode.text))
    (d : Unicode.Dict.t) (ignore : bool) :
  ((forall rule, In rule filtering_list ->
      Unicode.Dict.get d (fst rule) <> None) /\
   Unicode.filter_ignore filtering_list d ignore =
   Unicode.Ok (ignore || existsb (Unicode.rule_matches d) filtering_list)) \/
  (exists k, In k (map fst filtering_list) /\ Unicode.Dict.get d k = None /\
             Unicode.filter_ignore filtering_list d ignore =
             Unicode.Raise (Unicode.KeyError k)).
Proof.
  revert ignore. induction filtering_list as [|[f v] rest IH]; intros ignore;
    simpl.
  - left. split; [intros ? [] | rewrite orb_false_r; reflexivity].
  - unfold Unicode.Dict.getitem, Unicode.rule_matches. simpl.
    destruct (Unicode.Dict.get d f) as [x|] eqn:E; simpl.
    + destruct (IH (if Unicode.eqb x v then true else ignore))
        as [[A R]|[k [I [N R]]]].
      * left. split.
        -- intros rule [<-|I]; [simpl; congruence | apply A; exact I].
        -- rewrite R. f_equal. unfold Unicode.rule_matches.
           destruct (Unicode.eqb x v), ignore; reflexivity.
      * right. exists k. auto.
    + right. exists f. auto.
Qed.

(** A rule that matches no record can be taken out of the list. *)
Lemma text_filter_ignore_rule_removed (d : Unicode.Dict.t)
    (rule : Unicode.text * Unicode.text)
    (before after : list (Unicode.text * Unicode.text)) (ignore : bool) :
  Unicode.rule_matches d rule = false ->
  Unicode.filter_ignore (before ++ rule :: after) d false =
  Unicode.Ok ignore ->
  Unicode.filter_ignore (before ++ after) d false = Unicode.Ok ignore.
Proof.
  intros Hno H.
  destruct (text_filter_ignore_cases (before ++ rule :: after) d false)
    as [[A R]|[k [_ [_ R]]]]; [|congruence].
  rewrite R in H. injection H as H.
  rewrite !existsb_app in H. simpl in H. rewrite Hno in H. simpl in H.
  destruct (text_filter_ignore_cases (before ++ after) d false)
    as [[_ R']|[k [I [N _]]]].
  - rewrite R', existsb_app. simpl. rewrite H. reflexivity.
  - exfalso. apply in_map_iff in I. destruct I as [r [<- I]].
    apply (A r); [|exact N].
    apply in_app_or in I. apply in_or_app.
    destruct I as [I|I]; [left | right; right]; exact I.
Qed.

Lemma text_filtering_lines_verbatim (lines : list Unicode.row)
    (acc : list (Unicode.text * Unicode.text)) :
  Forall (fun line => 2 <= List.length line) lines ->
  Unicode.filtering_lines lines acc = Unicode.Ok (acc ++ Unicode.rules_of lines).
Proof.
  revert acc. induction lines as [|line lines IH]; intros acc H; simpl.
  - rewrite app_nil_r. reflexivity.
  - inversion H as [|? ? Hlen H']; subst.
    destruct line as [|fieldname [|value tl]]; simpl in Hlen; try lia.
    simpl. rewrite IH by exact H'. rewrite <- app_assoc. reflexivity.
Qed.

(** The rows of a source, read with a list of rules and with the list
    without a rule that matches no record *)
Lemma text_process_entries_rule_removed (translations_dict : Unicode.Dict.t)
    (headers : list Unicode.text) (pk_indices : list nat)
    (headers_to_compare : list (Unicode.text * nat))
    (f w : Unicode.text) (before after : list (Unicode.text * Unicode.text))
    (rows : list Unicode.row) (st st' : Unicode.source_state) :
  Unicode.has_lowered_upper w || Unicode.starts_with_space w ||
  Unicode.ends_with_space w = true ->
  Unicode.process_entries translations_dict (before ++ (f, w) :: after)
    headers pk_indices headers_to_compare rows st = Unicode.Ok st' ->
  Unicode.process_entries translations_dict (before ++ after)
    headers pk_indices headers_to_compare rows st = Unicode.Ok st'.
Proof.
  intros Hw. revert st. induction rows as [|entry rows IH]; intros st H;
    [exact H|].
  cbn [Unicode.process_entries] in *.
  destruct (Unicode.process_entry translations_dict (before ++ (f, w) :: after)
              headers pk_indices headers_to_compare st entry)
    as [st1|] eqn:P; [|discriminate].
  cbn [Unicode.bind] in H.
  assert (P' : Unicode.process_entry translations_dict (before ++ after)
                 headers pk_indices headers_to_compare st entry =
               Unicode.Ok st1).
  { unfold Unicode.process_entry in *.
    destruct (Unicode.build_entry translations_dict headers pk_indices
                headers_to_compare entry) as [[pk d]|] eqn:B; [|discriminate].
    cbn [Unicode.bind] in *.
    destruct (Unicode.filter_ignore (before ++ (f, w) :: after) d false)
      as [ignore|] eqn:F; [|discriminate].
    pose proof (text_build_entry_normalized _ _ _ _ _ _ _ B) as Hnorm.
    destruct (text_rule_matches_normalized d f w Hnorm Hw) as [_ Hno].
    rewrite (text_filter_ignore_rule_removed d (f, w) before after ignore
               Hno F).
    exact P. }
  rewrite P'. cbn [Unicode.bind]. apply IH. exact H.
Qed.

Lemma text_read_source_csv_rule_removed (primary_keys : list Unicode.text)
    (source_csv : Unicode.csv)
    (mapping_dict translations_dict : Unicode.Dict.t)
    (f w : Unicode.text) (before after : list (Unicode.text * Unicode.text))
    (results : list Unicode.Dict.t * list Unicode.Dict.t *
               list Unicode.Dict.t) :
  Unicode.has_lowered_upper w || Unicode.starts_with_space w ||
  Unicode.ends_with_space w = true ->
  Unicode.read_source_csv primary_keys source_csv mapping_dict
    translations_dict (before ++ (f, w) :: after) = Unicode.Ok results ->
  Unicode.read_source_csv primary_keys source_csv mapping_dict
    translations_dict (before ++ after) = Unicode.Ok results.
Proof.
  intros Hw. unfold Unicode.read_source_csv.
  destruct source_csv as [|headers rows]; [discriminate|].
  destruct (Unicode.scan_headers primary_keys mapping_dict 0 headers)
    as [[headers' pk_indices] headers_to_compare].
  destruct (Unicode.process_entries translations_dict
              (before ++ (f, w) :: after) headers' pk_indices
              headers_to_compare rows (Unicode.mk_source_state [] [] [] []))
    as [st|] eqn:P; [|discriminate].
  rewrite (text_process_entries_rule_removed _ _ _ _ _ _ _ _ _ _ _ Hw P).
  intros H. exact H.
Qed.

(** Below U+0100 [str.lower] changes every upper-case letter. *)
Lemma latin1_upper_is_lowered (c : N) :
  (c < 256)%N -> Unicode.is_upper c = true -> Unicode.lower_changes c = true.
Proof.
  intros L U.
  assert (T : forallb
                (fun n => implb (Unicode.is_upper (N.of_nat n))
                            (Unicode.lower_changes (N.of_nat n)))
                (seq 0 256) = true) by (vm_compute; reflexivity).
  rewrite forallb_forall in T. specialize (T (N.to_nat c)).
  rewrite N2Nat.id, U in T. apply T. apply in_seq. lia.
Qed.

(** C10, amended.  The rules are the cells of the filtering file as they
    are, the values of a record are normalized, and a rule value is compared
    with them as it is.  A rule whose value holds an upper-case letter that
    [str.lower] changes, or starts or ends with white space, matches no
    record: the filter treats every record as it does without the rule, and
    whenever reading a source with the rule in the list returns, reading it
    without the rule returns the same results.  Every upper-case letter
    below U+0100 is one that [str.lower] changes. *)
Theorem unnormalized_rule_never_drops (primary_keys : list Unicode.text)
    (mapping_dict translations_dict : Unicode.Dict.t) (f w : Unicode.text) :
  Unicode.has_lowered_upper w || Unicode.starts_with_space w ||
  Unicode.ends_with_space w = true ->
  (forall filter_headers lines,
     Forall (fun line => 2 <= List.length line) lines ->
     Unicode.make_filtering_list (filter_headers :: lines) =
     Unicode.Ok (Unicode.rules_of lines)) /\
  (forall headers entry pk d,
     Unicode.record_of primary_keys mapping_dict translations_dict headers
       entry = Unicode.Ok (pk, d) ->
     (forall k v, Unicode.Dict.get d k = Some v ->
        exists x, v = Unicode.normalize x) /\
     Unicode.Dict.get d f <> Some w /\
     Unicode.rule_matches d (f, w) = false /\
     Unicode.filter_ignore [(f, w)] d false <> Unicode.Ok true /\
     (forall before after ignore,
        Unicode.filter_ignore (before ++ (f, w) :: after) d false =
        Unicode.Ok ignore ->
        Unicode.filter_ignore (before ++ after) d false =
        Unicode.Ok ignore)) /\
  (forall source_csv before after results,
     Unicode.read_source_csv primary_keys source_csv mapping_dict
       translations_dict (before ++ (f, w) :: after) = Unicode.Ok results ->
     Unicode.read_source_csv primary_keys source_csv mapping_dict
       translations_dict (before ++ after) = Unicode.Ok results) /\
  (forall c, (c < 256)%N -> Unicode.is_upper c = true ->
     Unicode.lower_changes c = true).
Proof.
  intros Hw. split; [|split; [|split]].
  - intros filter_headers lines H. simpl.
    apply (text_filtering_lines_verbatim lines [] H).
  - intros headers entry pk d Hrec.
    pose proof (text_record_of_normalized _ _ _ _ _ _ _ Hrec) as Hnorm.
    destruct (text_rule_matches_normalized d f w Hnorm Hw) as [Hget Hno].
    split; [exact Hnorm|]. split; [exact Hget|]. split; [exact Hno|]. split.
    + destruct (text_filter_ignore_cases [(f, w)] d false)
        as [[_ R]|[k [_ [_ R]]]]; rewrite R; [|discriminate].
      simpl. rewrite Hno. discriminate.
    + intros before after ignore.
      apply text_filter_ignore_rule_removed. exact Hno.
  - intros source_csv before after results.
    apply text_read_source_csv_rule_removed. exact Hw.
  - apply latin1_upper_is_lowered.
Qed.

(** C10, as stated, fails: U+03D2 is an upper-case letter that [str.lower]
    leaves as it is, so the value of a rule that holds it is a normalized
    value, and the rule drops the row whose cell holds it. *)
Lemma unnormalized_rule_drops_row :
  let U := Unicode.of_string in
  let upsilon := [0x3d2]%N in
  let source := [[U "ID"; U "Name"]; [U "7"; upsilon]] in
  let mapping_dict := [(U "ID", U "id"); (U "Name", U "full_name")] in
  Unicode.is_upper 0x3d2 = true /\
  Unicode.has_upper upsilon = true /\
  Unicode.normalize upsilon = upsilon /\
  Unicode.make_filtering_list
    [[U "field"; U "value"]; [U "full_name"; upsilon]] =
  Unicode.Ok [(U "full_name", upsilon)] /\
  Unicode.read_source_csv [U "id"] source mapping_dict []
    [(U "full_name", upsilon)] = Unicode.Ok ([], [], []) /\
  Unicode.read_source_csv [U "id"] source mapping_dict [] [] =
  Unicode.Ok ([[(U "primary_key", U "7"); (U "full_name", upsilon)]], [], []).
Proof. vm_compute. repeat split; reflexivity. Qed.

Lemma unnormalized_rule_never_drops_witness :
  let U := Unicode.of_string in
  let source := [[U "ID"; U "Name"]; [U "7"; U "Bond"]] in
  let mapping_dict := [(U "ID", U "id"); (U "Name", U "full_name")] in
  Unicode.rule_matches [(U "primary_key", U "7"); (U "full_name", U "bond")]
    (U "full_name", U "Bond") = false /\
  Unicode.read_source_csv [U "id"] source mapping_dict [] [] =
  Unicode.Ok ([[(U "primary_key", U "7"); (U "full_name", U "bond")]], [], []).
Proof.
  intros U source mapping_dict.
  destruct (unnormalized_rule_never_drops [U "id"] mapping_dict []
              (U "full_name") (U "Bond") eq_refl) as [_ [R [S _]]].
  split.
  - apply (R [U "ID"; U "Name"] [U "7"; U "Bond"] (U "7 ")
             [(U "primary_key", U "7"); (U "full_name", U "bond")] eq_refl).
  - apply (S source [] []
             ([[(U "primary_key", U "7"); (U "full_name", U "bond")]], [], [])).
    reflexivity.
Defined.

(** On strings of characters below U+0100 the two models of [normalize]
    agree. *)
Lemma to_lower_latin1 (c : ascii) :
  N.eqb (N_of_ascii c) 0x3a3 = false /\
  Unicode.to_lower (N_of_ascii c) = [N_of_ascii (Str.lower_char c)] /\
  Unicode.is_space (N_of_ascii c) = Str.is_space c.
Proof.
  destruct c as [[] [] [] [] [] [] [] []]; vm_compute; auto.
Qed.

Lemma lower_from_latin1 (l : list ascii) (before : Unicode.text) :
  Unicode.lower_from before (map N_of_ascii l) =
  map N_of_ascii (map Str.lower_char l).
Proof.
  revert before. induction l as [|c l IH]; intros before; [reflexivity|].
  cbn [map Unicode.lower_from].
  destruct (to_lower_latin1 c) as [S [L _]]. rewrite S, L, IH. reflexivity.
Qed.

Lemma dropwhile_latin1 (l : list ascii) :
  Unicode.dropwhile Unicode.is_space (map N_of_ascii l) =
  map N_of_ascii (Str.dropwhile Str.is_space l).
Proof.
  induction l as [|c l IH]; [reflexivity|].
  cbn [map Unicode.dropwhile Str.dropwhile].
  destruct (to_lower_latin1 c) as [_ [_ W]]. rewrite W.
  destruct (Str.is_space c); [exact IH | reflexivity].
Qed.

Lemma normalize_of_string (s : string) :
  Unicode.normalize (Unicode.of_string s) = Unicode.of_string (normalize s).
Proof.
  unfold Unicode.of_string. fold (Str.chars s). fold (Str.chars (normalize s)).
  rewrite normalize_chars.
  unfold Unicode.normalize, Unicode.strip, Unicode.lower.
  rewrite lower_from_latin1, dropwhile_latin1, <- map_rev, dropwhile_latin1,
    <- map_rev.
  reflexivity.
Qed.

(** ** Lists of records *)

Lemma option_eqb_eq (a b : option string) :
  Dict.option_eqb a b = true <-> a = b.
Proof.
  destruct a as [x|], b as [y|]; simpl; split; try discriminate; auto.
  - intros E. apply String.eqb_eq in E. congruence.
  - intros E. injection E as ->. apply String.eqb_refl.
Qed.

Lemma subdict_get (d1 d2 : Dict.t) (k : string) :
  Dict.subdict d1 d2 = true -> In k (Dict.keys d1) ->
  Dict.get d1 k = Dict.get d2 k.
Proof.
  unfold Dict.subdict. rewrite forallb_forall. intros H I.
  apply option_eqb_eq. apply H. exact I.
Qed.

Lemma dict_eqb_get (d1 d2 : Dict.t) :
  Dict.eqb d1 d2 = true <-> forall k, Dict.get d1 k = Dict.get d2 k.
Proof.
  unfold Dict.eqb. rewrite andb_true_iff. split.
  - intros [H1 H2] k.
    destruct (Dict.get d1 k) eqn:E1.
    + rewrite <- E1. apply subdict_get; [exact H1|].
      apply mem_keys. unfold Dict.mem. rewrite E1. reflexivity.
    + destruct (Dict.get d2 k) eqn:E2; [|reflexivity].
      rewrite <- E1, <- E2. symmetry. apply subdict_get; [exact H2|].
      apply mem_keys. unfold Dict.mem. rewrite E2. reflexivity.
  - intros H. unfold Dict.subdict. rewrite !forallb_forall.
    split; intros k _; apply option_eqb_eq; [apply H | symmetry; apply H].
Qed.

Lemma dict_eqb_refl (d : Dict.t) : Dict.eqb d d = true.
Proof. apply dict_eqb_get. reflexivity. Qed.

Lemma dict_eqb_sym (d1 d2 : Dict.t) : Dict.eqb d1 d2 = Dict.eqb d2 d1.
Proof. unfold Dict.eqb. apply andb_comm. Qed.

Lemma dict_eqb_pk (d1 d2 : Dict.t) :
  Dict.eqb d1 d2 = true -> pk_of d1 = pk_of d2.
Proof. intros H. apply dict_eqb_get. exact H. Qed.

Lemma has_pk_true (k : option string) (x : Dict.t) :
  has_pk k x = true <-> pk_of x = k.
Proof. apply option_eqb_eq. Qed.

Lemma has_pk_false (k : option string) (x : Dict.t) :
  has_pk k x = false <-> pk_of x <> k.
Proof.
  rewrite <- has_pk_true. destruct (has_pk k x); split; congruence.
Qed.

Lemma primary_keys_of_keyed (l : list Dict.t) :
  (forall x, In x l -> pk_of x <> None) ->
  exists ks, primary_keys_of l = Ok ks /\ map Some ks = map pk_of l.
Proof.
  induction l as [|x l IH]; intros H; simpl.
  - exists []. split; reflexivity.
  - destruct IH as [ks [E M]]; [intros y I; apply H; right; exact I|].
    unfold Dict.getitem. fold (pk_of x).
    destruct (pk_of x) as [k|] eqn:Ex;
      [|exfalso; apply (H x); [left; reflexivity | exact Ex]].
    simpl. rewrite E. simpl. exists (k :: ks). split; [reflexivity|].
    simpl. rewrite M. reflexivity.
Qed.

Lemma primary_keys_of_length (l : list Dict.t) (ks : list string) :
  primary_keys_of l = Ok ks -> List.length ks = List.length l.
Proof.
  revert ks. induction l as [|x l IH]; intros ks H; simpl in H.
  - injection H as <-. reflexivity.
  - inv_bind H. inv_bind H. injection H as <-. simpl. f_equal. apply IH.
    exact Ha0.
Qed.

Lemma select_pk_keyed (pk : string) (l : list Dict.t) :
  (forall x, In x l -> pk_of x <> None) ->
  select_pk pk l = Ok (filter (has_pk (Some pk)) l).
Proof.
  induction l as [|x l IH]; intros H; simpl; [reflexivity|].
  unfold Dict.getitem, has_pk. fold (pk_of x).
  destruct (pk_of x) as [k|] eqn:Ex;
    [|exfalso; apply (H x); [left; reflexivity | exact Ex]].
  simpl. rewrite IH by (intros y I; apply H; right; exact I). reflexivity.
Qed.

(** Keeping part of an index keeps its keys apart. *)
Lemma unique_pk_filter (keep : Dict.t -> bool) (index : list Dict.t) :
  NoDup (map pk_of index) -> NoDup (map pk_of (filter keep index)).
Proof.
  induction index as [|x index IH]; simpl; intros H; [constructor|].
  inversion H as [|? ? N H']; subst.
  destruct (keep x); simpl; [constructor|]; auto.
  intros I. apply N. apply in_map_iff in I. destruct I as [y [E I]].
  apply filter_In in I. rewrite <- E. apply in_map. tauto.
Qed.

Lemma filter_none (A : Type) (p : A -> bool) (l : list A) :
  (forall x, In x l -> p x = false) -> filter p l = [].
Proof.
  induction l as [|x l IH]; simpl; intros H; [reflexivity|].
  rewrite (H x) by (left; reflexivity). apply IH. intros y I. apply H.
  right. exact I.
Qed.

Lemma filter_all (A : Type) (p : A -> bool) (l : list A) :
  (forall x, In x l -> p x = true) -> filter p l = l.
Proof.
  induction l as [|x l IH]; simpl; intros H; [reflexivity|].
  rewrite (H x) by (left; reflexivity). f_equal. apply IH. intros y I.
  apply H. right. exact I.
Qed.

(** In a list without a key twice, the records that carry the key of a
    member are that member alone. *)
Lemma filter_has_pk_unique (l : list Dict.t) (m : Dict.t) :
  NoDup (map pk_of l) -> In m l ->
  filter (has_pk (pk_of m)) l = [m].
Proof.
  induction l as [|y l IH]; simpl; intros ND I; [contradiction|].
  inversion ND as [|? ? N ND']; subst.
  destruct I as [->|I].
  - unfold has_pk at 1. rewrite (proj2 (option_eqb_eq _ _) eq_refl).
    f_equal. apply filter_none. intros x Ix. apply has_pk_false.
    intros E. apply N. rewrite <- E. apply in_map. exact Ix.
  - assert (E : has_pk (pk_of m) y = false).
    { apply has_pk_false. intros E. apply N. rewrite E. apply in_map.
      exact I. }
    rewrite E. apply IH; assumption.
Qed.

(** Removing a member of such a list removes the records with its key. *)
Lemma list_remove_unique (l : list Dict.t) (m : Dict.t) :
  NoDup (map pk_of l) -> In m l ->
  list_remove m l = Ok (filter (fun x => negb (has_pk (pk_of m) x)) l).
Proof.
  induction l as [|y l IH]; simpl; intros ND I; [contradiction|].
  inversion ND as [|? ? N ND']; subst.
  destruct (Dict.eqb y m) eqn:E.
  - apply dict_eqb_pk in E.
    rewrite (proj2 (has_pk_true (pk_of m) y) E). simpl.
    rewrite filter_all; [reflexivity|].
    intros x Ix. apply negb_true_iff, has_pk_false.
    intros E'. apply N. rewrite E, <- E'. apply in_map. exact Ix.
  - destruct I as [->|I]; [rewrite dict_eqb_refl in E; discriminate|].
    rewrite IH by assumption. simpl.
    assert (F : has_pk (pk_of m) y = false).
    { apply has_pk_false. intros E'. apply N. rewrite E'. apply in_map.
      exact I. }
    rewrite F. reflexivity.
Qed.

(** ** The index and the duplicates *)

Lemma NoDup_snoc (A : Type) (l : list A) (a : A) :
  NoDup l -> ~ In a l -> NoDup (l ++ [a]).
Proof.
  intros ND N. apply NoDup_app; [exact ND | repeat constructor; auto |].
  intros x I [<-|[]]. contradiction.
Qed.

(** Between two rows the lists stay apart, and the guard against two records
    with one key in the index is never met. *)
Lemma populate_invariant (st : source_state) (pk : string) (d : Dict.t) :
  source_invariant st ->
  pk_of d = Some (normalize pk) ->
  exists st', populate st pk d = Ok st' /\ source_invariant st'.
Proof.
  intros [Hseen [Hnd Hapart]] Hd. unfold populate.
  destruct (String.eqb pk "" || Str.isspace pk).
  { eexists. split; [reflexivity|]. split; [exact Hseen | split; assumption]. }
  assert (Hkeyed : forall x, In x (entries st) -> pk_of x <> None).
  { intros x I E. destruct (Hseen x) as [k [Ek _]];
      [apply in_or_app; left; exact I | congruence]. }
  destruct (str_in (normalize pk) (seen_pks st)) eqn:S.
  - apply str_in_In in S.
    destruct (primary_keys_of_keyed (entries st) Hkeyed) as [ks [Eks Mks]].
    rewrite Eks. cbn [bind].
    destruct (str_in (normalize pk) ks) eqn:M.
    + apply str_in_In in M. apply (in_map Some) in M. rewrite Mks in M.
      apply in_map_iff in M. destruct M as [x [Ex Ix]].
      rewrite select_pk_keyed by exact Hkeyed. cbn [bind].
      rewrite <- Ex, (filter_has_pk_unique (entries st) x Hnd Ix).
      rewrite (list_remove_unique (entries st) x Hnd Ix). cbn [bind].
      eexists. split; [reflexivity|]. split; [|split]; cbn.
      * intros y I. apply in_app_or in I. destruct I as [I|I].
        -- apply filter_In in I. apply Hseen. apply in_or_app. left. tauto.
        -- apply in_app_or in I. destruct I as [I|[<-|[]]].
           ++ apply in_app_or in I. destruct I as [I|[<-|[]]].
              ** apply Hseen. apply in_or_app. right. exact I.
              ** exists (normalize pk). auto.
           ++ exists (normalize pk). auto.
      * apply unique_pk_filter. exact Hnd.
      * intros y z Iy Iz. apply filter_In in Iz. destruct Iz as [Iz Fz].
        apply negb_true_iff, has_pk_false in Fz.
        apply in_app_or in Iy. destruct Iy as [Iy|[<-|[]]].
        -- apply in_app_or in Iy. destruct Iy as [Iy|[<-|[]]].
           ++ apply Hapart; assumption.
           ++ rewrite Hd, <- Ex. congruence.
        -- congruence.
    + apply str_in_not_In in M.
      eexists. split; [reflexivity|]. split; [|split]; cbn.
      * intros y I. apply in_app_or in I. destruct I as [I|I].
        -- apply Hseen. apply in_or_app. left. exact I.
        -- apply in_app_or in I. destruct I as [I|[<-|[]]].
           ++ apply Hseen. apply in_or_app. right. exact I.
           ++ exists (normalize pk). auto.
      * exact Hnd.
      * intros y z Iy Iz. apply in_app_or in Iy. destruct Iy as [Iy|[<-|[]]].
        -- apply Hapart; assumption.
        -- rewrite Hd. intros E. apply M. apply (in_map pk_of) in Iz.
           rewrite <- Mks, <- E in Iz. apply in_map_iff in Iz.
           destruct Iz as [k [Ek Ik]]. congruence.
  - apply str_in_not_In in S.
    eexists. split; [reflexivity|]. split; [|split]; cbn.
    + intros y I. apply in_app_or in I. destruct I as [I|I].
      * apply in_app_or in I. destruct I as [I|[<-|[]]].
        -- destruct (Hseen y) as [k [Ek Ik]];
             [apply in_or_app; left; exact I|].
           exists k. split; [exact Ek | apply in_or_app; left; exact Ik].
        -- exists (normalize pk). split; [exact Hd|].
           apply in_or_app. right. left. reflexivity.
      * destruct (Hseen y) as [k [Ek Ik]];
          [apply in_or_app; right; exact I|].
        exists k. split; [exact Ek | apply in_or_app; left; exact Ik].
    + rewrite map_app. simpl. apply NoDup_snoc; [exact Hnd|].
      intros I. apply in_map_iff in I. destruct I as [x [Ex Ix]].
      destruct (Hseen x) as [k [Ek Ik]]; [apply in_or_app; left; exact Ix|].
      apply S. congruence.
    + intros y z Iy Iz. apply in_app_or in Iz. destruct Iz as [Iz|[<-|[]]].
      * apply Hapart; assumption.
      * destruct (Hseen y) as [k [Ek Ik]]; [apply in_or_app; right; exact Iy|].
        rewrite Ek, Hd. intros E. apply S. congruence.
Qed.

(** What [populate] does to lists that are apart: the record of a key seen
    before joins the duplicates together with the record of the index that
    has its key, if there is one. *)
Lemma populate_cases (st : source_state) (pk : string) (d : Dict.t) :
  source_invariant st ->
  populate st pk d =
  Ok (if String.eqb pk "" || Str.isspace pk then
        mk_source_state (entries st) (missing_pks st ++ [d]) (duplicates st)
          (seen_pks st)
      else if str_in (normalize pk) (seen_pks st) then
        mk_source_state
          (filter (fun x => negb (has_pk (Some (normalize pk)) x))
             (entries st))
          (missing_pks st)
          ((duplicates st ++ [d]) ++
           filter (has_pk (Some (normalize pk))) (entries st))
          (seen_pks st)
      else
        mk_source_state (entries st ++ [d]) (missing_pks st) (duplicates st)
          (seen_pks st ++ [normalize pk])).
Proof.
  intros [Hseen [Hnd Hapart]]. unfold populate.
  destruct (String.eqb pk "" || Str.isspace pk); [reflexivity|].
  destruct (str_in (normalize pk) (seen_pks st)); [|reflexivity].
  assert (Hkeyed : forall x, In x (entries st) -> pk_of x <> None).
  { intros x I E. destruct (Hseen x) as [k [Ek _]];
      [apply in_or_app; left; exact I | congruence]. }
  destruct (primary_keys_of_keyed (entries st) Hkeyed) as [ks [Eks Mks]].
  rewrite Eks. cbn [bind].
  destruct (str_in (normalize pk) ks) eqn:M.
  - apply str_in_In in M. apply (in_map Some) in M. rewrite Mks in M.
    apply in_map_iff in M. destruct M as [x [Ex Ix]].
    rewrite select_pk_keyed by exact Hkeyed. cbn [bind].
    rewrite <- Ex, (filter_has_pk_unique (entries st) x Hnd Ix).
    rewrite (list_remove_unique (entries st) x Hnd Ix). reflexivity.
  - apply str_in_not_In in M.
    assert (A : forall x, In x (entries st) ->
                          has_pk (Some (normalize pk)) x = false).
    { intros x Ix. apply has_pk_false. intros E. apply M.
      apply (in_map pk_of) in Ix. rewrite <- Mks, E in Ix.
      apply in_map_iff in Ix. destruct Ix as [k [Ek Ik]]. congruence. }
    rewrite (filter_none _ _ _ A), app_nil_r.
    rewrite filter_all; [reflexivity|].
    intros x Ix. rewrite (A x Ix). reflexivity.
Qed.

Lemma filter_partition_perm (p : Dict.t -> bool) (l : list Dict.t) :
  Permutation (filter (fun x => negb (p x)) l ++ filter p l) l.
Proof.
  induction l as [|x l IH]; simpl; [constructor|].
  destruct (p x); simpl.
  - rewrite <- Permutation_middle. constructor. exact IH.
  - constructor. exact IH.
Qed.

(** A record with a key goes to the index or to the duplicates, and no
    record leaves the two. *)
Lemma populate_conserves (st st' : source_state) (pk : string) (d : Dict.t) :
  source_invariant st ->
  populate st pk d = Ok st' ->
  Permutation (entries st' ++ duplicates st')
    (if String.eqb pk "" || Str.isspace pk
     then entries st ++ duplicates st
     else (entries st ++ duplicates st) ++ [d]).
Proof.
  intros Hinv H. rewrite (populate_cases st pk d Hinv) in H.
  injection H as <-.
  destruct (String.eqb pk "" || Str.isspace pk); [reflexivity|].
  destruct (str_in (normalize pk) (seen_pks st)); cbn [entries duplicates].
  - set (p := has_pk (Some (normalize pk))).
    transitivity
      ((filter (fun x => negb (p x)) (entries st) ++ filter p (entries st))
       ++ (duplicates st ++ [d])).
    + rewrite <- !app_assoc. apply Permutation_app_head.
      rewrite app_assoc. apply Permutation_app_comm.
    + rewrite filter_partition_perm, app_assoc. reflexivity.
  - rewrite <- !app_assoc. apply Permutation_app_head.
    apply Permutation_app_comm.
Qed.

Lemma insert_by_key_perm (k : string) (x : Dict.t)
    (l : list (string * Dict.t)) :
  Permutation (insert_by_key k x l) ((k, x) :: l).
Proof.
  induction l as [|[k' y] l IH]; simpl; [reflexivity|].
  destruct (String.ltb k k'); [reflexivity|].
  rewrite IH. apply perm_swap.
Qed.

Lemma sort_keyed_perm (l : list (string * Dict.t)) :
  Permutation (sort_keyed l) l.
Proof.
  unfold sort_keyed.
  assert (G : forall acc,
             Permutation
               (fold_left
                  (fun acc kx => insert_by_key (fst kx) (snd kx) acc) l acc)
               (acc ++ l)).
  { induction l as [|[k x] l IH]; intros acc; simpl.
    - rewrite app_nil_r. reflexivity.
    - rewrite IH, insert_by_key_perm. apply Permutation_middle. }
  apply (G []).
Qed.

Lemma map_snd_combine (A B : Type) (ks : list A) (l : list B) :
  List.length ks = List.length l -> map snd (combine ks l) = l.
Proof.
  revert l. induction ks as [|k ks IH]; intros [|x l] H; simpl in *;
    try discriminate; [reflexivity|].
  f_equal. apply IH. lia.
Qed.

(** Sorting keeps the records. *)
Lemma sort_by_primary_key_perm (l l' : list Dict.t) :
  sort_by_primary_key l = Ok l' -> Permutation l' l.
Proof.
  unfold sort_by_primary_key. intros H. inv_bind H. injection H as <-.
  rewrite sort_keyed_perm, map_snd_combine; [reflexivity|].
  apply primary_keys_of_length. exact Ha.
Qed.

Lemma source_invariant_init : source_invariant (mk_source_state [] [] [] []).
Proof.
  split; [intros x [] | split; [constructor | intros d x []]].
Qed.

Lemma read_row_invariant (primary_keys : list string)
    (mapping_dict translations_dict : Dict.t)
    (filtering_list : list (string * string)) (headers : list string)
    (st st' : source_state) (entry : row) :
  ~ In "primary_key" (retained_fields primary_keys mapping_dict headers) ->
  source_invariant st ->
  read_row primary_keys mapping_dict translations_dict filtering_list headers
    st entry = Ok st' ->
  source_invariant st'.
Proof.
  intros Hres Hinv. rewrite read_row_record. intros H.
  inv_bind H. destruct a as [pk d]. inv_bind H. cbn [fst snd] in *.
  destruct a; [injection H as <-; exact Hinv|].
  pose proof (record_of_shape _ _ _ _ _ _ _ Ha) as [Hpk _].
  destruct (populate_invariant st pk d Hinv (Hpk Hres)) as [st'' [E I]].
  congruence.
Qed.

Lemma read_rows_invariant (primary_keys : list string)
    (mapping_dict translations_dict : Dict.t)
    (filtering_list : list (string * string)) (headers : list string)
    (rows : list row) (st st' : source_state) :
  ~ In "primary_key" (retained_fields primary_keys mapping_dict headers) ->
  source_invariant st ->
  read_rows primary_keys mapping_dict translations_dict filtering_list headers
    rows st = Ok st' ->
  source_invariant st'.
Proof.
  intros Hres. revert st. induction rows as [|entry rows IH]; intros st Hinv.
  - rewrite read_rows_nil. intros H. injection H as <-. exact Hinv.
  - rewrite read_rows_cons. intros H. inv_bind H.
    apply (IH a); [|exact H].
    apply (read_row_invariant _ _ _ _ _ _ _ _ Hres Hinv Ha).
Qed.

Lemma read_rows_conserves (primary_keys : list string)
    (mapping_dict translations_dict : Dict.t)
    (filtering_list : list (string * string)) (headers : list string)
    (rows : list row) (st st' : source_state) :
  ~ In "primary_key" (retained_fields primary_keys mapping_dict headers) ->
  source_invariant st ->
  read_rows primary_keys mapping_dict translations_dict filtering_list headers
    rows st = Ok st' ->
  Permutation (entries st' ++ duplicates st')
    ((entries st ++ duplicates st) ++
     keyed_records primary_keys mapping_dict translations_dict filtering_list
       headers rows).
Proof.
  intros Hres. revert st. induction rows as [|entry rows IH]; intros st Hinv.
  - rewrite read_rows_nil. intros H. injection H as <-. simpl.
    rewrite app_nil_r. reflexivity.
  - rewrite read_rows_cons. intros H. inv_bind H.
    pose proof (read_row_invariant _ _ _ _ _ _ _ _ Hres Hinv Ha) as Hinv'.
    rewrite (IH a Hinv' H). clear IH H.
    rewrite read_row_record in Ha. simpl keyed_records.
    destruct (record_of primary_keys mapping_dict translations_dict headers
                entry) as [[pk d]|e]; [|discriminate].
    cbn [bind fst snd] in Ha.
    destruct (filter_ignore filtering_list d false) as [[|]|e];
      [| |discriminate]; cbn [bind] in Ha.
    + injection Ha as <-. reflexivity.
    + rewrite (populate_conserves st a pk d Hinv Ha).
      destruct (String.eqb pk "" || Str.isspace pk); [reflexivity|].
      rewrite <- !app_assoc. reflexivity.
Qed.

(** C1, amended.  When no retained column of the source is mapped to the
    name the key is stored under, the index [read_source_csv] returns holds
    no two records with one key, every record of it carries a key, and no
    record of the duplicates list has the key of a record of the index.  The
    index and the duplicates hold between them the records of the rows that
    are not filtered out and have a key, so the records of a key met twice
    are all among the duplicates. *)
Theorem index_quarantined (primary_keys : list string) (source_csv : csv)
    (mapping_dict translations_dict : Dict.t)
    (filtering_list : list (string * string))
    (index keyless duplicates : list Dict.t) :
  ~ In "primary_key"
      (retained_fields primary_keys mapping_dict (hd [] source_csv)) ->
  read_source_csv primary_keys source_csv mapping_dict translations_dict
    filtering_list = Ok (index, keyless, duplicates) ->
  NoDup (map pk_of index) /\
  (forall x, In x index -> pk_of x <> None) /\
  (forall d x, In d duplicates -> In x index -> pk_of d <> pk_of x) /\
  Permutation (index ++ duplicates)
    (keyed_records primary_keys mapping_dict translations_dict filtering_list
       (hd [] source_csv) (tl source_csv)).
Proof.
  intros Hres H. destruct source_csv as [|headers rows]; [discriminate|].
  simpl hd in *. simpl tl. rewrite read_source_csv_rows in H.
  inv_bind H. inv_bind H. inv_bind H. injection H as <- _ <-.
  pose proof (read_rows_invariant _ _ _ _ _ _ _ _ Hres source_invariant_init
                Ha) as [Hseen [Hnd Hapart]].
  pose proof (read_rows_conserves _ _ _ _ _ _ _ _ Hres source_invariant_init
                Ha) as Hcons.
  pose proof (sort_by_primary_key_perm _ _ Ha0) as P1.
  pose proof (sort_by_primary_key_perm _ _ Ha1) as P2.
  split; [|split; [|split]].
  - apply (Permutation_NoDup (l := map pk_of (entries a))); [|exact Hnd].
    apply Permutation_map. symmetry. exact P1.
  - intros x I E. apply (Permutation_in _ P1) in I.
    destruct (Hseen x) as [k [Ek _]]; [apply in_or_app; left; exact I|].
    congruence.
  - intros d x Id Ix. apply Hapart.
    + apply (Permutation_in _ P2). exact Id.
    + apply (Permutation_in _ P1). exact Ix.
  - rewrite P1, P2, Hcons. reflexivity.
Qed.

(** C1, as stated, fails when a retained column is mapped to the name the
    key is stored under: the value of that column replaces the key in the
    record, while the keys seen are the composite keys.  Below, the rows 1
    and 3 have the composite key 1; the record of row 1 stays in the index
    and the record of row 3 is a duplicate, and the two records of the index
    carry one key. *)
Lemma index_reserved_name_collision :
  let mapping_dict := [("ID", "id"); ("Name", "primary_key")] in
  let headers := ["ID"; "Name"] in
  let source_csv := [headers; ["1"; "x"]; ["2"; "x"]; ["1"; "y"]] in
  let r1 := [("primary_key", "x")] in
  let r3 := [("primary_key", "y")] in
  record_of ["id"] mapping_dict [] headers ["1"; "x"] = Ok ("1 ", r1) /\
  record_of ["id"] mapping_dict [] headers ["1"; "y"] = Ok ("1 ", r3) /\
  read_source_csv ["id"] source_csv mapping_dict [] [] =
  Ok ([r1; r1], [], [r3]) /\
  ~ NoDup (map pk_of [r1; r1]).
Proof.
  repeat split; try reflexivity.
  intros ND. inversion ND as [|? ? N _]; subst. apply N. left. reflexivity.
Qed.

Lemma index_quarantined_witness :
  let index := [[("primary_key", "007"); ("full_name", "bond")]] in
  let duplicates :=
    [[("primary_key", "42"); ("full_name", "bob")];
     [("primary_key", "42"); ("full_name", "alice")]] in
  NoDup (map pk_of index) /\
  (forall x, In x index -> pk_of x <> None) /\
  (forall d x, In d duplicates -> In x index -> pk_of d <> pk_of x) /\
  Permutation (index ++ duplicates)
    [[("primary_key", "007"); ("full_name", "bond")];
     [("primary_key", "42"); ("full_name", "alice")];
     [("primary_key", "42"); ("full_name", "bob")]].
Proof.
  apply (index_quarantined ["id"]
           [["ID"; "Name"]; ["007"; "  Bond "]; ["42"; "alice"];
            ["42"; "bob"]]
           [("ID", "id"); ("Name", "full_name")] [] [] _ []).
  - simpl. intuition discriminate.
  - reflexivity.
Defined.

Lemma list_remove_incl (x : Dict.t) (l l' : list Dict.t) :
  list_remove x l = Ok l' -> incl l' l.
Proof.
  revert l'. induction l as [|y l IH]; intros l' H; simpl in H;
    [discriminate|].
  destruct (Dict.eqb y x).
  - injection H as <-. intros z I. right. exact I.
  - inv_bind H. injection H as <-. intros z [<-|I]; [left; reflexivity|].
    right. apply (IH a Ha). exact I.
Qed.

(** ** The comparison of two indices *)

Lemma in_keys_false (l : list Dict.t) (x : Dict.t) :
  in_keys l x = false <-> forall y, In y l -> pk_of y <> pk_of x.
Proof.
  unfold in_keys. split.
  - intros H y I E. apply has_pk_true in E.
    assert (T : existsb (has_pk (pk_of x)) l = true)
      by (apply existsb_exists; exists y; auto).
    congruence.
  - intros H. destruct (existsb (has_pk (pk_of x)) l) eqn:E; [|reflexivity].
    apply existsb_exists in E. destruct E as [y [I T]].
    apply has_pk_true in T. exfalso. apply (H y I T).
Qed.

Lemma in_keys_true (l : list Dict.t) (x : Dict.t) :
  in_keys l x = true <-> exists y, In y l /\ pk_of y = pk_of x.
Proof.
  unfold in_keys. rewrite existsb_exists. split; intros [y [I E]]; exists y;
    (split; [exact I | apply has_pk_true; exact E]).
Qed.

Lemma in_unmatched (l other : list Dict.t) (x : Dict.t) :
  In x (unmatched l other) <->
  In x l /\ forall y, In y other -> pk_of y <> pk_of x.
Proof.
  unfold unmatched. rewrite filter_In, negb_true_iff, in_keys_false.
  reflexivity.
Qed.

(** The records of an index with a given key: none, or one. *)
Lemma filter_has_pk_cases (l : list Dict.t) (k : option string) :
  NoDup (map pk_of l) ->
  (filter (has_pk k) l = [] /\ forall y, In y l -> pk_of y <> k) \/
  (exists m, filter (has_pk k) l = [m] /\ In m l /\ pk_of m = k).
Proof.
  intros ND. destruct (existsb (has_pk k) l) eqn:E.
  - right. apply existsb_exists in E. destruct E as [m [I T]].
    apply has_pk_true in T. exists m. subst k.
    rewrite filter_has_pk_unique by assumption. auto.
  - left. assert (A : forall y, In y l -> pk_of y <> k).
    { intros y I T. apply has_pk_true in T.
      assert (X : existsb (has_pk k) l = true)
        by (apply existsb_exists; exists y; auto).
      congruence. }
    split; [|exact A]. apply filter_none. intros y I.
    apply has_pk_false. apply A. exact I.
Qed.

Lemma list_remove_middle (x : Dict.t) (before after : list Dict.t) :
  (forall y, In y before -> pk_of y <> pk_of x) ->
  list_remove x (before ++ x :: after) = Ok (before ++ after).
Proof.
  induction before as [|y before IH]; intros H; simpl.
  - rewrite dict_eqb_refl. reflexivity.
  - destruct (Dict.eqb y x) eqn:E.
    + apply dict_eqb_pk in E. exfalso. apply (H y); [left; reflexivity|].
      exact E.
    + rewrite IH by (intros z I; apply H; right; exact I). reflexivity.
Qed.

Lemma in_keys_app (l l' : list Dict.t) (x : Dict.t) :
  in_keys (l ++ l') x = in_keys l x || in_keys l' x.
Proof. unfold in_keys. apply existsb_app. Qed.

Lemma unmatched_app (l l' other : list Dict.t) :
  unmatched (l ++ l') other = unmatched l other ++ unmatched l' other.
Proof. unfold unmatched. apply filter_app. Qed.

Lemma has_pk_sym (x y : Dict.t) : has_pk (pk_of x) y = has_pk (pk_of y) x.
Proof.
  destruct (has_pk (pk_of y) x) eqn:E.
  - apply has_pk_true in E. apply has_pk_true. congruence.
  - apply has_pk_false in E. apply has_pk_false. congruence.
Qed.

Lemma filter_filter (A : Type) (p q : A -> bool) (l : list A) :
  filter p (filter q l) = filter (fun x => q x && p x) l.
Proof.
  induction l as [|x l IH]; simpl; [reflexivity|].
  destruct (q x); simpl; [destruct (p x)|]; rewrite IH; reflexivity.
Qed.

Section CompareLoop.

Variables source_1_name source_2_name : string.
Variables index_1 index_2 : list Dict.t.
Hypothesis unique_1 : unique_keys index_1.
Hypothesis unique_2 : unique_keys index_2.

Lemma compare_loop_steps (todo done ds : list Dict.t) :
  index_1 = done ++ todo ->
  compare_loop source_1_name source_2_name todo (loop_state index_1 index_2 done todo ds) =
  (ds' <- differences_of source_1_name source_2_name todo index_2 ;;
   Ok (loop_state index_1 index_2 (done ++ todo) [] (ds ++ ds'))).
Proof.
  destruct unique_1 as [ND1 K1]. destruct unique_2 as [ND2 K2].
  revert done ds. induction todo as [|x todo IH]; intros done ds Hsplit.
  - simpl. rewrite !app_nil_r. reflexivity.
  - cbn [compare_loop differences_of].
    assert (Ix : In x index_1)
      by (rewrite Hsplit; apply in_or_app; right; left; reflexivity).
    assert (Hdone : forall y, In y done -> pk_of y <> pk_of x).
    { intros y Iy E. rewrite Hsplit, map_app in ND1. simpl in ND1.
      apply NoDup_remove_2 in ND1. apply ND1. apply in_or_app. left.
      rewrite <- E. apply in_map. exact Iy. }
    assert (Hsplit' : index_1 = (done ++ [x]) ++ todo)
      by (rewrite <- app_assoc; exact Hsplit).
    unfold compare_entry at 1. unfold Dict.getitem. fold (pk_of x).
    destruct (pk_of x) as [k|] eqn:Ek; [|exfalso; apply (K1 x Ix Ek)].
    unfold loop_state at 1. cbn [bind source_2_entries_copy].
    rewrite (select_pk_keyed k index_2 K2). cbn [bind].
    destruct (filter_has_pk_cases index_2 (Some k) ND2)
      as [[F A]|[m [F [Im Em]]]]; rewrite F.
    + (* the record is in source 1 only *)
      assert (Ux : in_keys index_2 x = false)
        by (apply in_keys_false; rewrite Ek; exact A).
      unfold loop_state.
      cbn [bind source_1_entries source_2_entries source_1_entries_copy
           source_2_entries_copy source_1_extra source_2_extra differences].
      specialize (IH (done ++ [x]) ds Hsplit').
      unfold loop_state in IH.
      rewrite unmatched_app in IH. unfold unmatched at 2 4 in IH.
      simpl filter in IH. rewrite Ux in IH. simpl negb in IH. cbv iota in IH.
      rewrite <- !app_assoc in IH. simpl app in IH.
      assert (S2 : filter (fun y => negb (in_keys (done ++ [x]) y)) index_2 =
                   filter (fun y => negb (in_keys done y)) index_2).
      { apply filter_ext_in. intros y Iy. rewrite in_keys_app.
        unfold in_keys at 2. simpl. rewrite orb_false_r.
        rewrite (proj2 (has_pk_false (pk_of y) x)), orb_false_r;
          [reflexivity|].
        rewrite Ek. intros E. apply (A y Iy). symmetry. exact E. }
      rewrite S2 in IH. exact IH.
    + (* the record is in both sources *)
      assert (Mx : in_keys index_2 x = true)
        by (apply in_keys_true; exists m; rewrite Ek; auto).
      unfold loop_state.
      cbn [source_1_entries source_2_entries source_1_entries_copy
           source_2_entries_copy source_1_extra source_2_extra differences].
      rewrite list_remove_middle
        by (intros y Iy; apply in_unmatched in Iy; rewrite Ek;
            apply Hdone; tauto).
      assert (Im' : In m (filter (fun y => negb (in_keys done y)) index_2)).
      { apply filter_In. split; [exact Im|].
        apply negb_true_iff, in_keys_false. intros y Iy E.
        apply (Hdone y Iy). congruence. }
      rewrite (list_remove_unique _ m (unique_pk_filter _ _ ND2) Im').
      rewrite filter_filter.
      assert (S2 : filter
                     (fun y => negb (in_keys done y) &&
                               negb (has_pk (pk_of m) y)) index_2 =
                   filter (fun y => negb (in_keys (done ++ [x]) y)) index_2).
      { apply filter_ext. intros y. rewrite in_keys_app, negb_orb.
        f_equal. unfold in_keys. simpl. rewrite orb_false_r.
        rewrite Em, <- Ek. f_equal. apply has_pk_sym. }
      rewrite S2, app_nil_r.
      specialize (IH (done ++ [x])). unfold loop_state in IH.
      rewrite unmatched_app in IH. unfold unmatched at 2 4 in IH.
      simpl filter in IH. rewrite Mx in IH. simpl negb in IH. cbv iota in IH.
      rewrite !app_nil_r in IH. rewrite <- !app_assoc in IH.
      simpl app in IH.
      destruct (Dict.eqb x m); cbn [negb bind].
      * exact (IH ds Hsplit).
      * destruct (make_difference_entry x m source_1_name source_2_name)
          as [d|e]; cbn [bind]; [|reflexivity].
        rewrite (IH (ds ++ [d]) Hsplit).
        destruct (differences_of source_1_name source_2_name todo index_2)
          as [ds'|e]; cbn [bind]; [|reflexivity].
        rewrite <- !app_assoc. reflexivity.
Qed.

(** What the comparison of two indices returns *)
Lemma compare_entries_result :
  compare_entries source_1_name source_2_name index_1 index_2 =
  (ds <- differences_of source_1_name source_2_name index_1 index_2 ;;
   Ok (mk_compare_state
         (unmatched index_1 index_2) (unmatched index_2 index_1)
         index_1 index_2
         (unmatched index_1 index_2) (unmatched index_2 index_1) ds)).
Proof.
  unfold compare_entries. cbn [source_1_entries_copy].
  pose proof (compare_loop_steps index_1 [] [] eq_refl) as L.
  assert (E : loop_state index_1 index_2 [] index_1 [] =
              mk_compare_state index_1 index_2 index_1 index_2 [] [] []).
  { unfold loop_state. cbn [unmatched filter app]. f_equal.
    apply filter_all. intros y _. reflexivity. }
  rewrite E in L. rewrite L.
  destruct (differences_of source_1_name source_2_name index_1 index_2);
    cbn [bind]; [|reflexivity].
  unfold loop_state.
  cbn [source_1_entries source_2_entries source_1_entries_copy
       source_2_entries_copy source_1_extra source_2_extra differences app].
  rewrite app_nil_r. reflexivity.
Qed.

End CompareLoop.

(** The entry of two records with one key, when the second has the fields of
    the first *)
Lemma make_difference_entry_total (x m : Dict.t) (n1 n2 : string) :
  pk_of x <> None -> pk_of x = pk_of m -> fields_covered x m ->
  exists d, make_difference_entry x m n1 n2 = Ok d.
Proof.
  unfold pk_of, make_difference_entry, Dict.getitem. intros K E C.
  rewrite <- E. destruct (Dict.get x "primary_key") as [k|]; [|congruence].
  cbn [bind]. rewrite String.eqb_refl. cbn [negb].
  destruct (difference_fields_cases x m n1 n2 (Dict.keys x)
              [("primary_key", k)] (keys_get x)) as [[[f [I N]] _]|[_ R]];
    [|exact R].
  exfalso. apply (C f I N).
Qed.

Lemma differences_of_In (n1 n2 : string) (l other ds : list Dict.t) :
  differences_of n1 n2 l other = Ok ds ->
  forall d, In d ds <->
    exists x m, In x l /\ filter (has_pk (pk_of x)) other = [m] /\
                Dict.eqb x m = false /\
                make_difference_entry x m n1 n2 = Ok d.
Proof.
  revert ds. induction l as [|x l IH]; intros ds H d; simpl in H.
  - injection H as <-. split; [intros [] | intros [? [? [[] _]]]].
  - assert (Skip : forall ds0,
               differences_of n1 n2 l other = Ok ds0 ->
               (forall m, filter (has_pk (pk_of x)) other = [m] ->
                          Dict.eqb x m = true) ->
               In d ds0 <->
               exists x0 m, In x0 (x :: l) /\
                 filter (has_pk (pk_of x0)) other = [m] /\
                 Dict.eqb x0 m = false /\
                 make_difference_entry x0 m n1 n2 = Ok d).
    { intros ds0 H0 Hx. rewrite (IH ds0 H0 d). split.
      - intros [x0 [m [I R]]]. exists x0, m. split; [right; exact I | exact R].
      - intros [x0 [m [[<-|I] [F [E R]]]]].
        + rewrite (Hx m F) in E. discriminate.
        + exists x0, m. auto. }
    destruct (filter (has_pk (pk_of x)) other) as [|m [|m' ms]] eqn:F.
    + apply Skip; [exact H | discriminate].
    + destruct (Dict.eqb x m) eqn:E.
      * apply Skip; [exact H|]. intros m0 E0. injection E0 as <-. exact E.
      * inv_bind H. inv_bind H. injection H as <-. simpl.
        rewrite (IH a0 Ha0 d). split.
        -- intros [<-|[x0 [m0 [I R]]]].
           ++ exists x, m. rewrite F. auto.
           ++ exists x0, m0. split; [right; exact I | exact R].
        -- intros [x0 [m0 [[<-|I] [F0 [E0 R]]]]].
           ++ left. rewrite F in F0. injection F0 as <-. congruence.
           ++ right. exists x0, m0. auto.
    + apply Skip; [exact H | discriminate].
Qed.

Lemma differences_of_total (n1 n2 : string) (l other : list Dict.t) :
  (forall x m, In x l -> filter (has_pk (pk_of x)) other = [m] ->
     exists d, make_difference_entry x m n1 n2 = Ok d) ->
  exists ds, differences_of n1 n2 l other = Ok ds.
Proof.
  induction l as [|x l IH]; intros H; simpl.
  - exists []. reflexivity.
  - destruct IH as [ds E];
      [intros y m I; apply H; right; exact I|].
    destruct (filter (has_pk (pk_of x)) other) as [|m [|m' ms]] eqn:F;
      try (exists ds; exact E).
    destruct (Dict.eqb x m); [exists ds; exact E|].
    destruct (H x m) as [d Ed]; [left; reflexivity | exact F|].
    rewrite Ed, E. cbn [bind]. exists (d :: ds). reflexivity.
Qed.

(** No entry for a key that no record of the list has *)
Lemma differences_of_other_key (n1 n2 : string) (l other ds : list Dict.t)
    (k : option string) :
  differences_of n1 n2 l other = Ok ds ->
  (forall y, In y l -> pk_of y <> k) ->
  filter (has_pk k) ds = [].
Proof.
  intros H N. apply filter_none. intros d I. apply has_pk_false.
  apply (differences_of_In _ _ _ _ _ H) in I.
  destruct I as [x [m [Ix [_ [_ R]]]]].
  apply make_difference_entry_primary_key in R. unfold pk_of. rewrite R.
  apply N. exact Ix.
Qed.

(** The entries for the key of a record of the list: the entry of the record
    and its match when they differ, none otherwise *)
Lemma differences_of_key (n1 n2 : string) (l other ds : list Dict.t)
    (x m : Dict.t) :
  NoDup (map pk_of l) ->
  differences_of n1 n2 l other = Ok ds ->
  In x l -> filter (has_pk (pk_of x)) other = [m] ->
  (Dict.eqb x m = true -> filter (has_pk (pk_of x)) ds = []) /\
  (Dict.eqb x m = false ->
   exists d, make_difference_entry x m n1 n2 = Ok d /\
             filter (has_pk (pk_of x)) ds = [d]).
Proof.
  revert ds. induction l as [|y l IH]; intros ds ND H I F; [contradiction|].
  simpl in ND. inversion ND as [|? ? N ND']; subst.
  assert (Nl : forall z, In z l -> pk_of z <> pk_of y)
    by (intros z Iz E; apply N; rewrite <- E; apply in_map; exact Iz).
  simpl in H. destruct I as [->|I].
  - rewrite F in H. destruct (Dict.eqb x m) eqn:E.
    + split; [intros _ | discriminate].
      apply (differences_of_other_key _ _ _ _ _ _ H Nl).
    + split; [discriminate | intros _].
      inv_bind H. inv_bind H. injection H as <-. exists a. split; [exact Ha|].
      simpl. apply make_difference_entry_primary_key in Ha.
      rewrite (proj2 (has_pk_true (pk_of x) a) Ha).
      rewrite (differences_of_other_key _ _ _ _ _ _ Ha0 Nl). reflexivity.
  - assert (Nx : pk_of y <> pk_of x) by (intros E; apply (Nl x I); auto).
    assert (Tail : forall ds0,
               differences_of n1 n2 l other = Ok ds0 ->
               forall d0, pk_of d0 = pk_of y ->
               filter (has_pk (pk_of x)) (d0 :: ds0) =
               filter (has_pk (pk_of x)) ds0).
    { intros ds0 _ d0 E0. simpl.
      rewrite (proj2 (has_pk_false (pk_of x) d0)); [reflexivity|].
      rewrite E0. exact Nx. }
    destruct (filter (has_pk (pk_of y)) other) as [|m0 [|m' ms]] eqn:Fy;
      try (apply IH; assumption).
    destruct (Dict.eqb y m0); [apply IH; assumption|].
    inv_bind H. inv_bind H. injection H as <-.
    apply make_difference_entry_primary_key in Ha.
    rewrite (Tail a0 Ha0 a Ha). apply IH; assumption.
Qed.

Lemma compare_entries_ok (n1 n2 : string) (index_1 index_2 : list Dict.t)
    (st : compare_state) :
  unique_keys index_1 -> unique_keys index_2 ->
  compare_entries n1 n2 index_1 index_2 = Ok st ->
  exists ds,
    differences_of n1 n2 index_1 index_2 = Ok ds /\
    st = mk_compare_state
           (unmatched index_1 index_2) (unmatched index_2 index_1)
           index_1 index_2
           (unmatched index_1 index_2) (unmatched index_2 index_1) ds.
Proof.
  intros U1 U2 H. rewrite (compare_entries_result n1 n2 _ _ U1 U2) in H.
  inv_bind H. injection H as <-. exists a. auto.
Qed.

Lemma matched_pair (index_2 : list Dict.t) (x m : Dict.t) :
  unique_keys index_2 -> In m index_2 -> pk_of x = pk_of m ->
  filter (has_pk (pk_of x)) index_2 = [m].
Proof.
  intros [ND _] I E. rewrite E. apply filter_has_pk_unique; assumption.
Qed.

(** The comparison completes when every record of index 2 has the non-key
    fields of the record of index 1 with its key. *)
Lemma compare_entries_total (n1 n2 : string) (index_1 index_2 : list Dict.t) :
  unique_keys index_1 -> unique_keys index_2 ->
  (forall x m, In x index_1 -> In m index_2 -> pk_of x = pk_of m ->
     fields_covered x m) ->
  exists st, compare_entries n1 n2 index_1 index_2 = Ok st.
Proof.
  intros U1 U2 C. rewrite (compare_entries_result n1 n2 _ _ U1 U2).
  destruct (differences_of_total n1 n2 index_1 index_2) as [ds E].
  - intros x m Ix F.
    assert (Im : In m (filter (has_pk (pk_of x)) index_2))
      by (rewrite F; left; reflexivity).
    apply filter_In in Im. destruct Im as [Im Em].
    apply has_pk_true in Em.
    apply make_difference_entry_total;
      [apply (proj2 U1); exact Ix | congruence |].
    apply C; [exact Ix | exact Im | congruence].
  - rewrite E. cbn [bind]. eexists. reflexivity.
Qed.

(** C2.  For two indices with unique keys, the comparison, when it
    completes, puts a record of index 1 into [source_1_extra] exactly when no
    record of index 2 has its key, and leaves in [source_2_extra] exactly the
    records of index 2 whose key no record of index 1 has, both in the order
    of their index.  It completes whenever every record of index 2 has the
    non-key fields of the record of index 1 with its key. *)
Theorem extras_are_the_unmatched (n1 n2 : string)
    (index_1 index_2 : list Dict.t) :
  unique_keys index_1 -> unique_keys index_2 ->
  ((forall x m, In x index_1 -> In m index_2 -> pk_of x = pk_of m ->
      fields_covered x m) ->
   exists st, compare_entries n1 n2 index_1 index_2 = Ok st) /\
  (forall st,
     compare_entries n1 n2 index_1 index_2 = Ok st ->
     (forall x, In x (source_1_extra st) <->
        In x index_1 /\ forall y, In y index_2 -> pk_of y <> pk_of x) /\
     (forall y, In y (source_2_extra st) <->
        In y index_2 /\ forall x, In x index_1 -> pk_of x <> pk_of y) /\
     source_1_extra st = unmatched index_1 index_2 /\
     source_2_extra st = unmatched index_2 index_1).
Proof.
  intros U1 U2. split.
  - apply compare_entries_total; assumption.
  - intros st H.
    destruct (compare_entries_ok n1 n2 _ _ _ U1 U2 H) as [ds [_ ->]].
    cbn [source_1_extra source_2_extra].
    split; [intros x; apply in_unmatched|].
    split; [intros y; apply in_unmatched|].
    split; reflexivity.
Qed.

Lemma extras_are_the_unmatched_witness :
  let index_1 :=
    [[("primary_key", "3"); ("status", "r")];
     [("primary_key", "9"); ("status", "active")]] in
  let index_2 :=
    [[("primary_key", "4"); ("status", "r")];
     [("primary_key", "9"); ("status", "closed")]] in
  exists st,
    compare_entries "S1" "S2" index_1 index_2 = Ok st /\
    source_1_extra st = [[("primary_key", "3"); ("status", "r")]] /\
    source_2_extra st = [[("primary_key", "4"); ("status", "r")]].
Proof.
  intros index_1 index_2.
  assert (U1 : unique_keys index_1).
  { split.
    - simpl. repeat constructor; simpl; intuition discriminate.
    - intros x [<-|[<-|[]]]; discriminate. }
  assert (U2 : unique_keys index_2).
  { split.
    - simpl. repeat constructor; simpl; intuition discriminate.
    - intros x [<-|[<-|[]]]; discriminate. }
  destruct (extras_are_the_unmatched "S1" "S2" _ _ U1 U2) as [_ H].
  eexists. split; [reflexivity|].
  destruct (H _ eq_refl) as [_ [_ [E1 E2]]].
  split; [exact E1 | exact E2].
Defined.

(** C3.  For two indices with unique keys and a key that a record of each
    carries, the comparison, when it completes, holds one difference entry
    for the key when the two records are not equal, the entry
    [make_difference_entry] gives for them, and none when they are equal; in
    that case neither record is among the extras.  It completes whenever
    every record of index 2 has the non-key fields of the record of index 1
    with its key. *)
Theorem one_difference_per_differing_pair (n1 n2 : string)
    (index_1 index_2 : list Dict.t) (x m : Dict.t) :
  unique_keys index_1 -> unique_keys index_2 ->
  In x index_1 -> In m index_2 -> pk_of x = pk_of m ->
  ((forall x' m', In x' index_1 -> In m' index_2 -> pk_of x' = pk_of m' ->
      fields_covered x' m') ->
   exists st, compare_entries n1 n2 index_1 index_2 = Ok st) /\
  (forall st,
     compare_entries n1 n2 index_1 index_2 = Ok st ->
     (Dict.eqb x m = false ->
      exists d, make_difference_entry x m n1 n2 = Ok d /\
                filter (has_pk (pk_of x)) (differences st) = [d]) /\
     (Dict.eqb x m = true ->
      filter (has_pk (pk_of x)) (differences st) = [] /\
      ~ In x (source_1_extra st) /\ ~ In m (source_2_extra st))).
Proof.
  intros U1 U2 Ix Im E. split; [apply compare_entries_total; assumption|].
  intros st H.
  destruct (compare_entries_ok n1 n2 _ _ _ U1 U2 H) as [ds [D ->]].
  cbn [differences source_1_extra source_2_extra].
  pose proof (matched_pair _ x m U2 Im E) as F.
  destruct (differences_of_key n1 n2 _ _ _ _ _ (proj1 U1) D Ix F)
    as [Same Diff].
  split; [exact Diff|].
  intros Eq. split; [apply Same; exact Eq|]. split.
  - intros I. apply in_unmatched in I. destruct I as [_ N].
    apply (N m Im). auto.
  - intros I. apply in_unmatched in I. destruct I as [_ N].
    apply (N x Ix). auto.
Qed.

Lemma one_difference_per_differing_pair_witness :
  let x := [("primary_key", "9"); ("status", "active")] in
  let m := [("primary_key", "9"); ("status", "closed")] in
  exists st d,
    compare_entries "S1" "S2" [x] [m] = Ok st /\
    make_difference_entry x m "S1" "S2" = Ok d /\
    filter (has_pk (pk_of x)) (differences st) = [d].
Proof.
  intros x m.
  assert (U1 : unique_keys [x]).
  { split.
    - simpl. repeat constructor; simpl; intuition discriminate.
    - intros y [<-|[]]; discriminate. }
  assert (U2 : unique_keys [m]).
  { split.
    - simpl. repeat constructor; simpl; intuition discriminate.
    - intros y [<-|[]]; discriminate. }
  eexists.
  destruct (one_difference_per_differing_pair "S1" "S2" [x] [m] x m
              U1 U2 (or_introl eq_refl) (or_introl eq_refl) eq_refl)
    as [_ H].
  destruct (H _ eq_refl) as [D _].
  destruct (D eq_refl) as [d [E F]].
  exists d. split; [reflexivity|]. split; [exact E | exact F].
Defined.

(** The loop changes neither copy and never touches [source_2_extra]; what
    it takes out of the two other lists was in them. *)
Lemma compare_entry_frame (n1 n2 : string) (st st' : compare_state)
    (entry : Dict.t) :
  compare_entry n1 n2 st entry = Ok st' ->
  source_1_entries_copy st' = source_1_entries_copy st /\
  source_2_entries_copy st' = source_2_entries_copy st /\
  source_2_extra st' = source_2_extra st /\
  incl (source_1_entries st') (source_1_entries st) /\
  incl (source_2_entries st') (source_2_entries st).
Proof.
  unfold compare_entry. intros H. inv_bind H. inv_bind H.
  destruct a0 as [|match_ [|? ?]].
  - injection H as <-. cbn. repeat split; apply incl_refl.
  - inv_bind H. inv_bind H. inv_bind H. injection H as <-. cbn.
    repeat split;
      [apply (list_remove_incl _ _ _ Ha2) | apply (list_remove_incl _ _ _ Ha3)].
  - injection H as <-. repeat split; apply incl_refl.
Qed.

Lemma compare_loop_frame (n1 n2 : string) (todo : list Dict.t)
    (st st' : compare_state) :
  compare_loop n1 n2 todo st = Ok st' ->
  source_1_entries_copy st' = source_1_entries_copy st /\
  source_2_entries_copy st' = source_2_entries_copy st /\
  source_2_extra st' = source_2_extra st /\
  incl (source_1_entries st') (source_1_entries st) /\
  incl (source_2_entries st') (source_2_entries st).
Proof.
  revert st. induction todo as [|entry todo IH]; intros st H; simpl in H.
  - injection H as <-. repeat split; apply incl_refl.
  - inv_bind H.
    destruct (compare_entry_frame _ _ _ _ _ Ha) as [C1 [C2 [E [I1 I2]]]].
    destruct (IH a H) as [C1' [C2' [E' [I1' I2']]]].
    repeat split; try congruence;
      [apply (incl_tran I1' I1) | apply (incl_tran I2' I2)].
Qed.

(** What a pass leaves of the lists, whatever the two indices *)
Lemma compare_entries_frame (n1 n2 : string) (index_1 index_2 : list Dict.t)
    (st : compare_state) :
  compare_entries n1 n2 index_1 index_2 = Ok st ->
  source_1_entries_copy st = index_1 /\
  source_2_entries_copy st = index_2 /\
  source_2_extra st = source_2_entries st /\
  incl (source_1_entries st) index_1 /\
  incl (source_2_entries st) index_2.
Proof.
  unfold compare_entries. cbn [source_1_entries_copy]. intros H. inv_bind H.
  injection H as <-.
  destruct (compare_loop_frame _ _ _ _ _ Ha) as [C1 [C2 [E [I1 I2]]]].
  cbn in *. rewrite E. auto.
Qed.

(** C8, amended.  A pass that completes leaves the two copies it reads as
    they were, whatever the indices; the removals are made on the lists
    [read_source_csv] returned, which lose records and gain none, and
    [source_2_extra] is the second of these lists as the pass leaves it.
    For two indices with unique keys the two lists hold after the pass
    exactly the records without a match, those of the two extras, and no
    record with a match is left in them. *)
Theorem original_indices_hold_extras (n1 n2 : string)
    (index_1 index_2 : list Dict.t) (st : compare_state) :
  compare_entries n1 n2 index_1 index_2 = Ok st ->
  (source_1_entries_copy st = index_1 /\
   source_2_entries_copy st = index_2 /\
   incl (source_1_entries st) index_1 /\
   incl (source_2_entries st) index_2 /\
   source_2_extra st = source_2_entries st) /\
  (unique_keys index_1 -> unique_keys index_2 ->
   source_1_entries st = unmatched index_1 index_2 /\
   source_2_entries st = unmatched index_2 index_1 /\
   source_1_entries st = source_1_extra st /\
   source_2_entries st = source_2_extra st /\
   (forall x, In x index_1 -> in_keys index_2 x = true ->
      ~ In x (source_1_entries st)) /\
   (forall y, In y index_2 -> in_keys index_1 y = true ->
      ~ In y (source_2_entries st))).
Proof.
  intros H. split.
  - destruct (compare_entries_frame _ _ _ _ _ H) as [C1 [C2 [E [I1 I2]]]].
    auto.
  - intros U1 U2.
    destruct (compare_entries_ok n1 n2 _ _ _ U1 U2 H) as [ds [_ ->]].
    cbn [source_1_entries source_2_entries source_1_entries_copy
         source_2_entries_copy source_1_extra source_2_extra].
    repeat split; intros z Iz M I; apply filter_In in I; destruct I as [_ I];
      rewrite M in I; discriminate.
Qed.

(** C8, as stated, fails: a record with a match is removed from the list
    [read_source_csv] returned, not from its copy. *)
Lemma original_index_is_changed :
  let x := [("primary_key", "9"); ("status", "active")] in
  exists st,
    compare_entries "Test 1" "Test 2" [x] [x] = Ok st /\
    source_1_entries st = [] /\ source_1_entries st <> [x] /\
    source_2_entries st = [] /\ source_2_entries st <> [x] /\
    source_1_entries_copy st = [x] /\ source_2_entries_copy st = [x].
Proof.
  eexists. split; [reflexivity|].
  repeat split; discriminate.
Qed.

Lemma original_indices_hold_extras_witness :
  let x := [("primary_key", "9"); ("status", "active")] in
  let y := [("primary_key", "3"); ("status", "r")] in
  exists st,
    compare_entries "Test 1" "Test 2" [y; x] [x] = Ok st /\
    source_1_entries st = [y] /\ source_2_entries st = [] /\
    source_1_entries_copy st = [y; x] /\ source_2_entries_copy st = [x].
Proof.
  intros x y.
  assert (U1 : unique_keys [y; x]).
  { split.
    - simpl. repeat constructor; simpl; intuition discriminate.
    - intros z [<-|[<-|[]]]; discriminate. }
  assert (U2 : unique_keys [x]).
  { split.
    - simpl. repeat constructor; simpl; intuition discriminate.
    - intros z [<-|[]]; discriminate. }
  eexists. split; [reflexivity|].
  destruct (original_indices_hold_extras "Test 1" "Test 2" [y; x] [x] _
              eq_refl)
    as [[C1 [C2 _]] U].
  destruct (U U1 U2) as [E1 [E2 _]].
  split; [exact E1|]. split; [exact E2|]. split; [exact C1 | exact C2].
Defined.

(** ** The comparison the other way round *)

Lemma get_In_NoDup (d : Dict.t) (k v : string) :
  NoDup (Dict.keys d) -> In (k, v) d -> Dict.get d k = Some v.
Proof.
  induction d as [|[k' v'] d IH]; simpl; intros ND I; [contradiction|].
  inversion ND as [|? ? N ND']; subst.
  destruct I as [E|I].
  - injection E as -> ->. rewrite String.eqb_refl. reflexivity.
  - destruct (String.eqb_spec k' k) as [->|_]; [|apply IH; assumption].
    exfalso. apply N. apply (in_map fst) in I. exact I.
Qed.

Lemma make_difference_entry_covered (x m : Dict.t) (n1 n2 : string)
    (d : Dict.t) :
  make_difference_entry x m n1 n2 = Ok d -> fields_covered x m.
Proof.
  unfold make_difference_entry, Dict.getitem. intros H.
  destruct (Dict.get x "primary_key") as [k|]; [|discriminate].
  destruct (Dict.get m "primary_key") as [k'|]; [|discriminate].
  cbn [bind] in H. destruct (negb (String.eqb k k')); [discriminate|].
  destruct (difference_fields_cases x m n1 n2 (Dict.keys x)
              [("primary_key", k)] (keys_get x)) as [[_ R]|[A _]];
    [congruence | exact A].
Qed.

Lemma difference_columns_keys (x m : Dict.t) (n1 n2 : string)
    (fields : list string) :
  Dict.keys (flat_map (difference_columns x m n1 n2) fields) =
  column_names fields n1 n2.
Proof.
  unfold Dict.keys, column_names.
  induction fields as [|f l IH]; simpl; [reflexivity|].
  rewrite IH. reflexivity.
Qed.

(** The entry of two records with one key, when no two columns have one
    name *)
Lemma make_difference_entry_shape (x m : Dict.t) (n1 n2 k : string)
    (d : Dict.t) :
  pk_of x = Some k ->
  make_difference_entry x m n1 n2 = Ok d ->
  NoDup (column_names (non_key_fields x) n1 n2) ->
  d = ("primary_key", k) ::
      flat_map (difference_columns x m n1 n2) (non_key_fields x) /\
  NoDup (Dict.keys d).
Proof.
  intros K H ND.
  pose proof (make_difference_entry_covered _ _ _ _ _ H) as C.
  assert (ND' : NoDup ("primary_key" :: column_names (non_key_fields x) n1 n2)).
  { constructor; [|exact ND].
    unfold column_names. rewrite in_flat_map.
    intros [f [_ [L|[L|[]]]]]; exact (label_not_primary_key _ _ L). }
  unfold make_difference_entry, Dict.getitem in H. unfold pk_of in K.
  rewrite K in H. cbn [bind] in H.
  destruct (Dict.get m "primary_key") as [k'|]; [|discriminate].
  cbn [bind] in H. destruct (negb (String.eqb k k')); [discriminate|].
  rewrite (difference_fields_columns x m n1 n2 (Dict.keys x)
             [("primary_key", k)] (keys_get x) C ND') in H.
  injection H as <-. split; [reflexivity|].
  change (NoDup ("primary_key" ::
                 Dict.keys (flat_map (difference_columns x m n1 n2)
                              (non_key_fields x)))).
  rewrite difference_columns_keys. exact ND'.
Qed.

(** What an entry shows for a field on which the two records differ *)
Lemma make_difference_entry_differing_field (x m : Dict.t)
    (n1 n2 : string) (d : Dict.t) (f : string) :
  pk_of x <> None ->
  make_difference_entry x m n1 n2 = Ok d ->
  NoDup (column_names (non_key_fields x) n1 n2) ->
  In f (non_key_fields x) ->
  value_of x f <> value_of m f ->
  Dict.get d (label f n1) = Some (value_of x f) /\
  Dict.get d (label f n2) = Some (value_of m f).
Proof.
  intros K H ND I V.
  destruct (pk_of x) as [k|] eqn:Ek; [|congruence].
  destruct (make_difference_entry_shape x m n1 n2 k d Ek H ND) as [-> NDk].
  assert (In (label f n1, value_of x f)
            (flat_map (difference_columns x m n1 n2) (non_key_fields x)) /\
          In (label f n2, value_of m f)
            (flat_map (difference_columns x m n1 n2) (non_key_fields x)))
    as [I1 I2].
  { split; apply in_flat_map; exists f; (split; [exact I|]);
      unfold difference_columns; [left; reflexivity|].
    right. left. apply String.eqb_neq in V. rewrite V. reflexivity. }
  split; apply get_In_NoDup; try exact NDk; right; assumption.
Qed.

(** What an entry shows for a field on which the two records agree *)
Lemma make_difference_entry_agreeing_field (x m : Dict.t)
    (n1 n2 : string) (d : Dict.t) (f : string) :
  pk_of x <> None ->
  make_difference_entry x m n1 n2 = Ok d ->
  NoDup (column_names (non_key_fields x) n1 n2) ->
  In f (non_key_fields x) ->
  value_of x f = value_of m f ->
  Dict.get d (label f n1) = Some (value_of x f) /\
  Dict.get d (label f n2) = Some "*same*".
Proof.
  intros K H ND I V.
  destruct (pk_of x) as [k|] eqn:Ek; [|congruence].
  destruct (make_difference_entry_shape x m n1 n2 k d Ek H ND) as [-> NDk].
  assert (In (label f n1, value_of x f)
            (flat_map (difference_columns x m n1 n2) (non_key_fields x)) /\
          In (label f n2, "*same*")
            (flat_map (difference_columns x m n1 n2) (non_key_fields x)))
    as [I1 I2].
  { split; apply in_flat_map; exists f; (split; [exact I|]);
      unfold difference_columns; [left; reflexivity|].
    right. left. rewrite V, String.eqb_refl. reflexivity. }
  split; apply get_In_NoDup; try exact NDk; right; assumption.
Qed.

(** A record that an entry could be made from and its match have the same
    non-key fields when an entry could be made the other way round too. *)
Lemma covered_field (x m : Dict.t) (f : string) :
  fields_covered x m -> In f (non_key_fields x) -> In f (non_key_fields m).
Proof.
  intros C If. apply in_non_key_fields. apply in_non_key_fields in If.
  split; [|tauto]. apply mem_keys. unfold Dict.mem.
  destruct (Dict.get m f) eqn:G; [reflexivity|].
  exfalso. apply (C f); [apply in_non_key_fields; exact If | exact G].
Qed.

Lemma differences_of_pair (n1 n2 : string) (l other ds : list Dict.t)
    (x m : Dict.t) :
  unique_keys l -> unique_keys other ->
  differences_of n1 n2 l other = Ok ds ->
  In x l -> In m other -> pk_of x = pk_of m -> Dict.eqb x m = false ->
  exists d, make_difference_entry x m n1 n2 = Ok d /\
            filter (has_pk (pk_of x)) ds = [d] /\ In d ds /\
            pk_of d = pk_of x.
Proof.
  intros U1 U2 D Ix Im E N.
  pose proof (matched_pair _ x m U2 Im E) as F.
  destruct (differences_of_key n1 n2 _ _ _ _ _ (proj1 U1) D Ix F) as [_ H].
  destruct (H N) as [d [R Fd]]. exists d. split; [exact R|].
  split; [exact Fd|].
  assert (I : In d (filter (has_pk (pk_of x)) ds))
    by (rewrite Fd; left; reflexivity).
  apply filter_In in I. destruct I as [I T]. apply has_pk_true in T. auto.
Qed.

Lemma difference_keys_swapped (n1 n2 n1' n2' : string)
    (index_1 index_2 ds ds' : list Dict.t) (k : option string) :
  unique_keys index_1 -> unique_keys index_2 ->
  differences_of n1 n2 index_1 index_2 = Ok ds ->
  differences_of n1' n2' index_2 index_1 = Ok ds' ->
  (exists d, In d ds /\ pk_of d = k) ->
  exists e, In e ds' /\ pk_of e = k.
Proof.
  intros U1 U2 D D' [d [I <-]].
  apply (differences_of_In _ _ _ _ _ D) in I.
  destruct I as [x [m [Ix [F [N R]]]]].
  assert (Im : In m (filter (has_pk (pk_of x)) index_2))
    by (rewrite F; left; reflexivity).
  apply filter_In in Im. destruct Im as [Im Em]. apply has_pk_true in Em.
  rewrite dict_eqb_sym in N.
  destruct (differences_of_pair n1' n2' _ _ _ m x U2 U1 D' Im Ix Em N)
    as [e [_ [_ [Ie Ee]]]].
  exists e. split; [exact Ie|].
  apply make_difference_entry_primary_key in R. unfold pk_of in *. congruence.
Qed.

(** C7, amended.  When comparing index A with index B and comparing B with
    A, the two source names exchanged, both complete (the indices with
    unique keys), the extras of one run are the extras of the other,
    exchanged, and the two runs hold difference entries for the same keys,
    one entry each for a pair of matched records that differ.  When no two
    columns of an entry have one name, the two entries of a pair have the
    same fields and, for every field on which the records differ, hold the
    same values under the two columns of the field; for every field on which
    the records agree, the entry of the first run holds the value under the
    column of A and the marker under the column of B, and the entry of the
    second run the value under the column of B and the marker under the
    column of A. *)
Theorem comparison_swapped (n1 n2 : string) (index_a index_b : list Dict.t)
    (st_ab st_ba : compare_state) :
  unique_keys index_a -> unique_keys index_b ->
  compare_entries n1 n2 index_a index_b = Ok st_ab ->
  compare_entries n2 n1 index_b index_a = Ok st_ba ->
  source_1_extra st_ab = source_2_extra st_ba /\
  source_2_extra st_ab = source_1_extra st_ba /\
  (forall k,
     (exists d, In d (differences st_ab) /\ pk_of d = k) <->
     (exists e, In e (differences st_ba) /\ pk_of e = k)) /\
  (forall x m,
     In x index_a -> In m index_b -> pk_of x = pk_of m ->
     Dict.eqb x m = false ->
     exists d e,
       filter (has_pk (pk_of x)) (differences st_ab) = [d] /\
       filter (has_pk (pk_of x)) (differences st_ba) = [e] /\
       (forall f, In f (non_key_fields x) <-> In f (non_key_fields m)) /\
       (NoDup (column_names (non_key_fields x) n1 n2) ->
        NoDup (column_names (non_key_fields m) n2 n1) ->
        forall f, In f (non_key_fields x) ->
          (value_of x f <> value_of m f ->
           Dict.get d (label f n1) = Some (value_of x f) /\
           Dict.get e (label f n1) = Some (value_of x f) /\
           Dict.get d (label f n2) = Some (value_of m f) /\
           Dict.get e (label f n2) = Some (value_of m f)) /\
          (value_of x f = value_of m f ->
           Dict.get d (label f n1) = Some (value_of x f) /\
           Dict.get d (label f n2) = Some "*same*" /\
           Dict.get e (label f n2) = Some (value_of m f) /\
           Dict.get e (label f n1) = Some "*same*"))).
Proof.
  intros Ua Ub Hab Hba.
  destruct (compare_entries_ok n1 n2 _ _ _ Ua Ub Hab) as [ds [D ->]].
  destruct (compare_entries_ok n2 n1 _ _ _ Ub Ua Hba) as [ds' [D' ->]].
  cbn [source_1_extra source_2_extra differences].
  split; [reflexivity|]. split; [reflexivity|]. split.
  - intros k. split.
    + apply (difference_keys_swapped n1 n2 n2 n1 _ _ _ _ k Ua Ub D D').
    + apply (difference_keys_swapped n2 n1 n1 n2 _ _ _ _ k Ub Ua D' D).
  - intros x m Ix Im E N.
    destruct (differences_of_pair n1 n2 _ _ _ x m Ua Ub D Ix Im E N)
      as [d [R [F _]]].
    assert (N' : Dict.eqb m x = false) by (rewrite dict_eqb_sym; exact N).
    destruct (differences_of_pair n2 n1 _ _ _ m x Ub Ua D' Im Ix
                (eq_sym E) N') as [e [R' [F' _]]].
    pose proof (make_difference_entry_covered _ _ _ _ _ R) as C.
    pose proof (make_difference_entry_covered _ _ _ _ _ R') as C'.
    exists d, e. split; [exact F|]. split; [rewrite E; exact F'|].
    split; [intros f; split; apply covered_field; assumption|].
    intros ND ND' f If.
    assert (Kx : pk_of x <> None) by (apply (proj2 Ua); exact Ix).
    assert (Km : pk_of m <> None) by (apply (proj2 Ub); exact Im).
    pose proof (covered_field x m f C If) as If'.
    split; intros V.
    + destruct (make_difference_entry_differing_field x m n1 n2 d f Kx R ND
                  If V) as [G1 G2].
      destruct (make_difference_entry_differing_field m x n2 n1 e f Km R' ND'
                  If' (fun E' => V (eq_sym E'))) as [G3 G4].
      auto.
    + destruct (make_difference_entry_agreeing_field x m n1 n2 d f Kx R ND
                  If V) as [G1 G2].
      destruct (make_difference_entry_agreeing_field m x n2 n1 e f Km R' ND'
                  If' (eq_sym V)) as [G3 G4].
      auto.
Qed.

(** C7, as stated, fails on a pair of matched records that agree on one
    field and differ on another: each run writes the shared value under the
    column of its own first source and the marker under the other, so the
    entry of the second run equals that of the first neither as it is nor
    with the two labels exchanged. *)
Lemma comparison_swapped_marker_column :
  let a := [("primary_key", "1"); ("x", "p"); ("y", "q")] in
  let b := [("primary_key", "1"); ("x", "p"); ("y", "r")] in
  exists st_ab st_ba st_ba' d e e',
    compare_entries "S1" "S2" [a] [b] = Ok st_ab /\
    compare_entries "S2" "S1" [b] [a] = Ok st_ba /\
    compare_entries "S1" "S2" [b] [a] = Ok st_ba' /\
    differences st_ab = [d] /\ differences st_ba = [e] /\
    differences st_ba' = [e'] /\
    Dict.eqb d e = false /\ Dict.eqb d e' = false /\
    Dict.get d (label "x" "S1") = Some "p" /\
    Dict.get e (label "x" "S1") = Some "*same*" /\
    Dict.get d (label "y" "S1") = Some "q" /\
    Dict.get e' (label "y" "S1") = Some "r".
Proof.
  do 6 eexists. repeat split; reflexivity.
Qed.

(** The second run may fail where the first completes: a record of index B
    with a field that its match in index A lacks. *)
Example comparison_swapped_schema :
  let a := [("primary_key", "1"); ("x", "p")] in
  let b := [("primary_key", "1"); ("x", "p"); ("y", "r")] in
  Py.is_ok (compare_entries "S1" "S2" [a] [b]) = true /\
  compare_entries "S2" "S1" [b] [a] = Raise SchemaMismatchError.
Proof. split; reflexivity. Qed.

Lemma comparison_swapped_witness :
  let a := [("primary_key", "1"); ("x", "p"); ("y", "q")] in
  let b := [("primary_key", "1"); ("x", "p"); ("y", "r")] in
  let c := [("primary_key", "2"); ("x", "p"); ("y", "q")] in
  exists st_ab st_ba d e,
    compare_entries "S1" "S2" [a; c] [b] = Ok st_ab /\
    compare_entries "S2" "S1" [b] [a; c] = Ok st_ba /\
    source_1_extra st_ab = source_2_extra st_ba /\
    source_2_extra st_ab = source_1_extra st_ba /\
    filter (has_pk (pk_of a)) (differences st_ab) = [d] /\
    filter (has_pk (pk_of a)) (differences st_ba) = [e] /\
    Dict.get d (label "y" "S1") = Some "q" /\
    Dict.get e (label "y" "S1") = Some "q" /\
    Dict.get d (label "x" "S2") = Some "*same*" /\
    Dict.get e (label "x" "S1") = Some "*same*".
Proof.
  intros a b c.
  assert (Ua : unique_keys [a; c]).
  { split.
    - simpl. repeat constructor; simpl; intuition discriminate.
    - intros z [<-|[<-|[]]]; discriminate. }
  assert (Ub : unique_keys [b]).
  { split.
    - simpl. repeat constructor; simpl; intuition discriminate.
    - intros z [<-|[]]; discriminate. }
  assert (ND : NoDup (column_names (non_key_fields a) "S1" "S2"))
    by (repeat constructor; simpl; intuition discriminate).
  assert (ND' : NoDup (column_names (non_key_fields b) "S2" "S1"))
    by (repeat constructor; simpl; intuition discriminate).
  do 2 eexists.
  destruct (comparison_swapped "S1" "S2" [a; c] [b] _ _ Ua Ub eq_refl eq_refl)
    as [E1 [E2 [_ P]]].
  destruct (P a b (or_introl eq_refl) (or_introl eq_refl) eq_refl eq_refl)
    as [d [e [Fd [Fe [_ V]]]]].
  exists d, e. split; [reflexivity|]. split; [reflexivity|].
  split; [exact E1|]. split; [exact E2|].
  split; [exact Fd|]. split; [exact Fe|].
  destruct (V ND ND' "y") as [Vy _];
    [right; left; reflexivity|].
  destruct Vy as [G1 [G2 _]]; [discriminate|].
  destruct (V ND ND' "x") as [_ Vx];
    [left; reflexivity|].
  destruct (Vx eq_refl) as [_ [G3 [_ G4]]].
  split; [exact G1|]. split; [exact G2|]. split; [exact G3 | exact G4].
Defined.

Lemma make_mapping_dict_checks_witness :
  let headers := ["standard"; "source"] in
  make_mapping_dict ["id"] [headers; ["id"; "ID"]; ["full_name"]] "mapping" =
  Raise (MappingFormatError "mapping") /\
  make_mapping_dict ["id"] [headers; ["id"; "ID"]; ["full_name"; "ID"]]
    "mapping" = Raise DuplicateKeyError /\
  make_mapping_dict ["id"] [headers; ["full_name"; "Name"]] "mapping" =
  Raise ConfigError /\
  make_mapping_dict ["id"] [headers; ["id"; "ID"]; ["full_name"; "Name"]]
    "mapping" = Ok [("ID", "id"); ("Name", "full_name")].
Proof.
  intros headers.
  assert (V1 : valid_rows [["id"; "ID"]]).
  { split; repeat constructor; simpl; auto. }
  assert (V2 : valid_rows [["full_name"; "Name"]]).
  { split; repeat constructor; simpl; auto. }
  assert (V3 : valid_rows [["id"; "ID"]; ["full_name"; "Name"]]).
  { split; repeat constructor; simpl; auto; intuition discriminate. }
  split; [|split; [|split]].
  - destruct (make_mapping_dict_checks ["id"] "mapping" headers
                [["id"; "ID"]; ["full_name"]] eq_refl) as [H _].
    destruct (H [["id"; "ID"]] ["full_name"] [] eq_refl V1) as [F _].
    apply F. simpl. lia.
  - destruct (make_mapping_dict_checks ["id"] "mapping" headers
                [["id"; "ID"]; ["full_name"; "ID"]] eq_refl) as [H _].
    destruct (H [["id"; "ID"]] ["full_name"; "ID"] [] eq_refl V1) as [_ D].
    apply D; [simpl; lia | left; reflexivity].
  - destruct (make_mapping_dict_checks ["id"] "mapping" headers
                [["full_name"; "Name"]] eq_refl) as [_ [H _]].
    destruct (H V2 eq_refl) as [C _]. apply C.
    exists "id". split; [left; reflexivity|].
    simpl. intuition discriminate.
  - destruct (make_mapping_dict_checks ["id"] "mapping" headers
                [["id"; "ID"]; ["full_name"; "Name"]] eq_refl) as [_ [H _]].
    destruct (H V3 eq_refl) as [_ O]. apply O.
    intros k [<-|[]]. left. reflexivity.
Defined.

Lemma filtered_row_dropped_witness :
  read_source_csv ["id"] [["ID"; "Name"]; ["7"; "Bond"]]
    [("ID", "id"); ("Name", "full_name")] [] [("full_name", "test")] =
  Ok ([[("primary_key", "7"); ("full_name", "bond")]], [], []).
Proof.
  apply (proj2 (filtered_row_dropped ["id"]
                  [("ID", "id"); ("Name", "full_name")] []
                  [("full_name", "test")] ["ID"; "Name"] ["8"; " Test"]
                  "8 " [("primary_key", "8"); ("full_name", "test")]
                  eq_refl eq_refl)
           [["7"; "Bond"]] []).
  reflexivity.
Defined.

(** ** The scenarios of the specification, run on the program *)

Example scenario_bond :
  let mapping := [["standard"; "source"]; ["id"; "ID"]; ["full_name"; "Name"]]
  in
  compare_sources Config.primary_keys Config.source_1_name
    Config.source_2_name "Test 1" "Test 2"
    [["ID"; "Name"]; ["007"; "  Bond "]] [["ID"; "Name"]; ["007"; "Bond"]]
    mapping [["value"; "translation"]] [["field"; "value"]] = Ok [].
Proof. reflexivity. Qed.

(** The cell of that scenario ends, as the specification prints it, with
    U+200B, which is no white space for [str.strip]: the normalized cell
    keeps it, and the space before it. *)
Example scenario_bond_cell :
  Unicode.normalize (Unicode.of_string "  Bond " ++ [0x200b]%N) =
  Unicode.of_string "bond " ++ [0x200b]%N.
Proof. vm_compute. reflexivity. Qed.

Example scenario_duplicates :
  read_source_csv Config.primary_keys
    [["ID"; "Name"]; ["42"; "Alice"]; ["42"; "Bob"]]
    [("ID", "id"); ("Name", "full_name")] [] [] =
  Ok ([], [],
      [[("primary_key", "42"); ("full_name", "bob")];
       [("primary_key", "42"); ("full_name", "alice")]]).
Proof. reflexivity. Qed.

Example scenario_difference :
  make_difference_entry
    [("primary_key", "9"); ("status", "active")]
    [("primary_key", "9"); ("status", "closed")] "S1" "S2" =
  Ok [("primary_key", "9"); ("status-[S1]", "active");
      ("status-[S2]", "closed")].
Proof. reflexivity. Qed.

(** * Further properties of the program *)

(** ** [normalize] on what it returns, and on blank strings *)

Lemma lower_char_fixed (c : ascii) :
  Str.lower_char (Str.lower_char c) = Str.lower_char c.
Proof.
  destruct c as [[] [] [] [] [] [] [] []]; vm_compute; reflexivity.
Qed.

Lemma lower_char_space (c : ascii) :
  Str.is_space (Str.lower_char c) = Str.is_space c.
Proof.
  destruct c as [[] [] [] [] [] [] [] []]; vm_compute; reflexivity.
Qed.

Lemma dropwhile_lower (l : list ascii) :
  Str.dropwhile Str.is_space (map Str.lower_char l) =
  map Str.lower_char (Str.dropwhile Str.is_space l).
Proof.
  induction l as [|c l IH]; simpl; [reflexivity|].
  rewrite lower_char_space. destruct (Str.is_space c); [exact IH|reflexivity].
Qed.

Lemma trim_lower (l : list ascii) :
  trim (map Str.lower_char l) = map Str.lower_char (trim l).
Proof.
  unfold trim. rewrite dropwhile_lower, <- map_rev, dropwhile_lower, map_rev.
  reflexivity.
Qed.

Lemma dropwhile_kept (p : ascii -> bool) (l : list ascii) :
  match l with c :: _ => p c = false | [] => True end ->
  Str.dropwhile p l = l.
Proof.
  destruct l as [|c l]; simpl; [reflexivity|]. intros ->. reflexivity.
Qed.

Lemma dropwhile_starts (p : ascii -> bool) (l : list ascii) :
  match Str.dropwhile p l with c :: _ => p c = false | [] => True end.
Proof.
  destruct (Str.dropwhile p l) as [|c l'] eqn:E; [exact I|].
  apply dropwhile_head in E. exact E.
Qed.

Lemma dropwhile_all (p : ascii -> bool) (l : list ascii) :
  Str.dropwhile p l = [] <-> forallb p l = true.
Proof.
  induction l as [|c l IH]; simpl; [tauto|].
  destruct (p c); simpl; [exact IH|]. split; discriminate.
Qed.

(** What is left of a list without leading white space, once the trailing
    white space is dropped, starts as the list does. *)
Lemma trim_starts (l : list ascii) :
  match trim l with c :: _ => Str.is_space c = false | [] => True end.
Proof.
  unfold trim. set (L := Str.dropwhile Str.is_space l).
  destruct (dropwhile_suffix Str.is_space (rev L)) as [pre E].
  apply (f_equal (@rev ascii)) in E. rewrite rev_involutive, rev_app_distr in E.
  destruct (rev (Str.dropwhile Str.is_space (rev L))) as [|c t]; [exact I|].
  simpl in E. unfold L in E. apply dropwhile_head in E. exact E.
Qed.

Lemma trim_fixed (l : list ascii) : trim (trim l) = trim l.
Proof.
  unfold trim at 1.
  rewrite (dropwhile_kept Str.is_space (trim l) (trim_starts l)).
  unfold trim. rewrite rev_involutive.
  rewrite (dropwhile_kept Str.is_space _ (dropwhile_starts Str.is_space _)).
  reflexivity.
Qed.

Lemma trim_nil (l : list ascii) :
  trim l = [] <-> forallb Str.is_space l = true.
Proof.
  unfold trim. split.
  - intros E. apply (f_equal (@rev ascii)) in E.
    rewrite rev_involutive in E. simpl in E.
    apply dropwhile_all in E. rewrite forallb_forall in E.
    pose proof (dropwhile_starts Str.is_space l) as S.
    destruct (Str.dropwhile Str.is_space l) as [|c t] eqn:D.
    + apply dropwhile_all. exact D.
    + rewrite (E c) in S; [discriminate|].
      apply -> in_rev. left. reflexivity.
  - intros A. apply dropwhile_all in A. rewrite A. reflexivity.
Qed.

Lemma normalize_trim (x : string) :
  Str.chars (normalize x) = trim (map Str.lower_char (Str.chars x)).
Proof. apply normalize_chars. Qed.

Lemma normalize_again (x : string) : normalize (normalize x) = normalize x.
Proof.
  apply chars_injective. rewrite (normalize_trim (normalize x)).
  rewrite normalize_trim, trim_lower, trim_fixed, <- trim_lower, map_map.
  f_equal. apply map_ext. intros c. apply lower_char_fixed.
Qed.

(** X1.  [normalize] changes nothing in a string it returned: case and outer
    white space are dealt with in one pass. *)
Theorem normalize_idempotent (x : string) :
  normalize (normalize x) = normalize x.
Proof. exact (normalize_again x). Qed.

Lemma normalize_empty (x : string) :
  normalize x = "" <-> String.eqb x "" || Str.isspace x = true.
Proof.
  assert (N : normalize x = "" <-> forallb Str.is_space (Str.chars x) = true).
  { split.
    - intros E. apply (f_equal Str.chars) in E. rewrite normalize_trim in E.
      apply trim_nil in E. rewrite forallb_forall in *. intros c I.
      rewrite <- lower_char_space. apply E. apply in_map. exact I.
    - intros A. apply chars_injective. rewrite normalize_trim.
      apply trim_nil. rewrite forallb_forall in *. intros c I.
      apply in_map_iff in I. destruct I as [c0 [<- I]].
      rewrite lower_char_space. apply A. exact I. }
  rewrite N. unfold Str.isspace.
  destruct x as [|c x]; [simpl; tauto|].
  simpl String.eqb. cbn [orb]. reflexivity.
Qed.

(** X2.  [normalize] returns the empty string exactly for the empty string
    and the strings of white space only: the test of [read_source_csv] for a
    row without a key, [pk == "" or pk.isspace()], says whether the key it
    stores is empty. *)
Theorem normalize_blank (x : string) :
  normalize x = "" <-> String.eqb x "" || Str.isspace x = true.
Proof. exact (normalize_empty x). Qed.

(** ** The loaders *)

Lemma filtering_lines_short (lines : list row)
    (acc : list (string * string)) :
  forallb (fun line => 2 <=? List.length line) lines = false ->
  filtering_lines lines acc = Raise FilterFormatError.
Proof.
  revert acc. induction lines as [|line lines IH]; intros acc H; simpl in H;
    [discriminate|].
  destruct line as [|fieldname [|value tl]]; try reflexivity.
  simpl in H. simpl. apply IH. exact H.
Qed.

(** X3.  [make_filtering_list] skips the header row and returns one rule for
    every other row, its first two cells as they are, in the order of the
    file and with repeated rules kept; a row with fewer than two cells
    anywhere in the file makes it raise the [IndexError] instead. *)
Theorem make_filtering_list_rows (headers : row) (lines : list row) :
  make_filtering_list (headers :: lines) =
  if forallb (fun line => 2 <=? List.length line) lines
  then Ok (rules_of lines) else Raise FilterFormatError.
Proof.
  unfold make_filtering_list.
  destruct (forallb (fun line => 2 <=? List.length line) lines) eqn:E.
  - apply (filtering_lines_verbatim lines []). apply Forall_forall.
    intros line I. rewrite forallb_forall in E. specialize (E line I).
    apply Nat.leb_le in E. exact E.
  - apply filtering_lines_short. exact E.
Qed.

Lemma mapping_lines_errors (mode : string) (lines : list row)
    (d0 : Dict.t) e :
  mapping_lines mode lines d0 = Raise e ->
  e = MappingFormatError mode \/ e = DuplicateKeyError.
Proof.
  revert d0. induction lines as [|line lines IH]; intros d0 H;
    [discriminate|].
  destruct line as [|standard_name [|source_name tl]];
    try (left; simpl in H; congruence).
  simpl in H. destruct (Dict.mem source_name d0); simpl in H.
  - right. congruence.
  - apply (IH _ H).
Qed.

(** X4.  In translations mode [make_mapping_dict] makes no check of the
    primary keys: whatever they are, rows of two cells at least with no
    source value twice give the table of the rows, and any other rows give
    the format error or the duplicate error, never the error of a missing
    primary key. *)
Theorem make_mapping_dict_translations (primary_keys : list string)
    (headers : row) (lines : list row) :
  (valid_rows lines /\
   make_mapping_dict primary_keys (headers :: lines) "translations" =
   Ok (table_of lines)) \/
  (~ valid_rows lines /\
   (make_mapping_dict primary_keys (headers :: lines) "translations" =
    Raise (MappingFormatError "translations") \/
    make_mapping_dict primary_keys (headers :: lines) "translations" =
    Raise DuplicateKeyError)).
Proof.
  unfold make_mapping_dict. simpl str_in. cbn [negb].
  destruct (mapping_lines "translations" lines []) as [d|e] eqn:E.
  - left. destruct (mapping_lines_ok _ _ _ _ E) as [V _].
    rewrite (mapping_lines_valid "translations" lines []) in E
      by (auto; intros ? ? []).
    injection E as <-. split; [exact V | reflexivity].
  - right. split.
    + intros V.
      rewrite (mapping_lines_valid "translations" lines []) in E
        by (auto; intros ? ? []).
      discriminate.
    + cbn [bind].
      destruct (mapping_lines_errors _ _ _ _ E) as [-> | ->]; auto.
Qed.

Lemma table_of_lookup (lines : list row) (line : row) :
  NoDup (map source_name_of lines) -> In line lines ->
  Dict.get (table_of lines) (source_name_of line) =
  Some (standard_name_of line).
Proof.
  intros ND I. apply get_In_NoDup.
  - rewrite table_of_keys. exact ND.
  - unfold table_of. apply in_map_iff. exists line. auto.
Qed.

(** X5.  A table [make_mapping_dict] returns maps the source name of every
    row of the file to the standard name of that row, and holds nothing
    else: every entry of it is a row of the file.  Several source names may
    share a standard name. *)
Theorem make_mapping_dict_lookup (primary_keys : list string)
    (mapping_csv : csv) (mode : string) (d : Dict.t) :
  make_mapping_dict primary_keys mapping_csv mode = Ok d ->
  (forall line, In line (tl mapping_csv) ->
     Dict.get d (source_name_of line) = Some (standard_name_of line)) /\
  (forall source_name standard_name,
     Dict.get d source_name = Some standard_name ->
     exists line, In line (tl mapping_csv) /\
       source_name_of line = source_name /\
       standard_name_of line = standard_name).
Proof.
  unfold make_mapping_dict. intros H.
  destruct (negb (str_in mode ["mapping"; "translations"])); [discriminate|].
  destruct mapping_csv as [|headers lines]; [discriminate|]. simpl tl.
  inv_bind H.
  assert (E : d = a).
  { destruct (String.eqb mode "mapping"); [|congruence].
    inv_bind H. congruence. }
  subst a. clear H.
  destruct (mapping_lines_ok _ _ _ _ Ha) as [[HF HN] _].
  rewrite (mapping_lines_valid mode lines []) in Ha
    by (try split; auto; intros ? ? []).
  injection Ha as <-. simpl app. split.
  - intros line I. apply table_of_lookup; assumption.
  - intros source_name standard_name G. apply get_Some_In in G.
    unfold table_of in G. apply in_map_iff in G.
    destruct G as [line [E I]]. injection E as <- <-.
    exists line. auto.
Qed.

Lemma make_mapping_dict_lookup_witness :
  Dict.get [("ID", "id"); ("Name", "full_name"); ("Nom", "full_name")] "Nom" =
  Some "full_name".
Proof.
  apply (proj1 (make_mapping_dict_lookup ["id"]
                  [["standard"; "source"]; ["id"; "ID"];
                   ["full_name"; "Name"]; ["full_name"; "Nom"]]
                  "mapping" _ eq_refl) ["full_name"; "Nom"]).
  simpl. auto.
Defined.

(** ** Difference entries and the fields of the second record *)

Lemma difference_fields_agree (ks : list string) (x m m' : Dict.t)
    (n1 n2 : string) (acc : Dict.t) :
  (forall k, In k ks -> Dict.get m k = Dict.get m' k) ->
  difference_fields ks x m n1 n2 acc = difference_fields ks x m' n1 n2 acc.
Proof.
  revert acc. induction ks as [|k ks IH]; intros acc H; simpl; [reflexivity|].
  assert (H' : forall k0, In k0 ks -> Dict.get m k0 = Dict.get m' k0)
    by (intros k0 I; apply H; right; exact I).
  destruct (String.eqb k "primary_key"); [apply IH; exact H'|].
  destruct (Dict.getitem x k) as [v1|e]; simpl; [|reflexivity].
  rewrite <- (H k) by (left; reflexivity).
  destruct (Dict.get m k); [apply IH; exact H' | reflexivity].
Qed.

(** X6.  [make_difference_entry] reads of the second record the fields of
    the first only: two second records that agree on the fields of the first
    give the same result, so a field that only the second source has is
    never reported, and no error is raised for it. *)
Theorem make_difference_entry_reads_fields_of_first (x m m' : Dict.t)
    (n1 n2 : string) :
  (forall k, In k (Dict.keys x) -> Dict.get m k = Dict.get m' k) ->
  make_difference_entry x m n1 n2 = make_difference_entry x m' n1 n2.
Proof.
  intros H. unfold make_difference_entry, Dict.getitem.
  destruct (Dict.get x "primary_key") as [pk_1|] eqn:E; [|reflexivity].
  cbn [bind]. rewrite <- (H "primary_key").
  - destruct (Dict.get m "primary_key") as [pk_2|]; [|reflexivity].
    cbn [bind]. destruct (negb (String.eqb pk_1 pk_2)); [reflexivity|].
    apply difference_fields_agree. exact H.
  - apply mem_keys. unfold Dict.mem. rewrite E. reflexivity.
Qed.

Lemma make_difference_entry_reads_fields_of_first_witness :
  make_difference_entry
    [("primary_key", "9"); ("status", "active")]
    [("primary_key", "9"); ("status", "active"); ("note", "late")] "S1" "S2" =
  make_difference_entry
    [("primary_key", "9"); ("status", "active")]
    [("primary_key", "9"); ("status", "active")] "S1" "S2".
Proof.
  apply make_difference_entry_reads_fields_of_first.
  intros k [<-|[<-|[]]]; reflexivity.
Defined.

(** ** The columns of a difference entry under the configured names *)

Lemma chars_length (s : string) : List.length (Str.chars s) = String.length s.
Proof.
  induction s as [|c s IH]; simpl; [reflexivity|].
  unfold Str.chars in *. simpl. rewrite IH. reflexivity.
Qed.

Lemma app_same_length (a b x y : list ascii) :
  List.length a = List.length b -> a ++ x = b ++ y -> a = b /\ x = y.
Proof.
  revert b. induction a as [|c a IH]; intros [|c' b] L E; simpl in *;
    try discriminate; [auto|].
  injection E as -> E. destruct (IH b) as [-> ->]; [lia | exact E | auto].
Qed.

Lemma label_same_length (f g a b : string) :
  String.length a = String.length b ->
  label f a = label g b -> f = g /\ a = b.
Proof.
  intros L E. apply (f_equal Str.chars) in E. rewrite !label_chars in E.
  apply app_inj_tail in E. destruct E as [E _].
  assert (Lf : List.length (Str.chars f) = List.length (Str.chars g)).
  { apply (f_equal (@List.length ascii)) in E.
    rewrite !length_app, !chars_length in E. rewrite !chars_length. lia. }
  destruct (app_same_length _ _ _ _ Lf E) as [Ef Er].
  apply app_inv_head in Er.
  split; apply chars_injective; assumption.
Qed.

Lemma column_names_distinct (fields : list string) (n1 n2 : string) :
  NoDup fields -> n1 <> n2 -> String.length n1 = String.length n2 ->
  NoDup (column_names fields n1 n2).
Proof.
  intros ND N L. induction fields as [|f fields IH]; simpl; [constructor|].
  inversion ND as [|? ? Nf ND']; subst.
  assert (Out : forall a, a = n1 \/ a = n2 ->
                  ~ In (label f a) (column_names fields n1 n2)).
  { intros a Ha I. unfold column_names in I. apply in_flat_map in I.
    destruct I as [g [Ig [E|[E|[]]]]]; apply Nf.
    - destruct (label_same_length g f n1 a) as [<- _]; auto.
      destruct Ha as [->| ->]; auto.
    - destruct (label_same_length g f n2 a) as [<- _]; auto.
      destruct Ha as [->| ->]; auto. }
  constructor.
  - intros [E|I].
    + destruct (label_same_length f f n2 n1) as [_ E']; auto.
    + apply (Out n1); auto.
  - constructor; [apply (Out n2); auto | apply IH; exact ND'].
Qed.

(** X7.  With two different source names of one length, as the configured
    names are, no two columns of a difference entry have one name: the entry
    of a record 1 is its key followed by two columns for every other field
    of record 1, in the order of record 1. *)
Theorem make_difference_entry_two_columns_per_field (x m : Dict.t)
    (n1 n2 k : string) (d : Dict.t) :
  NoDup (Dict.keys x) -> n1 <> n2 -> String.length n1 = String.length n2 ->
  pk_of x = Some k ->
  make_difference_entry x m n1 n2 = Ok d ->
  d = ("primary_key", k) ::
      flat_map (difference_columns x m n1 n2) (non_key_fields x) /\
  NoDup (Dict.keys d) /\
  List.length d = 1 + 2 * List.length (non_key_fields x).
Proof.
  intros ND N L K H.
  assert (NDc : NoDup (column_names (non_key_fields x) n1 n2)).
  { apply column_names_distinct; auto. apply NoDup_filter. exact ND. }
  destruct (make_difference_entry_shape x m n1 n2 k d K H NDc) as [E NDk].
  split; [exact E|]. split; [exact NDk|]. rewrite E. simpl. f_equal.
  generalize (non_key_fields x). intros l.
  induction l as [|f l IH]; simpl; [reflexivity|]. rewrite IH. lia.
Qed.

Lemma make_difference_entry_two_columns_per_field_witness :
  exists d,
    make_difference_entry
      [("primary_key", "9"); ("status", "active"); ("name", "ann")]
      [("primary_key", "9"); ("status", "closed"); ("name", "ann")]
      Config.source_1_name Config.source_2_name = Ok d /\
    List.length d = 5.
Proof.
  eexists. split; [reflexivity|].
  apply (make_difference_entry_two_columns_per_field
           [("primary_key", "9"); ("status", "active"); ("name", "ann")]
           [("primary_key", "9"); ("status", "closed"); ("name", "ann")]
           Config.source_1_name Config.source_2_name "9").
  - simpl. repeat constructor; simpl; intuition discriminate.
  - discriminate.
  - reflexivity.
  - reflexivity.
  - reflexivity.
Defined.

(** ** The record of a row, read off its cells *)

Lemma str_append_assoc (a b c : string) :
  ((a ++ b) ++ c = a ++ b ++ c)%string.
Proof. induction a as [|x a IH]; simpl; [reflexivity | rewrite IH; auto]. Qed.

Lemma index_middle (A : Type) (before after : list A) (a : A) :
  index (before ++ a :: after) (List.length before) = Ok a.
Proof.
  unfold index. rewrite nth_error_app2 by lia. rewrite Nat.sub_diag.
  reflexivity.
Qed.

Lemma scan_headers_cells (primary_keys : list string)
    (mapping_dict translations_dict : Dict.t) (headers : list string) :
  forall (idx : nat) (cells before_cells : row) (before_headers : list string),
    List.length before_cells = idx -> List.length before_headers = idx ->
    List.length headers <= List.length cells ->
    let '(headers', pk_indices, headers_to_compare) :=
      scan_headers primary_keys mapping_dict idx headers in
    (forall pk,
       build_pk pk_indices (before_cells ++ cells) pk =
       Ok (pk ++ raw_key primary_keys mapping_dict (combine headers cells))
            %string) /\
    (forall d,
       build_fields translations_dict (before_headers ++ headers')
         headers_to_compare (before_cells ++ cells) d =
       Ok (assign d
             (field_cells primary_keys mapping_dict translations_dict
                (combine headers cells)))).
Proof.
  induction headers as [|header rest IH];
    intros idx cells before_cells before_headers Lc Lh Len.
  - simpl. split; intros; [|reflexivity].
    f_equal. clear. induction pk as [|c pk IH]; simpl; [|rewrite <- IH];
      reflexivity.
  - destruct cells as [|cell cells]; [simpl in Len; lia|].
    simpl in Len. cbn [scan_headers combine raw_key field_cells].
    subst idx.
    assert (Lc' : List.length (before_cells ++ [cell]) =
                  S (List.length before_cells))
      by (rewrite length_app; simpl; lia).
    assert (Ec : (before_cells ++ [cell]) ++ cells =
                 before_cells ++ cell :: cells)
      by (rewrite <- app_assoc; reflexivity).
    pose proof (fun h' => IH (S (List.length before_cells)) cells
                            (before_cells ++ [cell])
                            (before_headers ++ [h']) Lc') as IH'.
    destruct (scan_headers primary_keys mapping_dict
                (S (List.length before_cells)) rest)
      as [[headers' pk_indices] headers_to_compare].
    assert (Eh : forall h', (before_headers ++ [h']) ++ headers' =
                            before_headers ++ h' :: headers')
      by (intros; rewrite <- app_assoc; reflexivity).
    assert (Lh' : forall h', List.length (before_headers ++ [h']) =
                             S (List.length before_cells))
      by (intros; rewrite length_app; simpl; lia).
    destruct (Dict.get mapping_dict header) as [standard_name|].
    + destruct (str_in standard_name primary_keys).
      * destruct (IH' header (Lh' header)) as [Hpk Hf]; [lia|].
        rewrite Ec in Hpk, Hf. rewrite Eh in Hf. split; [|exact Hf].
        intros pk. cbn [build_pk]. rewrite index_middle. cbn [bind].
        rewrite Hpk, !str_append_assoc. reflexivity.
      * destruct (IH' standard_name (Lh' standard_name)) as [Hpk Hf]; [lia|].
        rewrite Ec in Hpk, Hf. rewrite Eh in Hf. split; [exact Hpk|].
        intros d. cbn [build_fields]. rewrite index_middle.
        cbn [bind]. rewrite <- Lh, index_middle. cbn [bind].
        rewrite Hf. unfold translate.
        destruct (Dict.get translations_dict cell); reflexivity.
    + destruct (IH' header (Lh' header)) as [Hpk Hf]; [lia|].
      rewrite Ec in Hpk, Hf. rewrite Eh in Hf. split; [exact Hpk | exact Hf].
Qed.

(** X8.  For a row with a cell for every header, the record is determined by
    the headers paired with the cells: the raw key is the cells under the
    headers mapped to a primary key, each followed by a space (they are not
    translated); every header mapped to another name gives that name the
    normalized translation of its cell, a later column replacing an earlier
    one of the same name; headers the mapping does not know and cells beyond
    the headers are not read. *)
Theorem record_of_cells (primary_keys : list string)
    (mapping_dict translations_dict : Dict.t) (headers : list string)
    (entry : row) :
  List.length headers <= List.length entry ->
  record_of primary_keys mapping_dict translations_dict headers entry =
  Ok (raw_key primary_keys mapping_dict (combine headers entry),
      assign
        [("primary_key",
          normalize (raw_key primary_keys mapping_dict
                       (combine headers entry)))]
        (field_cells primary_keys mapping_dict translations_dict
           (combine headers entry))).
Proof.
  intros Len. unfold record_of.
  pose proof (scan_headers_cells primary_keys mapping_dict translations_dict
                headers 0 entry [] [] eq_refl eq_refl Len) as S.
  destruct (scan_headers primary_keys mapping_dict 0 headers)
    as [[headers' pk_indices] headers_to_compare].
  destruct S as [Hpk Hf]. simpl app in *. unfold build_entry.
  rewrite Hpk. cbn [bind append]. rewrite Hf. reflexivity.
Qed.

Lemma record_of_cells_witness :
  record_of ["id"; "site"]
    [("ID", "id"); ("Site", "site"); ("Name", "full_name")]
    [("Bob", "Robert")] ["Site"; "Notes"; "Name"; "ID"]
    ["Paris"; "n/a"; "Bob"; " 7"; "extra"] =
  Ok ("Paris  7 ",
      [("primary_key", "paris  7"); ("full_name", "robert")]).
Proof.
  apply (record_of_cells ["id"; "site"]
           [("ID", "id"); ("Site", "site"); ("Name", "full_name")]
           [("Bob", "Robert")] ["Site"; "Notes"; "Name"; "ID"]
           ["Paris"; "n/a"; "Bob"; " 7"; "extra"]).
  simpl. lia.
Defined.

(** ** Where the records of the results come from *)

Lemma keys_set_add (d : Dict.t) (k v : string) :
  Dict.keys (Dict.set d k v) = add_key (Dict.keys d) k.
Proof.
  unfold add_key. destruct (str_in k (Dict.keys d)) eqn:E.
  - apply str_in_In in E. induction d as [|[k' v'] d IH]; simpl in *;
      [contradiction|].
    destruct (String.eqb_spec k' k) as [->|N]; [reflexivity|].
    simpl. f_equal. apply IH. destruct E as [E|E]; [contradiction|exact E].
  - apply str_in_not_In in E. rewrite set_fresh by exact E.
    unfold Dict.keys. rewrite map_app. reflexivity.
Qed.

Lemma keys_assign (kvs : list (string * string)) (d : Dict.t) :
  Dict.keys (assign d kvs) = fold_left add_key (map fst kvs) (Dict.keys d).
Proof.
  revert d. induction kvs as [|[k v] kvs IH]; intros d; [reflexivity|].
  unfold assign in *. simpl. rewrite IH, keys_set_add. reflexivity.
Qed.

Lemma add_key_NoDup (ks : list string) (k : string) :
  NoDup ks -> NoDup (add_key ks k).
Proof.
  intros ND. unfold add_key. destruct (str_in k ks) eqn:E; [exact ND|].
  apply NoDup_snoc; [exact ND | apply str_in_not_In; exact E].
Qed.

Lemma add_keys_NoDup (names ks : list string) :
  NoDup ks -> NoDup (fold_left add_key names ks).
Proof.
  revert ks. induction names as [|n names IH]; intros ks ND; [exact ND|].
  simpl. apply IH, add_key_NoDup, ND.
Qed.

(** The record of a row is its key and then the assignments of its fields. *)
Lemma record_of_assign (primary_keys : list string)
    (mapping_dict translations_dict : Dict.t) (headers : list string)
    (entry : row) (pk : string) (d : Dict.t) :
  record_of primary_keys mapping_dict translations_dict headers entry =
  Ok (pk, d) ->
  exists kvs,
    map fst kvs = retained_fields primary_keys mapping_dict headers /\
    d = assign [("primary_key", normalize pk)] kvs.
Proof.
  unfold record_of.
  pose proof (scan_headers_retained primary_keys mapping_dict headers 0) as S.
  destruct (scan_headers primary_keys mapping_dict 0 headers)
    as [[headers' pk_indices] headers_to_compare].
  destruct S as [Hn _]. unfold build_entry. intros H.
  inv_bind H. inv_bind H. injection H as -> ->.
  assert (Hn' : map (fun hi => nth_error headers' (snd hi)) headers_to_compare
                = map Some (retained_fields primary_keys mapping_dict headers)).
  { rewrite <- Hn. apply map_ext. intros hi. rewrite Nat.sub_0_r.
    reflexivity. }
  destruct (build_fields_assign _ _ _ _ _ _ _ Hn' Ha0) as [kvs [Hk [_ ->]]].
  exists kvs. auto.
Qed.

Lemma record_of_fields (primary_keys : list string)
    (mapping_dict translations_dict : Dict.t) (headers : list string)
    (entry : row) (pk : string) (d : Dict.t) :
  record_of primary_keys mapping_dict translations_dict headers entry =
  Ok (pk, d) ->
  Dict.keys d = record_fields primary_keys mapping_dict headers.
Proof.
  intros H. destruct (record_of_assign _ _ _ _ _ _ _ H) as [kvs [Hk ->]].
  rewrite keys_assign, Hk. reflexivity.
Qed.

Lemma select_pk_incl (pk : string) (l xs : list Dict.t) :
  select_pk pk l = Ok xs -> incl xs l.
Proof.
  revert xs. induction l as [|y l IH]; intros xs H; simpl in H.
  - injection H as <-. intros z [].
  - inv_bind H. inv_bind H. injection H as <-.
    destruct (String.eqb a pk).
    + intros z [<-|I]; [left; reflexivity | right; apply (IH a0 Ha0); exact I].
    + intros z I. right. apply (IH a0 Ha0). exact I.
Qed.

(** [populate] puts the record somewhere or moves records between the
    lists; it makes none up. *)
Lemma populate_members (st st' : source_state) (pk : string) (d : Dict.t) :
  populate st pk d = Ok st' ->
  forall x,
    In x (entries st' ++ missing_pks st' ++ duplicates st') ->
    x = d \/ In x (entries st ++ missing_pks st ++ duplicates st).
Proof.
  unfold populate. intros H x.
  destruct (String.eqb pk "" || Str.isspace pk).
  { injection H as <-. cbn. rewrite !in_app_iff. simpl. intuition. }
  destruct (str_in (normalize pk) (seen_pks st)).
  - inv_bind H. destruct (str_in (normalize pk) a).
    + inv_bind H. destruct a0 as [|item [|? ?]]; try discriminate.
      inv_bind H. injection H as <-. cbn.
      pose proof (list_remove_incl _ _ _ Ha1) as R.
      pose proof (select_pk_incl _ _ _ Ha0 item (or_introl eq_refl)) as S.
      rewrite !in_app_iff. simpl.
      intros [I|[I|[[I|[<-|[]]]|[<-|[]]]]];
        [ right; left; apply R; exact I
        | right; right; left; exact I
        | right; right; right; exact I
        | left; reflexivity
        | right; left; exact S ].
    + injection H as <-. cbn. rewrite !in_app_iff. simpl. intuition.
  - injection H as <-. cbn. rewrite !in_app_iff. simpl. intuition.
Qed.

Lemma read_rows_members (primary_keys : list string)
    (mapping_dict translations_dict : Dict.t)
    (filtering_list : list (string * string)) (headers : list string)
    (rows : list row) (st st' : source_state) :
  read_rows primary_keys mapping_dict translations_dict filtering_list headers
    rows st = Ok st' ->
  forall x,
    In x (entries st' ++ missing_pks st' ++ duplicates st') ->
    In x (entries st ++ missing_pks st ++ duplicates st) \/
    exists entry pk,
      In entry rows /\
      record_of primary_keys mapping_dict translations_dict headers entry =
      Ok (pk, x).
Proof.
  revert st. induction rows as [|entry rows IH]; intros st H x I.
  - rewrite read_rows_nil in H. injection H as <-. left. exact I.
  - rewrite read_rows_cons in H. inv_bind H.
    destruct (IH a H x I) as [I'|[e [pk [Ie R]]]].
    + rewrite read_row_record in Ha. inv_bind Ha. destruct a0 as [pk d].
      inv_bind Ha. cbn [fst snd] in Ha.
      destruct a0; [injection Ha as <-; left; exact I'|].
      destruct (populate_members _ _ _ _ Ha x I') as [->|I'']; [|left; exact I''].
      right. exists entry, pk. split; [left; reflexivity | exact Ha0].
    + right. exists e, pk. split; [right; exact Ie | exact R].
Qed.

Lemma read_source_csv_members (primary_keys : list string)
    (source_csv : csv) (mapping_dict translations_dict : Dict.t)
    (filtering_list : list (string * string))
    (index keyless duplicates : list Dict.t) :
  read_source_csv primary_keys source_csv mapping_dict translations_dict
    filtering_list = Ok (index, keyless, duplicates) ->
  forall x, In x (index ++ keyless ++ duplicates) ->
    exists entry pk,
      In entry (tl source_csv) /\
      record_of primary_keys mapping_dict translations_dict
        (hd [] source_csv) entry = Ok (pk, x).
Proof.
  intros H x I. destruct source_csv as [|headers rows]; [discriminate|].
  simpl hd. simpl tl. rewrite read_source_csv_rows in H.
  inv_bind H. inv_bind H. inv_bind H. injection H as <- <- <-.
  pose proof (sort_by_primary_key_perm _ _ Ha0) as P1.
  pose proof (sort_by_primary_key_perm _ _ Ha1) as P2.
  destruct (read_rows_members _ _ _ _ _ _ _ _ Ha x) as [[]|R]; [|exact R].
  rewrite !in_app_iff in *. destruct I as [I|[I|I]].
  - left. apply (Permutation_in _ P1). exact I.
  - right. left. exact I.
  - right. right. apply (Permutation_in _ P2). exact I.
Qed.

(** X9.  Every record [read_source_csv] returns, in the index, among the
    rows without a key or among the duplicates, is the record of a data row
    of the file.  All of them have the same fields in the same order, the
    key first and then the retained standard names, each once, which is what
    the header of a result file is taken from; every value of theirs is a
    normalized string. *)
Theorem records_come_from_rows (primary_keys : list string)
    (source_csv : csv) (mapping_dict translations_dict : Dict.t)
    (filtering_list : list (string * string))
    (index keyless duplicates : list Dict.t) (x : Dict.t) :
  read_source_csv primary_keys source_csv mapping_dict translations_dict
    filtering_list = Ok (index, keyless, duplicates) ->
  In x (index ++ keyless ++ duplicates) ->
  (exists entry pk,
     In entry (tl source_csv) /\
     record_of primary_keys mapping_dict translations_dict
       (hd [] source_csv) entry = Ok (pk, x)) /\
  Dict.keys x = record_fields primary_keys mapping_dict (hd [] source_csv) /\
  NoDup (Dict.keys x) /\
  (forall k v, Dict.get x k = Some v -> normalize v = v).
Proof.
  intros H I.
  destruct (read_source_csv_members _ _ _ _ _ _ _ _ H x I)
    as [entry [pk [Ie R]]].
  pose proof (record_of_fields _ _ _ _ _ _ _ R) as K.
  split; [exists entry, pk; auto|]. split; [exact K|]. split.
  - rewrite K. apply add_keys_NoDup. repeat constructor. intros [].
  - intros k v G.
    pose proof (record_of_shape _ _ _ _ _ _ _ R) as [_ [_ [_ Hn]]].
    destruct (Hn k v G) as [y ->]. apply normalize_again.
Qed.

Lemma records_come_from_rows_witness :
  Dict.keys [("primary_key", "42"); ("full_name", "bob")] =
  record_fields ["id"] [("ID", "id"); ("Name", "full_name")] ["ID"; "Name"].
Proof.
  apply (records_come_from_rows ["id"]
           [["ID"; "Name"]; ["007"; "  Bond "]; ["42"; "alice"];
            ["42"; "bob"]; [" "; "Eve"]]
           [("ID", "id"); ("Name", "full_name")] [] []
           [[("primary_key", "007"); ("full_name", "bond")]]
           [[("primary_key", ""); ("full_name", "eve")]]
           [[("primary_key", "42"); ("full_name", "bob")];
            [("primary_key", "42"); ("full_name", "alice")]]
           [("primary_key", "42"); ("full_name", "bob")] eq_refl).
  simpl. auto.
Defined.

(** ** The rows without a key *)

Lemma populate_keyless_apart (st st' : source_state) (pk : string)
    (d : Dict.t) :
  source_invariant st -> keyless_apart st ->
  pk_of d = Some (normalize pk) ->
  populate st pk d = Ok st' ->
  keyless_apart st'.
Proof.
  intros Hinv [Hm Hk] Hd H. rewrite (populate_cases st pk d Hinv) in H.
  injection H as <-.
  destruct (String.eqb pk "" || Str.isspace pk) eqn:B.
  - apply normalize_empty in B. split; cbn; [|exact Hk].
    intros x I. apply in_app_or in I. destruct I as [I|[<-|[]]];
      [apply Hm; exact I | congruence].
  - assert (N : normalize pk <> "").
    { intros E. apply normalize_empty in E. congruence. }
    assert (Nd : pk_of d <> Some "") by (rewrite Hd; congruence).
    destruct (str_in (normalize pk) (seen_pks st)); split; cbn; try exact Hm;
      intros x I; rewrite !in_app_iff in I.
    + destruct I as [I|[[I|[<-|[]]]|I]]; try exact Nd.
      * apply filter_In in I. apply Hk. apply in_or_app. left. tauto.
      * apply Hk. apply in_or_app. right. exact I.
      * apply filter_In in I. apply Hk. apply in_or_app. left. tauto.
    + destruct I as [[I|[<-|[]]]|I]; try exact Nd.
      * apply Hk. apply in_or_app. left. exact I.
      * apply Hk. apply in_or_app. right. exact I.
Qed.

Lemma read_rows_keyless_apart (primary_keys : list string)
    (mapping_dict translations_dict : Dict.t)
    (filtering_list : list (string * string)) (headers : list string)
    (rows : list row) (st st' : source_state) :
  ~ In "primary_key" (retained_fields primary_keys mapping_dict headers) ->
  source_invariant st -> keyless_apart st ->
  read_rows primary_keys mapping_dict translations_dict filtering_list headers
    rows st = Ok st' ->
  keyless_apart st'.
Proof.
  intros Hres. revert st.
  induction rows as [|entry rows IH]; intros st Hinv Hk H.
  - rewrite read_rows_nil in H. injection H as <-. exact Hk.
  - rewrite read_rows_cons in H. inv_bind H.
    pose proof (read_row_invariant _ _ _ _ _ _ _ _ Hres Hinv Ha) as Hinv'.
    apply (IH a Hinv'); [|exact H].
    rewrite read_row_record in Ha. inv_bind Ha. destruct a0 as [pk d].
    inv_bind Ha. cbn [fst snd] in Ha.
    destruct a0; [injection Ha as <-; exact Hk|].
    pose proof (record_of_shape _ _ _ _ _ _ _ Ha0) as [Hpk _].
    apply (populate_keyless_apart st a pk d Hinv Hk (Hpk Hres) Ha).
Qed.

(** X10.  When no retained column of the source is mapped to the name the
    key is stored under, the records [read_source_csv] returns as lacking a
    key are those whose stored key is the empty string, and a record of the
    index or of the duplicates has a key that is not empty. *)
Theorem keyless_records_have_empty_key (primary_keys : list string)
    (source_csv : csv) (mapping_dict translations_dict : Dict.t)
    (filtering_list : list (string * string))
    (index keyless duplicates : list Dict.t) :
  ~ In "primary_key"
      (retained_fields primary_keys mapping_dict (hd [] source_csv)) ->
  read_source_csv primary_keys source_csv mapping_dict translations_dict
    filtering_list = Ok (index, keyless, duplicates) ->
  (forall x, In x keyless -> pk_of x = Some "") /\
  (forall x, In x (index ++ duplicates) ->
     exists k, pk_of x = Some k /\ k <> "").
Proof.
  intros Hres H. destruct source_csv as [|headers rows]; [discriminate|].
  simpl hd in Hres. rewrite read_source_csv_rows in H.
  inv_bind H. inv_bind H. inv_bind H. injection H as <- <- <-.
  pose proof (read_rows_invariant _ _ _ _ _ _ _ _ Hres source_invariant_init
                Ha) as [Hseen _].
  assert (K0 : keyless_apart (mk_source_state [] [] [] []))
    by (split; intros x []).
  pose proof (read_rows_keyless_apart _ _ _ _ _ _ _ _ Hres
                source_invariant_init K0 Ha) as [Hm Hk].
  pose proof (sort_by_primary_key_perm _ _ Ha0) as P1.
  pose proof (sort_by_primary_key_perm _ _ Ha1) as P2.
  split; [exact Hm|]. intros x I.
  assert (I' : In x (entries a ++ duplicates a)).
  { apply in_app_or in I. apply in_or_app.
    destruct I as [I|I]; [left; apply (Permutation_in _ P1) |
                          right; apply (Permutation_in _ P2)]; exact I. }
  destruct (Hseen x I') as [k [Ek _]]. exists k. split; [exact Ek|].
  intros ->. apply (Hk x I'). exact Ek.
Qed.

Lemma keyless_records_have_empty_key_witness :
  pk_of [("primary_key", ""); ("full_name", "eve")] = Some "" /\
  exists k, pk_of [("primary_key", "007"); ("full_name", "bond")] = Some k /\
            k <> "".
Proof.
  destruct (keyless_records_have_empty_key ["id"]
              [["ID"; "Name"]; ["007"; "  Bond "]; [" "; "Eve"]]
              [("ID", "id"); ("Name", "full_name")] [] []
              [[("primary_key", "007"); ("full_name", "bond")]]
              [[("primary_key", ""); ("full_name", "eve")]] [])
    as [Hm Hk].
  - simpl. intuition discriminate.
  - reflexivity.
  - split; [apply Hm | apply Hk]; left; reflexivity.
Defined.

(** ** The order of the results *)

Lemma ltb_false_leb (k k' : string) :
  String.ltb k k' = false -> String.leb k' k = true.
Proof.
  unfold String.ltb, String.leb. rewrite (String.compare_antisym k k').
  destruct (String.compare k' k); simpl; congruence.
Qed.

Lemma ltb_true_leb (k k' : string) :
  String.ltb k k' = true -> String.leb k k' = true.
Proof.
  unfold String.ltb, String.leb.
  destruct (String.compare k k'); congruence.
Qed.

Lemma insert_by_key_sorted (k : string) (x : Dict.t)
    (l : list (string * Dict.t)) :
  sorted_keys (map fst l) = true ->
  sorted_keys (map fst (insert_by_key k x l)) = true.
Proof.
  induction l as [|[k' y] l IH]; intros S; [reflexivity|].
  cbn [insert_by_key]. destruct (String.ltb k k') eqn:L.
  - cbn [map fst sorted_keys]. cbn [map fst] in S.
    rewrite (ltb_true_leb _ _ L). exact S.
  - apply ltb_false_leb in L.
    assert (S' : sorted_keys (map fst l) = true).
    { cbn [map fst sorted_keys] in S. destruct (map fst l); [reflexivity|].
      apply andb_true_iff in S. tauto. }
    specialize (IH S').
    destruct l as [|[k'' z] l]; [cbn; rewrite L; reflexivity|].
    cbn [insert_by_key] in *. destruct (String.ltb k k'').
    + cbn [map fst sorted_keys] in *. rewrite L. exact IH.
    + cbn [map fst sorted_keys] in *. apply andb_true_iff in S.
      destruct S as [S _]. rewrite S. exact IH.
Qed.

Lemma sort_keyed_sorted (l : list (string * Dict.t)) :
  sorted_keys (map fst (sort_keyed l)) = true.
Proof.
  unfold sort_keyed.
  assert (G : forall acc,
             sorted_keys (map fst acc) = true ->
             sorted_keys
               (map fst
                  (fold_left
                     (fun acc kx => insert_by_key (fst kx) (snd kx) acc)
                     l acc)) = true).
  { induction l as [|[k x] l IH]; intros acc S; [exact S|].
    simpl. apply IH. apply insert_by_key_sorted. exact S. }
  apply G. reflexivity.
Qed.

Lemma primary_keys_of_combine (l : list Dict.t) (ks : list string) :
  primary_keys_of l = Ok ks ->
  Forall (fun kx => pk_of (snd kx) = Some (fst kx)) (combine ks l).
Proof.
  revert ks. induction l as [|x l IH]; intros ks H; simpl in H.
  - injection H as <-. constructor.
  - inv_bind H. inv_bind H. injection H as <-. simpl. constructor.
    + simpl. unfold Dict.getitem in Ha. unfold pk_of.
      destruct (Dict.get x "primary_key"); congruence.
    + apply IH. exact Ha0.
Qed.

Lemma sort_by_primary_key_sorted (l l' : list Dict.t) :
  sort_by_primary_key l = Ok l' ->
  exists ks, map pk_of l' = map Some ks /\ sorted_keys ks = true.
Proof.
  unfold sort_by_primary_key. intros H. inv_bind H. injection H as <-.
  exists (map fst (sort_keyed (combine a l))).
  split; [|apply sort_keyed_sorted].
  assert (F : Forall (fun kx => pk_of (snd kx) = Some (fst kx))
                (sort_keyed (combine a l))).
  { apply Forall_forall. intros kx I.
    apply (Permutation_in _ (sort_keyed_perm _)) in I.
    pose proof (primary_keys_of_combine _ _ Ha) as F.
    rewrite Forall_forall in F. apply F. exact I. }
  induction F as [|kx t E F IH]; simpl; [reflexivity|].
  rewrite E, IH. reflexivity.
Qed.

(** X11.  The index and the duplicates [read_source_csv] returns are in the
    order of their keys, as strings compare. *)
Theorem results_sorted_by_key (primary_keys : list string)
    (source_csv : csv) (mapping_dict translations_dict : Dict.t)
    (filtering_list : list (string * string))
    (index keyless duplicates : list Dict.t) :
  read_source_csv primary_keys source_csv mapping_dict translations_dict
    filtering_list = Ok (index, keyless, duplicates) ->
  (exists ks, map pk_of index = map Some ks /\ sorted_keys ks = true) /\
  (exists ks, map pk_of duplicates = map Some ks /\ sorted_keys ks = true).
Proof.
  intros H. destruct source_csv as [|headers rows]; [discriminate|].
  rewrite read_source_csv_rows in H.
  inv_bind H. inv_bind H. inv_bind H. injection H as <- _ <-.
  split; eapply sort_by_primary_key_sorted; eassumption.
Qed.

Lemma results_sorted_by_key_witness :
  exists ks,
    map pk_of [[("primary_key", "10"); ("full_name", "z")];
               [("primary_key", "9"); ("full_name", "a")];
               [("primary_key", "b"); ("full_name", "m")]] = map Some ks /\
    sorted_keys ks = true.
Proof.
  apply (proj1 (results_sorted_by_key ["id"]
                  [["ID"; "Name"]; ["B"; "m"]; ["9"; "a"]; ["10"; "z"]]
                  [("ID", "id"); ("Name", "full_name")] [] [] _ [] [] eq_refl)).
Defined.

(** ** The errors of [read_source_csv] *)

Lemma sort_by_primary_key_total (l : list Dict.t) :
  (forall x, In x l -> pk_of x <> None) ->
  exists l', sort_by_primary_key l = Ok l'.
Proof.
  intros K. unfold sort_by_primary_key.
  destruct (primary_keys_of_keyed l K) as [ks [E _]]. rewrite E.
  cbn [bind]. eexists. reflexivity.
Qed.

Lemma read_row_raises (primary_keys : list string)
    (mapping_dict translations_dict : Dict.t)
    (filtering_list : list (string * string)) (headers : list string)
    (st : source_state) (entry : row) e :
  ~ In "primary_key" (retained_fields primary_keys mapping_dict headers) ->
  source_invariant st ->
  read_row primary_keys mapping_dict translations_dict filtering_list headers
    st entry = Raise e ->
  e = IndexError "list index out of range" \/
  exists k, e = KeyError k /\ In k (map fst filtering_list).
Proof.
  intros Hres Hinv. rewrite read_row_record. intros H.
  destruct (record_of primary_keys mapping_dict translations_dict headers
              entry) as [[pk d]|e'] eqn:R; cbn [bind fst snd] in H.
  - destruct (filter_ignore_cases filtering_list d false)
      as [[_ F]|[k [Ik [_ F]]]]; rewrite F in H; cbn [bind] in H.
    + destruct (false || existsb (rule_matches d) filtering_list);
        [discriminate|].
      pose proof (record_of_shape _ _ _ _ _ _ _ R) as [Hpk _].
      destruct (populate_invariant st pk d Hinv (Hpk Hres)) as [st' [E _]].
      congruence.
    + right. exists k. split; [congruence | exact Ik].
  - left. injection H as <-. apply (record_of_raise _ _ _ _ _ _ R).
Qed.

Lemma read_rows_raises (primary_keys : list string)
    (mapping_dict translations_dict : Dict.t)
    (filtering_list : list (string * string)) (headers : list string)
    (rows : list row) (st : source_state) e :
  ~ In "primary_key" (retained_fields primary_keys mapping_dict headers) ->
  source_invariant st ->
  read_rows primary_keys mapping_dict translations_dict filtering_list headers
    rows st = Raise e ->
  e = IndexError "list index out of range" \/
  exists k, e = KeyError k /\ In k (map fst filtering_list).
Proof.
  intros Hres. revert st. induction rows as [|entry rows IH]; intros st Hinv H.
  - rewrite read_rows_nil in H. discriminate.
  - rewrite read_rows_cons in H. apply bind_raise_inv in H.
    destruct H as [H|[st' [E H]]].
    + apply (read_row_raises _ _ _ _ _ _ _ _ Hres Hinv H).
    + apply (IH st'); [|exact H].
      apply (read_row_invariant _ _ _ _ _ _ _ _ Hres Hinv E).
Qed.

Lemma read_source_csv_sorts (primary_keys : list string)
    (mapping_dict translations_dict : Dict.t)
    (filtering_list : list (string * string)) (headers : list string)
    (rows : list row) (st : source_state) :
  ~ In "primary_key" (retained_fields primary_keys mapping_dict headers) ->
  read_rows primary_keys mapping_dict translations_dict filtering_list headers
    rows (mk_source_state [] [] [] []) = Ok st ->
  exists index duplicates,
    read_source_csv primary_keys (headers :: rows) mapping_dict
      translations_dict filtering_list =
    Ok (index, missing_pks st, duplicates).
Proof.
  intros Hres H. rewrite read_source_csv_rows, H. cbn [bind].
  pose proof (read_rows_invariant _ _ _ _ _ _ _ _ Hres source_invariant_init
                H) as [Hseen _].
  assert (K : forall x, In x (entries st ++ duplicates st) ->
                        pk_of x <> None).
  { intros x I E. destruct (Hseen x I) as [k [Ek _]]. congruence. }
  destruct (sort_by_primary_key_total (entries st)) as [index E1];
    [intros x I; apply K, in_or_app; left; exact I|].
  destruct (sort_by_primary_key_total (duplicates st)) as [dups E2];
    [intros x I; apply K, in_or_app; right; exact I|].
  rewrite E1, E2. cbn [bind]. exists index, dups. reflexivity.
Qed.

(** X12.  When no retained column of the source is mapped to the name the
    key is stored under, [read_source_csv] fails in three ways only: on a
    file without a header row, on a row too short for a mapped column, with
    the index error of the list, and on a filter rule whose field the
    records lack, with the lookup error of that field.  Its own guard
    against two records of the index with one key is never met, and sorting
    never fails. *)
Theorem read_source_csv_errors (primary_keys : list string)
    (source_csv : csv) (mapping_dict translations_dict : Dict.t)
    (filtering_list : list (string * string)) e :
  ~ In "primary_key"
      (retained_fields primary_keys mapping_dict (hd [] source_csv)) ->
  read_source_csv primary_keys source_csv mapping_dict translations_dict
    filtering_list = Raise e ->
  (source_csv = [] /\ e = StopIteration) \/
  e = IndexError "list index out of range" \/
  (exists k, e = KeyError k /\ In k (map fst filtering_list)).
Proof.
  intros Hres H. destruct source_csv as [|headers rows].
  - left. split; [reflexivity|]. simpl in H. congruence.
  - right. simpl hd in Hres.
    destruct (read_rows primary_keys mapping_dict translations_dict
                filtering_list headers rows (mk_source_state [] [] [] []))
      as [st|e'] eqn:R.
    + destruct (read_source_csv_sorts _ _ _ _ _ _ _ Hres R)
        as [index [dups E]].
      assert (X : Ok (index, missing_pks st, dups) = Raise e)
        by (rewrite <- E; exact H).
      discriminate.
    + rewrite read_source_csv_rows, R in H. cbn [bind] in H.
      injection H as <-.
      apply (read_rows_raises _ _ _ _ _ _ _ _ Hres source_invariant_init R).
Qed.

Lemma read_source_csv_errors_witness :
  (([["ID"; "Name"]; ["7"]] : csv) = [] /\
   IndexError "list index out of range" = StopIteration) \/
  IndexError "list index out of range" =
  IndexError "list index out of range" \/
  (exists k, IndexError "list index out of range" = KeyError k /\
             In k (map fst (@nil (string * string)))).
Proof.
  apply (read_source_csv_errors ["id"] [["ID"; "Name"]; ["7"]]
           [("ID", "id"); ("Name", "full_name")] [] []).
  - simpl. intuition discriminate.
  - reflexivity.
Defined.

Lemma read_rows_total (primary_keys : list string)
    (mapping_dict translations_dict : Dict.t)
    (filtering_list : list (string * string)) (headers : list string)
    (rows : list row) (st : source_state) :
  ~ In "primary_key" (retained_fields primary_keys mapping_dict headers) ->
  Forall (fun entry => List.length headers <= List.length entry) rows ->
  (forall rule, In rule filtering_list ->
     fst rule = "primary_key" \/
     In (fst rule) (retained_fields primary_keys mapping_dict headers)) ->
  source_invariant st ->
  exists st',
    read_rows primary_keys mapping_dict translations_dict filtering_list
      headers rows st = Ok st'.
Proof.
  intros Hres Hrows Hrules. revert st.
  induction Hrows as [|entry rows Hlen _ IH]; intros st Hinv.
  - rewrite read_rows_nil. exists st. reflexivity.
  - rewrite read_rows_cons.
    assert (Row : exists st',
               read_row primary_keys mapping_dict translations_dict
                 filtering_list headers st entry = Ok st').
    { rewrite read_row_record.
      destruct (record_of_total primary_keys mapping_dict translations_dict
                  headers entry Hlen) as [pk [d R]].
      rewrite R. cbn [bind fst snd].
      pose proof (record_of_shape _ _ _ _ _ _ _ R) as [Hpk [_ [Hkeys _]]].
      destruct (filter_ignore_cases filtering_list d false)
        as [[_ F]|[k [Ik [Nk _]]]].
      - rewrite F. cbn [bind].
        destruct (false || existsb (rule_matches d) filtering_list);
          [exists st; reflexivity|].
        destruct (populate_invariant st pk d Hinv (Hpk Hres)) as [st' [E _]].
        exists st'. exact E.
      - exfalso. apply in_map_iff in Ik. destruct Ik as [rule [<- Ir]].
        apply get_None_keys in Nk. apply Nk, Hkeys, Hrules. exact Ir. }
    destruct Row as [st' E]. rewrite E. cbn [bind]. apply IH.
    apply (read_row_invariant _ _ _ _ _ _ _ _ Hres Hinv E).
Qed.

(** X13.  [read_source_csv] returns its three lists for every source with a
    header row whose data rows have a cell for every header, when the field
    of every filter rule is the key or a retained standard name of the
    source and no retained column is mapped to the name the key is stored
    under. *)
Theorem read_source_csv_returns (primary_keys : list string)
    (headers : row) (rows : list row)
    (mapping_dict translations_dict : Dict.t)
    (filtering_list : list (string * string)) :
  ~ In "primary_key" (retained_fields primary_keys mapping_dict headers) ->
  Forall (fun entry => List.length headers <= List.length entry) rows ->
  (forall rule, In rule filtering_list ->
     fst rule = "primary_key" \/
     In (fst rule) (retained_fields primary_keys mapping_dict headers)) ->
  exists index keyless duplicates,
    read_source_csv primary_keys (headers :: rows) mapping_dict
      translations_dict filtering_list = Ok (index, keyless, duplicates).
Proof.
  intros Hres Hrows Hrules.
  destruct (read_rows_total primary_keys mapping_dict translations_dict
              filtering_list headers rows (mk_source_state [] [] [] [])
              Hres Hrows Hrules source_invariant_init) as [st R].
  destruct (read_source_csv_sorts _ _ _ _ _ _ _ Hres R) as [index [dups E]].
  exists index, (missing_pks st), dups. exact E.
Qed.

Lemma read_source_csv_returns_witness :
  exists index keyless duplicates,
    read_source_csv ["id"] [["ID"; "Name"]; ["7"; "Bond"]; ["8"; "x"; "y"]]
      [("ID", "id"); ("Name", "full_name")] [] [("full_name", "test")] =
    Ok (index, keyless, duplicates).
Proof.
  apply (read_source_csv_returns ["id"] ["ID"; "Name"]
           [["7"; "Bond"]; ["8"; "x"; "y"]]).
  - simpl. intuition discriminate.
  - repeat constructor; simpl; lia.
  - intros rule [<-|[]]. right. simpl. auto.
Defined.

(** ** The errors of the comparison *)

Lemma make_difference_entry_raises (x m : Dict.t) (n1 n2 : string) e :
  pk_of x <> None -> pk_of x = pk_of m ->
  make_difference_entry x m n1 n2 = Raise e ->
  e = SchemaMismatchError /\
  exists f, In f (non_key_fields x) /\ Dict.get m f = None.
Proof.
  unfold pk_of, make_difference_entry, Dict.getitem. intros K E H.
  rewrite <- E in H.
  destruct (Dict.get x "primary_key") as [k|]; [|congruence].
  cbn [bind] in H. rewrite String.eqb_refl in H. cbn [negb] in H.
  destruct (difference_fields_cases x m n1 n2 (Dict.keys x)
              [("primary_key", k)] (keys_get x)) as [[A R]|[_ [d R]]].
  - split; [congruence | exact A].
  - congruence.
Qed.

Lemma differences_of_raises (n1 n2 : string) (l other : list Dict.t) e :
  differences_of n1 n2 l other = Raise e ->
  exists x m, In x l /\ filter (has_pk (pk_of x)) other = [m] /\
              make_difference_entry x m n1 n2 = Raise e.
Proof.
  induction l as [|x l IH]; intros H; simpl in H; [discriminate|].
  assert (Tail : differences_of n1 n2 l other = Raise e ->
                 exists x0 m, In x0 (x :: l) /\
                   filter (has_pk (pk_of x0)) other = [m] /\
                   make_difference_entry x0 m n1 n2 = Raise e).
  { intros H'. destruct (IH H') as [x0 [m [I R]]].
    exists x0, m. split; [right; exact I | exact R]. }
  destruct (filter (has_pk (pk_of x)) other) as [|m [|m' ms]] eqn:F;
    try (apply Tail; exact H).
  destruct (Dict.eqb x m); [apply Tail; exact H|].
  apply bind_raise_inv in H. destruct H as [H|[d [_ H]]].
  - exists x, m. split; [left; reflexivity|]. rewrite F. auto.
  - apply bind_raise_inv in H. destruct H as [H|[ds [_ H]]];
      [apply Tail; exact H | discriminate].
Qed.

(** X14.  For two indices with unique keys the comparison fails in one way
    only: with the error "One of the sources is incorrectly formatted", and
    then a record of index 1 has a field that the record of index 2 with its
    key lacks.  Removing a matched record from its list never fails, and the
    error of unequal keys is never raised. *)
Theorem compare_entries_errors (n1 n2 : string)
    (index_1 index_2 : list Dict.t) e :
  unique_keys index_1 -> unique_keys index_2 ->
  compare_entries n1 n2 index_1 index_2 = Raise e ->
  e = SchemaMismatchError /\
  exists x m f,
    In x index_1 /\ In m index_2 /\ pk_of x = pk_of m /\
    In f (non_key_fields x) /\ Dict.get m f = None.
Proof.
  intros U1 U2 H. rewrite (compare_entries_result n1 n2 _ _ U1 U2) in H.
  apply bind_raise_inv in H. destruct H as [H|[ds [_ H]]]; [|discriminate].
  destruct (differences_of_raises _ _ _ _ _ H) as [x [m [Ix [F R]]]].
  assert (Im : In m (filter (has_pk (pk_of x)) index_2))
    by (rewrite F; left; reflexivity).
  apply filter_In in Im. destruct Im as [Im Em]. apply has_pk_true in Em.
  destruct (make_difference_entry_raises x m n1 n2 e (proj2 U1 x Ix)
              (eq_sym Em) R) as [-> [f [If N]]].
  split; [reflexivity|]. exists x, m, f. auto.
Qed.

Lemma compare_entries_errors_witness :
  exists x m f,
    In x [[("primary_key", "1"); ("x", "p"); ("y", "r")]] /\
    In m [[("primary_key", "1"); ("x", "p")]] /\ pk_of x = pk_of m /\
    In f (non_key_fields x) /\ Dict.get m f = None.
Proof.
  assert (U1 : unique_keys [[("primary_key", "1"); ("x", "p"); ("y", "r")]]).
  { split.
    - simpl. repeat constructor; simpl; intuition discriminate.
    - intros z [<-|[]]; discriminate. }
  assert (U2 : unique_keys [[("primary_key", "1"); ("x", "p")]]).
  { split.
    - simpl. repeat constructor; simpl; intuition discriminate.
    - intros z [<-|[]]; discriminate. }
  apply (proj2 (compare_entries_errors "S1" "S2" _ _ SchemaMismatchError
                  U1 U2 eq_refl)).
Defined.

(** ** The two sources of one run *)

Lemma read_source_csv_unique (primary_keys : list string) (source_csv : csv)
    (mapping_dict translations_dict : Dict.t)
    (filtering_list : list (string * string))
    (index keyless duplicates : list Dict.t) :
  ~ In "primary_key"
      (retained_fields primary_keys mapping_dict (hd [] source_csv)) ->
  read_source_csv primary_keys source_csv mapping_dict translations_dict
    filtering_list = Ok (index, keyless, duplicates) ->
  unique_keys index.
Proof.
  intros Hres H. destruct source_csv as [|headers rows]; [discriminate|].
  simpl hd in Hres. rewrite read_source_csv_rows in H.
  inv_bind H. inv_bind H. inv_bind H. injection H as <- _ _.
  pose proof (read_rows_invariant _ _ _ _ _ _ _ _ Hres source_invariant_init
                Ha) as [Hseen [Hnd _]].
  pose proof (sort_by_primary_key_perm _ _ Ha0) as P1.
  split.
  - apply (Permutation_NoDup (l := map pk_of (entries a))); [|exact Hnd].
    apply Permutation_map. symmetry. exact P1.
  - intros x I E. apply (Permutation_in _ P1) in I.
    destruct (Hseen x) as [k [Ek _]]; [apply in_or_app; left; exact I|].
    congruence.
Qed.

(** X15.  Two sources read with the same tables, whose retained columns
    are not named as the key is, compare without error when every retained
    standard name of source 1 is one of source 2: the comparison of their
    indices returns, with the extras being the records of each index whose
    key the other index lacks. *)
Theorem sources_with_covered_fields_compare (primary_keys : list string)
    (n1 n2 : string) (source_1 source_2 : csv)
    (mapping_dict translations_dict : Dict.t)
    (filtering_list : list (string * string))
    (index_1 keyless_1 duplicates_1 index_2 keyless_2 duplicates_2 :
       list Dict.t) :
  ~ In "primary_key"
      (retained_fields primary_keys mapping_dict (hd [] source_1)) ->
  ~ In "primary_key"
      (retained_fields primary_keys mapping_dict (hd [] source_2)) ->
  incl (retained_fields primary_keys mapping_dict (hd [] source_1))
       (retained_fields primary_keys mapping_dict (hd [] source_2)) ->
  read_source_csv primary_keys source_1 mapping_dict translations_dict
    filtering_list = Ok (index_1, keyless_1, duplicates_1) ->
  read_source_csv primary_keys source_2 mapping_dict translations_dict
    filtering_list = Ok (index_2, keyless_2, duplicates_2) ->
  exists st,
    compare_entries n1 n2 index_1 index_2 = Ok st /\
    source_1_extra st = unmatched index_1 index_2 /\
    source_2_extra st = unmatched index_2 index_1.
Proof.
  intros R1 R2 Incl H1 H2.
  pose proof (read_source_csv_unique _ _ _ _ _ _ _ _ R1 H1) as U1.
  pose proof (read_source_csv_unique _ _ _ _ _ _ _ _ R2 H2) as U2.
  destruct (compare_entries_total n1 n2 index_1 index_2 U1 U2) as [st E].
  - intros x m Ix Im _ f If.
    destruct (read_source_csv_members _ _ _ _ _ _ _ _ H1 x)
      as [e1 [pk1 [_ Rx]]]; [apply in_or_app; left; exact Ix|].
    destruct (read_source_csv_members _ _ _ _ _ _ _ _ H2 m)
      as [e2 [pk2 [_ Rm]]]; [apply in_or_app; left; exact Im|].
    pose proof (record_of_shape _ _ _ _ _ _ _ Rx) as [_ [_ [Kx _]]].
    pose proof (record_of_shape _ _ _ _ _ _ _ Rm) as [_ [_ [Km _]]].
    apply in_non_key_fields in If. destruct If as [If Nf].
    apply keys_get. apply Km. right. apply Incl.
    apply Kx in If. destruct If as [If|If]; [contradiction | exact If].
  - exists st. split; [exact E|].
    destruct (compare_entries_ok n1 n2 _ _ _ U1 U2 E) as [ds [_ ->]].
    split; reflexivity.
Qed.

Lemma sources_with_covered_fields_compare_witness :
  exists st,
    compare_entries "Test 1" "Test 2"
      [[("primary_key", "3"); ("full_name", "q")];
       [("primary_key", "7"); ("full_name", "bond")]]
      [[("primary_key", "7"); ("status", "on"); ("full_name", "james")]] =
    Ok st /\
    source_1_extra st = [[("primary_key", "3"); ("full_name", "q")]] /\
    source_2_extra st = [].
Proof.
  destruct (sources_with_covered_fields_compare ["id"] "Test 1" "Test 2"
              [["ID"; "Name"]; ["7"; "Bond"]; ["3"; "q"]]
              [["Status"; "ID"; "Nom"]; ["On"; "7"; "James"]]
              [("ID", "id"); ("Name", "full_name"); ("Nom", "full_name");
               ("Status", "status")] [] []
              [[("primary_key", "3"); ("full_name", "q")];
               [("primary_key", "7"); ("full_name", "bond")]] [] []
              [[("primary_key", "7"); ("status", "on");
                ("full_name", "james")]] [] [])
    as [st [E [X1 X2]]].
  - simpl. intuition discriminate.
  - simpl. intuition discriminate.
  - intros f [<-|[]]. simpl. auto.
  - reflexivity.
  - reflexivity.
  - exists st. split; [exact E|]. rewrite X1, X2. split; reflexivity.
Defined.

(** ** The matched records of the two indices *)

Lemma filter_split_length (p : Dict.t -> bool) (l : list Dict.t) :
  List.length l =
  List.length (filter (fun x => negb (p x)) l) + List.length (filter p l).
Proof.
  induction l as [|x l IH]; simpl; [reflexivity|].
  destruct (p x); simpl; lia.
Qed.

Lemma matched_keys (l other : list Dict.t) (k : option string) :
  In k (map pk_of (filter (in_keys other) l)) <->
  In k (map pk_of l) /\ In k (map pk_of other).
Proof.
  rewrite !in_map_iff. split.
  - intros [x [E I]]. apply filter_In in I. destruct I as [I M].
    apply in_keys_true in M. destruct M as [y [Iy Ey]].
    split; [exists x; auto | exists y; split; [congruence | exact Iy]].
  - intros [[x [Ex Ix]] [y [Ey Iy]]]. exists x. split; [exact Ex|].
    apply filter_In. split; [exact Ix|]. apply in_keys_true.
    exists y. split; [exact Iy | congruence].
Qed.

Lemma matched_same_number (index_1 index_2 : list Dict.t) :
  NoDup (map pk_of index_1) -> NoDup (map pk_of index_2) ->
  List.length (filter (in_keys index_2) index_1) =
  List.length (filter (in_keys index_1) index_2).
Proof.
  intros N1 N2.
  rewrite <- (length_map pk_of (filter (in_keys index_2) index_1)).
  rewrite <- (length_map pk_of (filter (in_keys index_1) index_2)).
  apply Permutation_length. apply NoDup_Permutation.
  - apply unique_pk_filter. exact N1.
  - apply unique_pk_filter. exact N2.
  - intros k. rewrite !matched_keys. tauto.
Qed.

(** X16.  For two indices with unique keys, the comparison matches as many
    records of index 1 as of index 2: the records of an index that are not
    among its extras number the same on both sides. *)
Theorem matched_records_pair_up (n1 n2 : string)
    (index_1 index_2 : list Dict.t) (st : compare_state) :
  unique_keys index_1 -> unique_keys index_2 ->
  compare_entries n1 n2 index_1 index_2 = Ok st ->
  List.length index_1 + List.length (source_2_extra st) =
  List.length index_2 + List.length (source_1_extra st).
Proof.
  intros U1 U2 H.
  destruct (compare_entries_ok n1 n2 _ _ _ U1 U2 H) as [ds [_ ->]].
  cbn [source_1_extra source_2_extra]. unfold unmatched.
  pose proof (filter_split_length (in_keys index_2) index_1) as L1.
  pose proof (filter_split_length (in_keys index_1) index_2) as L2.
  pose proof (matched_same_number index_1 index_2 (proj1 U1) (proj1 U2)).
  lia.
Qed.

Lemma matched_records_pair_up_witness :
  exists st,
    compare_entries "S1" "S2"
      [[("primary_key", "3")]; [("primary_key", "9")]]
      [[("primary_key", "9")]] = Ok st /\
    2 + List.length (source_2_extra st) =
    1 + List.length (source_1_extra st).
Proof.
  assert (U1 : unique_keys [[("primary_key", "3")]; [("primary_key", "9")]]).
  { split.
    - simpl. repeat constructor; simpl; intuition discriminate.
    - intros z [<-|[<-|[]]]; discriminate. }
  assert (U2 : unique_keys [[("primary_key", "9")]]).
  { split.
    - simpl. repeat constructor; simpl; intuition discriminate.
    - intros z [<-|[]]; discriminate. }
  eexists. split; [reflexivity|].
  apply (matched_records_pair_up "S1" "S2" _ _ _ U1 U2 eq_refl).
Defined.

(** ** The result files of a run *)

(** A row with a field that the first row lacks stops the writer. *)
Example make_result_csv_wrong_field :
  make_result_csv "Test 1"
    [[("primary_key", "1"); ("a", "x")];
     [("primary_key", "2"); ("a", "y"); ("b", "z")]] "extra" =
  Raise FieldnamesError /\
  make_result_csv "Test 1"
    [[("primary_key", "2"); ("a", "y"); ("b", "z")];
     [("primary_key", "1"); ("a", "x")]] "extra" =
  Ok ("Test 1", "extra",
      [["primary_key"; "a"; "b"]; ["2"; "y"; "z"]; ["1"; "x"; ""]]).
Proof. split; reflexivity. Qed.

Lemma writerow_line (fieldnames : list string) (d : Dict.t) :
  Dict.keys d = fieldnames -> writerow fieldnames d = Ok (line_of fieldnames d).
Proof.
  intros <-. unfold writerow.
  assert (A : forallb (fun k => str_in k (Dict.keys d)) (Dict.keys d) = true).
  { apply forallb_forall. intros k I. apply str_in_In. exact I. }
  rewrite A. reflexivity.
Qed.

Lemma writerows_lines (fieldnames : list string) (l : list Dict.t) :
  (forall d, In d l -> Dict.keys d = fieldnames) ->
  writerows fieldnames l = Ok (map (line_of fieldnames) l).
Proof.
  induction l as [|d l IH]; intros H; simpl; [reflexivity|].
  rewrite writerow_line by (apply H; left; reflexivity). cbn [bind].
  rewrite IH by (intros d' I; apply H; right; exact I). reflexivity.
Qed.

Lemma write_if_populated_written (source_name : string)
    (source_data : list Dict.t) (csv_type : string)
    (already : list report) :
  same_fields source_data ->
  write_if_populated source_name source_data csv_type already =
  Ok (already ++ written source_name source_data csv_type).
Proof.
  unfold write_if_populated, written, make_result_csv. intros S.
  destruct source_data as [|first rest]; simpl; [rewrite app_nil_r; reflexivity|].
  rewrite writerow_line by reflexivity. cbn [bind].
  rewrite writerows_lines
    by (intros d I; apply S; [right; exact I | left; reflexivity]).
  reflexivity.
Qed.

Lemma written_populated (source_name : string) (source_data : list Dict.t)
    (csv_type : string) :
  Forall (fun r : report => 2 <= List.length (snd r))
    (written source_name source_data csv_type)
  /\ List.length (written source_name source_data csv_type) <= 1.
Proof.
  unfold written. destruct source_data; simpl; split; auto.
  constructor; [simpl; lia | constructor].
Qed.

Lemma written_contents (name name' : string) (source_data : list Dict.t)
    (csv_type : string) :
  map contents (written name source_data csv_type) =
  map contents (written name' source_data csv_type).
Proof. unfold written. destruct source_data; reflexivity. Qed.

(** The records of a source all have the fields of the source. *)
Lemma read_source_csv_fields (primary_keys : list string)
    (source_csv : csv) (mapping_dict translations_dict : Dict.t)
    (filtering_list : list (string * string))
    (index keyless duplicates : list Dict.t) (x : Dict.t) :
  read_source_csv primary_keys source_csv mapping_dict translations_dict
    filtering_list = Ok (index, keyless, duplicates) ->
  In x (index ++ keyless ++ duplicates) ->
  Dict.keys x = record_fields primary_keys mapping_dict (hd [] source_csv).
Proof.
  intros H I.
  destruct (read_source_csv_members _ _ _ _ _ _ _ _ H x I)
    as [entry [pk [_ R]]].
  apply (record_of_fields _ _ _ _ _ _ _ R).
Qed.

Lemma same_fields_of (fields : list string) (l : list Dict.t) :
  (forall d, In d l -> Dict.keys d = fields) -> same_fields l.
Proof. intros H d d' I I'. rewrite (H d I), (H d' I'). reflexivity. Qed.

(** The columns of a difference entry come from the fields of the first
    record and from the two names, whatever the values. *)
Lemma difference_fields_keys (ks : list string) (x m : Dict.t)
    (n1 n2 : string) (acc d : Dict.t) :
  difference_fields ks x m n1 n2 acc = Ok d ->
  Dict.keys d =
  fold_left add_key (column_names (non_key ks) n1 n2) (Dict.keys acc).
Proof.
  revert acc. induction ks as [|key ks IH]; intros acc H; simpl in H.
  - injection H as <-. reflexivity.
  - unfold non_key. simpl filter.
    destruct (String.eqb key "primary_key"); cbn [negb].
    + apply IH. exact H.
    + inv_bind H. destruct (Dict.get m key) as [v2|]; [|discriminate].
      rewrite (IH _ H), !keys_set_add. reflexivity.
Qed.

Lemma make_difference_entry_keys (x m : Dict.t) (n1 n2 : string)
    (d : Dict.t) :
  make_difference_entry x m n1 n2 = Ok d ->
  Dict.keys d =
  fold_left add_key (column_names (non_key_fields x) n1 n2) ["primary_key"].
Proof.
  unfold make_difference_entry. intros H. inv_bind H. inv_bind H.
  destruct (negb (String.eqb a a0)); [discriminate|].
  apply (difference_fields_keys _ _ _ _ _ _ _ H).
Qed.

(** Where the extras and the difference entries of a pass come from,
    whatever the two indices *)
Lemma compare_entry_outputs (n1 n2 : string) (st st' : compare_state)
    (entry : Dict.t) :
  compare_entry n1 n2 st entry = Ok st' ->
  (forall x, In x (source_1_extra st') ->
     In x (source_1_extra st) \/ x = entry) /\
  (forall d, In d (differences st') ->
     In d (differences st) \/
     exists m, make_difference_entry entry m n1 n2 = Ok d).
Proof.
  unfold compare_entry. intros H. inv_bind H. inv_bind H.
  destruct a0 as [|match_ [|? ?]].
  - injection H as <-. cbn. split; [|auto].
    intros x I. apply in_app_or in I. destruct I as [I|[<-|[]]]; auto.
  - inv_bind H. inv_bind H. inv_bind H. injection H as <-. cbn.
    split; [auto|]. intros d I.
    destruct (negb (Dict.eqb entry match_)).
    + inv_bind Ha1. injection Ha1 as <-. apply in_app_or in I.
      destruct I as [I|[<-|[]]]; [left; exact I|].
      right. exists match_. exact Ha4.
    + injection Ha1 as <-. left. exact I.
  - injection H as <-. auto.
Qed.

Lemma compare_loop_outputs (n1 n2 : string) (todo : list Dict.t)
    (st st' : compare_state) :
  compare_loop n1 n2 todo st = Ok st' ->
  (forall x, In x (source_1_extra st') ->
     In x (source_1_extra st) \/ In x todo) /\
  (forall d, In d (differences st') ->
     In d (differences st) \/
     exists x m, In x todo /\ make_difference_entry x m n1 n2 = Ok d).
Proof.
  revert st. induction todo as [|entry todo IH]; intros st H; simpl in H.
  - injection H as <-. auto.
  - inv_bind H. destruct (compare_entry_outputs _ _ _ _ _ Ha) as [E D].
    destruct (IH a H) as [E' D']. split.
    + intros x I. destruct (E' x I) as [I'|I']; [|right; right; exact I'].
      destruct (E x I') as [I'' | ->]; [left; exact I''|].
      right. left. reflexivity.
    + intros d I. destruct (D' d I) as [I'|[x [m [Ix R]]]].
      * destruct (D d I') as [I''|[m R]]; [left; exact I''|].
        right. exists entry, m. split; [left; reflexivity | exact R].
      * right. exists x, m. split; [right; exact Ix | exact R].
Qed.

Lemma compare_entries_outputs (n1 n2 : string) (index_1 index_2 : list Dict.t)
    (st : compare_state) :
  compare_entries n1 n2 index_1 index_2 = Ok st ->
  incl (source_1_extra st) index_1 /\
  incl (source_2_extra st) index_2 /\
  (forall d, In d (differences st) ->
     exists x m, In x index_1 /\ make_difference_entry x m n1 n2 = Ok d).
Proof.
  intros H.
  destruct (compare_entries_frame _ _ _ _ _ H) as [_ [_ [E2 [_ I2]]]].
  split; [|split; [rewrite E2; exact I2|]];
    unfold compare_entries in H; cbn [source_1_entries_copy] in H;
    inv_bind H; injection H as <-; cbn;
    destruct (compare_loop_outputs _ _ _ _ _ Ha) as [E D].
  - intros x I. destruct (E x I) as [[]|I']. exact I'.
  - intros d I. destruct (D d I) as [[]|R]. exact R.
Qed.

(** The lists of a run are written as they are: the records of each list
    have the same fields. *)
Lemma compare_sources_same_fields (primary_keys : list string)
    (source_1_name source_2_name : string) (source_1 source_2 : csv)
    (mapping_dict translations_dict : Dict.t)
    (filtering_list : list (string * string))
    (i1 m1 d1 i2 m2 d2 : list Dict.t) (st : compare_state) :
  read_source_csv primary_keys source_1 mapping_dict translations_dict
    filtering_list = Ok (i1, m1, d1) ->
  read_source_csv primary_keys source_2 mapping_dict translations_dict
    filtering_list = Ok (i2, m2, d2) ->
  compare_entries source_1_name source_2_name i1 i2 = Ok st ->
  same_fields m1 /\ same_fields m2 /\ same_fields d1 /\ same_fields d2 /\
  same_fields (source_1_extra st) /\ same_fields (source_2_extra st) /\
  same_fields (differences st).
Proof.
  intros R1 R2 C.
  pose proof (fun x => read_source_csv_fields _ _ _ _ _ _ _ _ x R1) as F1.
  pose proof (fun x => read_source_csv_fields _ _ _ _ _ _ _ _ x R2) as F2.
  destruct (compare_entries_outputs _ _ _ _ _ C) as [E1 [E2 D]].
  split; [|split; [|split; [|split; [|split; [|split]]]]].
  - eapply same_fields_of. intros d I. apply F1.
    apply in_or_app. right. apply in_or_app. left. exact I.
  - eapply same_fields_of. intros d I. apply F2.
    apply in_or_app. right. apply in_or_app. left. exact I.
  - eapply same_fields_of. intros d I. apply F1.
    apply in_or_app. right. apply in_or_app. right. exact I.
  - eapply same_fields_of. intros d I. apply F2.
    apply in_or_app. right. apply in_or_app. right. exact I.
  - eapply same_fields_of. intros d I. apply F1.
    apply in_or_app. left. apply E1. exact I.
  - eapply same_fields_of. intros d I. apply F2.
    apply in_or_app. left. apply E2. exact I.
  - apply (same_fields_of
             (fold_left add_key
                (column_names
                   (non_key (record_fields primary_keys mapping_dict
                               (hd [] source_1)))
                   source_1_name source_2_name) ["primary_key"])).
    intros d I. destruct (D d I) as [x [m [Ix R]]].
    rewrite (make_difference_entry_keys _ _ _ _ _ R). unfold non_key_fields.
    rewrite (F1 x) by (apply in_or_app; left; exact Ix). reflexivity.
Qed.

(** X17.  When the loaders, the two readings and the comparison of a run
    return, the run returns: [csv.DictWriter] raises on none of the lists,
    the records of each list having the same fields.  The run writes the
    seven lists that are not empty, in the order of the code, so at most
    seven files, each with its header and a line at least.  The two names
    given to the run only name the files: with other names the kinds and
    the lines of the files are the same, the columns of the difference
    entries included, which are labelled with the configured names. *)
Theorem compare_sources_files (primary_keys : list string)
    (source_1_name source_2_name : string)
    (source_1 source_2 mapping_csv translations_csv filtering_csv : csv)
    (mapping_dict translations_dict : Dict.t)
    (filtering_list : list (string * string))
    (i1 m1 d1 i2 m2 d2 : list Dict.t) (st : compare_state) :
  make_mapping_dict primary_keys mapping_csv "mapping" = Ok mapping_dict ->
  make_mapping_dict primary_keys translations_csv "translations" =
  Ok translations_dict ->
  make_filtering_list filtering_csv = Ok filtering_list ->
  read_source_csv primary_keys source_1 mapping_dict translations_dict
    filtering_list = Ok (i1, m1, d1) ->
  read_source_csv primary_keys source_2 mapping_dict translations_dict
    filtering_list = Ok (i2, m2, d2) ->
  compare_entries source_1_name source_2_name i1 i2 = Ok st ->
  (same_fields m1 /\ same_fields m2 /\ same_fields d1 /\ same_fields d2 /\
   same_fields (source_1_extra st) /\ same_fields (source_2_extra st) /\
   same_fields (differences st)) /\
  forall name_1 name_2,
    compare_sources primary_keys source_1_name source_2_name name_1 name_2
      source_1 source_2 mapping_csv translations_csv filtering_csv =
    Ok (result_files name_1 name_2 m1 m2 d1 d2 (source_1_extra st)
          (source_2_extra st) (differences st)) /\
    Forall (fun r : report => 2 <= List.length (snd r))
      (result_files name_1 name_2 m1 m2 d1 d2 (source_1_extra st)
         (source_2_extra st) (differences st)) /\
    List.length
      (result_files name_1 name_2 m1 m2 d1 d2 (source_1_extra st)
         (source_2_extra st) (differences st)) <= 7 /\
    forall name_1' name_2',
      map contents
        (result_files name_1' name_2' m1 m2 d1 d2 (source_1_extra st)
           (source_2_extra st) (differences st)) =
      map contents
        (result_files name_1 name_2 m1 m2 d1 d2 (source_1_extra st)
           (source_2_extra st) (differences st)).
Proof.
  intros M T F R1 R2 C.
  pose proof (compare_sources_same_fields _ _ _ _ _ _ _ _ _ _ _ _ _ _ _
                R1 R2 C) as S.
  split; [exact S|].
  destruct S as [S1 [S2 [S3 [S4 [S5 [S6 S7]]]]]].
  intros name_1 name_2. split; [|split; [|split]].
  - unfold compare_sources. rewrite M. cbn [bind]. rewrite T. cbn [bind].
    rewrite F. cbn [bind]. rewrite R1. cbn [bind]. rewrite R2. cbn [bind].
    rewrite C. cbn [bind].
    repeat (rewrite write_if_populated_written by assumption; cbn [bind]).
    unfold result_files. rewrite <- !app_assoc. reflexivity.
  - unfold result_files.
    repeat (apply Forall_app; split); apply written_populated.
  - unfold result_files. rewrite !length_app.
    pose proof (proj2 (written_populated name_1 m1 "missingPK")).
    pose proof (proj2 (written_populated name_2 m2 "missingPK")).
    pose proof (proj2 (written_populated name_1 d1 "duplicates")).
    pose proof (proj2 (written_populated name_2 d2 "duplicates")).
    pose proof (proj2 (written_populated name_1 (source_1_extra st) "extra")).
    pose proof (proj2 (written_populated name_2 (source_2_extra st) "extra")).
    pose proof (proj2 (written_populated (name_1 ++ " " ++ name_2)%string
                         (differences st) "differences")).
    cbn [append] in *. lia.
  - intros name_1' name_2'. unfold result_files. rewrite !map_app.
    repeat (f_equal; [apply written_contents|]). apply written_contents.
Qed.

Lemma compare_sources_files_witness :
  let mapping :=
    [["standard"; "source"]; ["id"; "ID"]; ["full_name"; "Name"]] in
  compare_sources Config.primary_keys Config.source_1_name
    Config.source_2_name "A" "B"
    [["ID"; "Name"]; ["7"; "Bond"]; ["3"; "q"]]
    [["ID"; "Name"]; ["7"; "James"]]
    mapping [["value"; "translation"]] [["field"; "value"]] =
  Ok [("A", "extra", [["primary_key"; "full_name"]; ["3"; "q"]]);
      ("A B", "differences",
       [["primary_key"; "full_name-[Test 1]"; "full_name-[Test 2]"];
        ["7"; "bond"; "james"]])].
Proof.
  intros mapping.
  pose (bond := [("primary_key", "7"); ("full_name", "bond")]).
  pose (james := [("primary_key", "7"); ("full_name", "james")]).
  pose (q := [("primary_key", "3"); ("full_name", "q")]).
  exact (proj1
           (proj2
              (compare_sources_files Config.primary_keys
                 Config.source_1_name Config.source_2_name
                 [["ID"; "Name"]; ["7"; "Bond"]; ["3"; "q"]]
                 [["ID"; "Name"]; ["7"; "James"]]
                 mapping [["value"; "translation"]] [["field"; "value"]]
                 [("ID", "id"); ("Name", "full_name")] [] []
                 [q; bond] [] [] [james] [] []
                 (mk_compare_state [q] [] [q; bond] [james] [q] []
                    [[("primary_key", "7"); ("full_name-[Test 1]", "bond");
                      ("full_name-[Test 2]", "james")]])
                 eq_refl eq_refl eq_refl eq_refl eq_refl eq_refl)
              "A" "B")).
Defined.

(** ** The rows without a key, in their order *)

Lemma populate_missing (st st' : source_state) (pk : string) (d : Dict.t) :
  populate st pk d = Ok st' ->
  missing_pks st' =
  missing_pks st ++
  (if String.eqb pk "" || Str.isspace pk then [d] else []).
Proof.
  unfold populate. intros H.
  destruct (String.eqb pk "" || Str.isspace pk).
  { injection H as <-. reflexivity. }
  rewrite app_nil_r.
  destruct (str_in (normalize pk) (seen_pks st)).
  - inv_bind H. destruct (str_in (normalize pk) a).
    + inv_bind H. destruct a0 as [|item [|? ?]]; try discriminate.
      inv_bind H. injection H as <-. reflexivity.
    + injection H as <-. reflexivity.
  - injection H as <-. reflexivity.
Qed.

Lemma read_rows_missing (primary_keys : list string)
    (mapping_dict translations_dict : Dict.t)
    (filtering_list : list (string * string)) (headers : list string)
    (rows : list row) (st st' : source_state) :
  read_rows primary_keys mapping_dict translations_dict filtering_list headers
    rows st = Ok st' ->
  missing_pks st' =
  missing_pks st ++
  keyless_records primary_keys mapping_dict translations_dict filtering_list
    headers rows.
Proof.
  revert st. induction rows as [|entry rows IH]; intros st H.
  - rewrite read_rows_nil in H. injection H as <-. simpl.
    rewrite app_nil_r. reflexivity.
  - rewrite read_rows_cons in H. inv_bind H. rewrite (IH a H). clear IH H.
    rewrite read_row_record in Ha. simpl keyless_records.
    destruct (record_of primary_keys mapping_dict translations_dict headers
                entry) as [[pk d]|e]; [|discriminate].
    cbn [bind fst snd] in Ha.
    destruct (filter_ignore filtering_list d false) as [[|]|e];
      [| |discriminate]; cbn [bind] in Ha.
    + injection Ha as <-. reflexivity.
    + rewrite (populate_missing _ _ _ _ Ha).
      destruct (String.eqb pk "" || Str.isspace pk);
        rewrite <- app_assoc; reflexivity.
Qed.

(** X18.  The rows without a key come back in the order of the file: the
    list [read_source_csv] returns for them holds the records of the rows
    that are not filtered out and whose key cells are empty or white space,
    one for each such row and in the order of the rows; unlike the index and
    the duplicates it is not sorted. *)
Theorem keyless_in_file_order (primary_keys : list string)
    (headers : row) (rows : list row)
    (mapping_dict translations_dict : Dict.t)
    (filtering_list : list (string * string))
    (index keyless duplicates : list Dict.t) :
  read_source_csv primary_keys (headers :: rows) mapping_dict
    translations_dict filtering_list = Ok (index, keyless, duplicates) ->
  keyless =
  keyless_records primary_keys mapping_dict translations_dict filtering_list
    headers rows.
Proof.
  intros H. rewrite read_source_csv_rows in H.
  inv_bind H. inv_bind H. inv_bind H. injection H as _ <- _.
  apply (read_rows_missing _ _ _ _ _ _ _ _ Ha).
Qed.

Lemma keyless_in_file_order_witness :
  [[("primary_key", ""); ("full_name", "zed")];
   [("primary_key", ""); ("full_name", "amy")]] =
  keyless_records ["id"] [("ID", "id"); ("Name", "full_name")] [] []
    ["ID"; "Name"] [[" "; "Zed"]; ["7"; "Bond"]; [""; "Amy"]].
Proof.
  apply (keyless_in_file_order ["id"] ["ID"; "Name"]
           [[" "; "Zed"]; ["7"; "Bond"]; [""; "Amy"]]
           [("ID", "id"); ("Name", "full_name")] [] []
           [[("primary_key", "7"); ("full_name", "bond")]] _ []).
  reflexivity.
Defined.

(** ** The two modes of the loader *)

(** X19.  The two modes of [make_mapping_dict] read a file alike: a file
    that loads in mapping mode loads to the same table in translations
    mode. *)
Theorem make_mapping_dict_modes_agree (primary_keys : list string)
    (mapping_csv : csv) (d : Dict.t) :
  make_mapping_dict primary_keys mapping_csv "mapping" = Ok d ->
  make_mapping_dict primary_keys mapping_csv "translations" = Ok d.
Proof.
  unfold make_mapping_dict. simpl str_in. cbn [negb].
  destruct mapping_csv as [|headers lines]; [discriminate|].
  intros H. inv_bind H. rewrite String.eqb_refl in H. inv_bind H.
  injection H as <-.
  destruct (mapping_lines_ok _ _ _ _ Ha) as [V _].
  rewrite (mapping_lines_valid "mapping" lines []) in Ha
    by (auto; intros ? ? []).
  rewrite (mapping_lines_valid "translations" lines [])
    by (auto; intros ? ? []).
  injection Ha as <-. reflexivity.
Qed.

Lemma make_mapping_dict_modes_agree_witness :
  make_mapping_dict ["id"]
    [["standard"; "source"]; ["id"; "ID"]; ["full_name"; "Name"]]
    "translations" = Ok [("ID", "id"); ("Name", "full_name")].
Proof.
  apply make_mapping_dict_modes_agree. reflexivity.
Defined.

(** ** [populate] without its scan *)

(** X20.  On lists that [read_source_csv] has built, the treatment of a row
    with a key needs no scan of the index and never fails: a record whose
    normalized key was not seen joins the index and its key the keys seen; a
    record whose key was seen joins the duplicates, followed by the record
    of the index with that key, if one is left there, which leaves the
    index.  A row without a key only joins the rows without a key. *)
Theorem populate_by_key (st : source_state) (pk : string) (d : Dict.t) :
  source_invariant st ->
  populate st pk d =
  Ok (if String.eqb pk "" || Str.isspace pk then
        mk_source_state (entries st) (missing_pks st ++ [d]) (duplicates st)
          (seen_pks st)
      else if str_in (normalize pk) (seen_pks st) then
        mk_source_state
          (filter (fun x => negb (has_pk (Some (normalize pk)) x))
             (entries st))
          (missing_pks st)
          ((duplicates st ++ [d]) ++
           filter (has_pk (Some (normalize pk))) (entries st))
          (seen_pks st)
      else
        mk_source_state (entries st ++ [d]) (missing_pks st) (duplicates st)
          (seen_pks st ++ [normalize pk])).
Proof. exact (populate_cases st pk d). Qed.

Lemma populate_by_key_witness :
  populate
    (mk_source_state [[("primary_key", "42"); ("full_name", "alice")]] [] []
       ["42"])
    " 42 " [("primary_key", "42"); ("full_name", "bob")] =
  Ok (mk_source_state [] []
        [[("primary_key", "42"); ("full_name", "bob")];
         [("primary_key", "42"); ("full_name", "alice")]] ["42"]).
Proof.
  apply (populate_by_key
           (mk_source_state
              [[("primary_key", "42"); ("full_name", "alice")]] [] [] ["42"])
           " 42 " [("primary_key", "42"); ("full_name", "bob")]).
  split; [|split]; cbn.
  - intros x [<-|[]]. exists "42". split; [reflexivity | left; reflexivity].
  - repeat constructor. simpl. intuition.
  - intros d0 x [].
Defined.
